(** * mariakit/types: the database value codecs

    A shallow embedding of the Go package [types] of louis77/mariakit
    (JSON, StringArray, Point, LineString and Vector with their
    [driver.Valuer] / [sql.Scanner] methods) and the properties of its
    encoders and decoders.

    Conventions of the embedding:
    - a byte is [Init.Byte.byte]; a [[]byte] that is only read is a
      [slice] (visible elements plus the spare capacity behind them, as
      Go allows re-slicing up to the capacity); a [[]byte] under
      construction is a [buffer] that subslice writes alias;
    - Go's [int] is the 64-bit one; [uint32] arithmetic is written with
      its wrap-around modulo [2^32];
    - a [float64] / [float32] is its IEEE-754 bit pattern, a machine word,
      so [math.Float64bits] and [math.Float64frombits] only change the
      view; [int32] / [int64] are two's-complement words;
    - a run-time panic is an outcome of its own, distinct from a returned
      [error];
    - functions of Go's standard library whose full behaviour is outside
      this package (number parsing and printing, JSON string quoting) are
      section variables or parameters of the function that calls them. *)

From Stdlib Require Import ZArith List Lia Bool.
From Stdlib Require Import Strings.Byte.
From coqutil Require Import Byte Word.LittleEndianList.
From coqutil Require Import Word.Interface Word.Properties Word.Naive.
Import ListNotations.
Local Open Scope Z_scope.

(* ===================================================================== *)
(** * Part I: the Go run time *)
(* ===================================================================== *)

(** The run-time panics the package can raise. *)
Inductive panic : Set :=
| IndexOutOfRange          (* b[i] with i outside [0, len b) *)
| SliceBoundsOutOfRange    (* b[lo:hi] outside 0 <= lo <= hi <= cap b *)
| InterfaceConversion      (* x.(T) on a value whose dynamic type is not T *)
| MakeSliceLenOutOfRange.  (* make([]T, n) with n < 0 *)

(** What a call does: it returns, or it panics. *)
Inductive outcome (A : Type) : Type :=
| Return (a : A)
| Panicked (p : panic).
Arguments Return {A} a.
Arguments Panicked {A} p.

Definition bind {A B : Type} (m : outcome A) (k : A -> outcome B) : outcome B :=
  match m with
  | Return a => k a
  | Panicked p => Panicked p
  end.

Notation "x <- m ;; k" := (bind m (fun x => k))
  (at level 61, m at next level, right associativity).
Notation "' pat <- m ;; k" := (bind m (fun x => match x with pat => k end))
  (at level 61, pat pattern, m at next level, right associativity).

(** A byte slice seen by a reader: [elems] are the [len] visible bytes,
    [spare] the bytes of the backing array between [len] and [cap]. *)
Record slice : Type := mkSlice { elems : list byte; spare : list byte }.

Definition len (s : slice) : Z := Z.of_nat (length (elems s)).
Definition cap (s : slice) : Z := Z.of_nat (length (elems s) + length (spare s)).
Definition backing (s : slice) : list byte := elems s ++ spare s.

(** [s[i]] *)
Definition index (s : slice) (i : Z) : outcome byte :=
  if (0 <=? i) && (i <? len s)
  then Return (nth (Z.to_nat i) (elems s) x00)
  else Panicked IndexOutOfRange.

(** [s[lo:hi]]: legal up to the capacity, not only up to the length. *)
Definition reslice (s : slice) (lo hi : Z) : outcome slice :=
  if (0 <=? lo) && (lo <=? hi) && (hi <=? cap s)
  then Return {| elems := firstn (Z.to_nat (hi - lo)) (skipn (Z.to_nat lo) (backing s));
                 spare := skipn (Z.to_nat hi) (backing s) |}
  else Panicked SliceBoundsOutOfRange.

(** A byte slice under construction. [make([]byte, n)] has capacity [n],
    so the buffer is its whole backing array. *)
Definition buffer : Type := list byte.

Definition make (n : Z) : outcome buffer :=
  if n <? 0 then Panicked MakeSliceLenOutOfRange
  else Return (repeat x00 (Z.to_nat n)).

(** Overwrite [length bs] bytes of [buf] from position [lo] on. *)
Definition blit (buf : buffer) (lo : Z) (bs : list byte) : buffer :=
  firstn (Z.to_nat lo) buf ++ bs ++ skipn (Z.to_nat lo + length bs) buf.

(** [buf[i] = b] *)
Definition store (buf : buffer) (i : Z) (b : byte) : outcome buffer :=
  if (0 <=? i) && (i <? Z.of_nat (length buf))
  then Return (blit buf i [b])
  else Panicked IndexOutOfRange.

(** The finished buffer as the [[]byte] handed to the caller. *)
Definition freeze (buf : buffer) : slice := {| elems := buf; spare := [] |}.

(** ** Machine numbers *)

Definition uint32_wrap (z : Z) : Z := z mod 2 ^ 32.

(** [float64], [float32]: the IEEE-754 bit pattern. [int64], [int32]:
    the two's-complement pattern. *)
Definition float64 : Type := @word.rep 64 Naive.word64.
Definition float32 : Type := @word.rep 32 Naive.word32.
Definition int64 : Type := @word.rep 64 Naive.word64.
Definition int32 : Type := @word.rep 32 Naive.word32.

Module math.
Definition Float64bits (f : float64) : Z := word.unsigned f.
Definition Float64frombits (b : Z) : float64 := word.of_Z b.
Definition Float32bits (f : float32) : Z := word.unsigned f.
Definition Float32frombits (b : Z) : float32 := word.of_Z b.

(** IEEE-754 classification of a binary64 pattern and the [==] of Go on
    [float64]: a NaN differs from everything, +0 equals -0. *)
Definition exponent64 (f : float64) : Z := Z.land (Z.shiftr (word.unsigned f) 52) 0x7FF.
Definition fraction64 (f : float64) : Z := Z.land (word.unsigned f) 0xFFFFFFFFFFFFF.
Definition IsNaN (f : float64) : bool :=
  (exponent64 f =? 0x7FF) && negb (fraction64 f =? 0).
Definition is_zero64 (f : float64) : bool :=
  Z.land (word.unsigned f) 0x7FFFFFFFFFFFFFFF =? 0.
Definition float64_eqb (a b : float64) : bool :=
  negb (IsNaN a) && negb (IsNaN b) &&
  ((word.unsigned a =? word.unsigned b) || (is_zero64 a && is_zero64 b)).
End math.

(** ** encoding/binary *)

Module binary.
Inductive ByteOrder : Set := LittleEndian | BigEndian.

Definition combine (o : ByteOrder) (bs : list byte) : Z :=
  match o with
  | LittleEndian => le_combine bs
  | BigEndian => le_combine (rev bs)
  end.

Definition split (o : ByteOrder) (n : nat) (v : Z) : list byte :=
  match o with
  | LittleEndian => le_split n v
  | BigEndian => rev (le_split n v)
  end.

(** [order.Uint32(b)]: the bounds check [_ = b[3]], then
    [b[0] | b[1]<<8 | b[2]<<16 | b[3]<<24] (mirrored for big endian). *)
Definition Uint32 (o : ByteOrder) (b : slice) : outcome Z :=
  _ <- index b 3 ;;
  Return (combine o (firstn 4 (elems b))).

(** [order.Uint64(b)], with the bounds check [_ = b[7]]. *)
Definition Uint64 (o : ByteOrder) (b : slice) : outcome Z :=
  _ <- index b 7 ;;
  Return (combine o (firstn 8 (elems b))).

(** [order.PutUintN(buf[lo:hi], v)]: the subslice aliases [buf], so the
    write lands in [buf] at [lo]. The subslice must be legal and at
    least N/8 bytes long. *)
Definition PutUint (n : nat) (o : ByteOrder) (buf : buffer) (lo hi : Z) (v : Z)
  : outcome buffer :=
  if negb ((0 <=? lo) && (lo <=? hi) && (hi <=? Z.of_nat (length buf)))
  then Panicked SliceBoundsOutOfRange
  else if hi - lo <? Z.of_nat n then Panicked IndexOutOfRange
  else Return (blit buf lo (split o n v)).

Definition PutUint32 := PutUint 4.
Definition PutUint64 := PutUint 8.
End binary.

(** ** What the database driver hands to [Scan] and takes from [Value] *)

(** [interface{}] at the driver boundary: [nil], a [string], a [[]byte],
    or a value of some other dynamic type (named by [%T]). *)
Inductive value : Type :=
| VNil
| VString (s : list byte)
| VBytes (b : slice)
| VOther (tyname : list byte).

(* ===================================================================== *)
(** * Part II: text, as Go's standard library reads it *)
(* ===================================================================== *)

(** ** unicode/utf8 *)

Module utf8.
Definition RuneError : Z := 0xFFFD.
Definition RuneSelf : Z := 0x80.

Definition between (lo hi : Z) (b : byte) : bool :=
  (lo <=? byte.unsigned b) && (byte.unsigned b <=? hi).
Definition continuation (b : byte) : bool := between 0x80 0xBF b.
Definition low6 (b : byte) : Z := Z.land (byte.unsigned b) 0x3F.

(** [utf8.DecodeRune]: the first rune and its width in bytes;
    [(RuneError, 0)] on empty input, [(RuneError, 1)] on an encoding
    that is invalid, too short, overlong or out of range. *)
Definition DecodeRune (p : list byte) : Z * nat :=
  match p with
  | [] => (RuneError, 0%nat)
  | b0 :: t =>
    let v0 := byte.unsigned b0 in
    if v0 <? RuneSelf then (v0, 1%nat)
    else if between 0xC2 0xDF b0 then
      match t with
      | b1 :: _ =>
        if continuation b1
        then (Z.lor (Z.shiftl (Z.land v0 0x1F) 6) (low6 b1), 2%nat)
        else (RuneError, 1%nat)
      | _ => (RuneError, 1%nat)
      end
    else if between 0xE0 0xEF b0 then
      match t with
      | b1 :: b2 :: _ =>
        if between (if v0 =? 0xE0 then 0xA0 else 0x80)
                   (if v0 =? 0xED then 0x9F else 0xBF) b1
           && continuation b2
        then (Z.lor (Z.lor (Z.shiftl (Z.land v0 0x0F) 12) (Z.shiftl (low6 b1) 6))
                    (low6 b2), 3%nat)
        else (RuneError, 1%nat)
      | _ => (RuneError, 1%nat)
      end
    else if between 0xF0 0xF4 b0 then
      match t with
      | b1 :: b2 :: b3 :: _ =>
        if between (if v0 =? 0xF0 then 0x90 else 0x80)
                   (if v0 =? 0xF4 then 0x8F else 0xBF) b1
           && continuation b2 && continuation b3
        then (Z.lor (Z.lor (Z.lor (Z.shiftl (Z.land v0 0x07) 18)
                                  (Z.shiftl (low6 b1) 12))
                           (Z.shiftl (low6 b2) 6))
                    (low6 b3), 4%nat)
        else (RuneError, 1%nat)
      | _ => (RuneError, 1%nat)
      end
    else (RuneError, 1%nat)
  end.

(** [utf8.RuneStart]: not a continuation byte. *)
Definition RuneStart (b : byte) : bool :=
  negb (Z.land (byte.unsigned b) 0xC0 =? 0x80).

(** The backward walk of [DecodeLastRune]: from [start] down to [lim],
    stopping at the first byte that can start a rune. *)
Fixpoint find_start (p : list byte) (start lim : Z) (fuel : nat) : Z :=
  match fuel with
  | O => start
  | S fuel' =>
    if start <? lim then start
    else if RuneStart (nth (Z.to_nat start) p x00) then start
    else find_start p (start - 1) lim fuel'
  end.

(** [utf8.DecodeLastRune]: the last rune and its width. *)
Definition DecodeLastRune (p : list byte) : Z * nat :=
  let end_ := Z.of_nat (length p) in
  if end_ =? 0 then (RuneError, 0%nat)
  else
    let last := byte.unsigned (nth (Z.to_nat (end_ - 1)) p x00) in
    if last <? RuneSelf then (last, 1%nat)
    else
      let lim := Z.max (end_ - 4) 0 in
      let start := Z.max (find_start p (end_ - 2) lim 4) 0 in
      let '(r, size) := DecodeRune (skipn (Z.to_nat start) p) in
      if start + Z.of_nat size =? end_ then (r, size) else (RuneError, 1%nat).
End utf8.

(** ** unicode.IsSpace, which is also fmt's [isSpace] *)

Module unicode.
Definition space_ranges : list (Z * Z) :=
  [ (0x0009, 0x000d); (0x0020, 0x0020); (0x0085, 0x0085); (0x00a0, 0x00a0);
    (0x1680, 0x1680); (0x2000, 0x200a); (0x2028, 0x2029); (0x202f, 0x202f);
    (0x205f, 0x205f); (0x3000, 0x3000) ].

Definition IsSpace (r : Z) : bool :=
  existsb (fun rng => (fst rng <=? r) && (r <=? snd rng)) space_ranges.
End unicode.

(** ** strings *)

Module strings.
Definition byte_eqb (a b : byte) : bool := byte.unsigned a =? byte.unsigned b.

Fixpoint HasPrefix (s prefix : list byte) : bool :=
  match prefix, s with
  | [], _ => true
  | p :: prefix', c :: s' => byte_eqb p c && HasPrefix s' prefix'
  | _ :: _, [] => false
  end.

Definition HasSuffix (s suffix : list byte) : bool :=
  HasPrefix (rev s) (rev suffix).

(** [strings.TrimLeftFunc(s, unicode.IsSpace)] *)
Fixpoint TrimLeft (fuel : nat) (s : list byte) : list byte :=
  match fuel with
  | O => s
  | S fuel' =>
    match utf8.DecodeRune s with
    | (_, O) => s
    | (r, size) => if unicode.IsSpace r then TrimLeft fuel' (skipn size s) else s
    end
  end.

(** [strings.TrimRightFunc(s, unicode.IsSpace)] *)
Fixpoint TrimRight (fuel : nat) (s : list byte) : list byte :=
  match fuel with
  | O => s
  | S fuel' =>
    match utf8.DecodeLastRune s with
    | (_, O) => s
    | (r, size) =>
      if unicode.IsSpace r then TrimRight fuel' (firstn (length s - size) s) else s
    end
  end.

(** [strings.TrimSpace]: every step removes at least one byte, so
    [length s] steps are enough on each side. *)
Definition TrimSpace (s : list byte) : list byte :=
  let s1 := TrimLeft (length s) s in
  TrimRight (length s1) s1.

(** [strings.Split(s, sep)] for a one-byte separator: the pieces between
    the separators, [n + 1] of them for [n] separators. *)
Fixpoint Split1 (s : list byte) (sep : byte) (cur : list byte) : list (list byte) :=
  match s with
  | [] => [rev cur]
  | c :: s' =>
    if byte_eqb c sep then rev cur :: Split1 s' sep []
    else Split1 s' sep (c :: cur)
  end.

(** [strings.Join(elems, sep)] *)
Fixpoint Join (elems : list (list byte)) (sep : list byte) : list byte :=
  match elems with
  | [] => []
  | e :: rest =>
    match rest with
    | [] => e
    | _ :: _ => e ++ sep ++ Join rest sep
    end
  end.

(** [s[lo:hi]] on a string. *)
Definition substr (s : list byte) (lo hi : Z) : outcome (list byte) :=
  if (0 <=? lo) && (lo <=? hi) && (hi <=? Z.of_nat (length s))
  then Return (firstn (Z.to_nat (hi - lo)) (skipn (Z.to_nat lo) s))
  else Panicked SliceBoundsOutOfRange.
End strings.

(** ** fmt.Sscanf, for the two formats the package uses *)

Module fmt.
(** The errors [Sscanf] reports. *)
Inductive scan_error : Type :=
| ErrInputDoesNotMatchFormat   (* a literal of the format differs from the input *)
| ErrUnexpectedEOF             (* a literal of the format meets the end of input *)
| ErrEOF                       (* a verb meets the end of input *)
| ErrUnexpectedNewline         (* a newline where blanks are skipped *)
| ErrExpectedSpace             (* a blank of the format meets a non-blank *)
| ErrNewlineInInput            (* a blank of the format meets a newline *)
| ErrSyntax (token : list byte). (* the number conversion refused the token *)

(** The scanner state [ss]: the unread input and the number of runes
    read so far, which [hugeWid] bounds. *)
Record ss : Type := mkSS { input : list byte; count : Z }.

Definition hugeWid : Z := 2 ^ 30.

Inductive sres (A : Type) : Type :=
| SOk (a : A) (s : ss)
| SErr (e : scan_error).
Arguments SOk {A} a s.
Arguments SErr {A} e.

Definition sbind {A B : Type} (m : ss -> sres A) (k : A -> ss -> sres B)
  : ss -> sres B :=
  fun s => match m s with
           | SOk a s' => k a s'
           | SErr e => SErr e
           end.

Notation "x <~ m ;; k" := (sbind m (fun x => k))
  (at level 61, m at next level, right associativity).

(** [s.getRune()]: [None] is [eof]. Reading a rune back with
    [UnreadRune] is going on from the state before the read. *)
Definition getRune (s : ss) : option (Z * ss) :=
  if hugeWid <=? count s then None
  else match utf8.DecodeRune (input s) with
       | (_, O) => None
       | (r, size) => Some (r, {| input := skipn size (input s); count := count s + 1 |})
       end.

(** [s.peek("\n")] *)
Definition peek_newline (s : ss) : bool :=
  match getRune s with
  | Some (r, _) => r =? 10
  | None => false
  end.

(** [s.SkipSpace()] with [nlIsSpace = false], as [Sscanf] sets it. *)
Fixpoint SkipSpace_loop (fuel : nat) (s : ss) : sres unit :=
  match fuel with
  | O => SOk tt s
  | S fuel' =>
    match getRune s with
    | None => SOk tt s
    | Some (r, s') =>
      if (r =? 13) && peek_newline s' then SkipSpace_loop fuel' s'
      else if r =? 10 then SErr ErrUnexpectedNewline
      else if negb (unicode.IsSpace r) then SOk tt s
      else SkipSpace_loop fuel' s'
    end
  end.

Definition SkipSpace (s : ss) : sres unit :=
  SkipSpace_loop (S (length (input s))) s.

(** [s.notEOF()] *)
Definition notEOF (s : ss) : sres unit :=
  match getRune s with
  | None => SErr ErrEOF
  | Some _ => SOk tt s
  end.

(** The reading loop of [s.token(true, notSpace)]: runes up to the
    first blank or the end of input. *)
Fixpoint token_loop (fuel : nat) (s : ss) (buf : list Z) : sres (list Z) :=
  match fuel with
  | O => SOk buf s
  | S fuel' =>
    match getRune s with
    | None => SOk buf s
    | Some (r, s') =>
      if unicode.IsSpace r then SOk buf s
      else token_loop fuel' s' (buf ++ [r])
    end
  end.

Definition token (s : ss) : sres (list Z) :=
  (_ <~ SkipSpace ;; fun s' => token_loop (S (length (input s'))) s' []) s.

(** [s.convertString('s')]: the next blank-delimited word. *)
Definition convertString : ss -> sres (list Z) :=
  _ <~ SkipSpace ;; _ <~ notEOF ;; token.

(** [s.accept(ok)]: take the next rune into the token when it is one of
    [ok]. *)
Definition accept (ok : list Z) (st : ss * list byte) : bool * (ss * list byte) :=
  let '(s, buf) := st in
  match getRune s with
  | None => (false, st)
  | Some (r, s') =>
    if existsb (Z.eqb r) ok then (true, (s', buf ++ [byte.of_Z r])) else (false, st)
  end.

Fixpoint accept_many (fuel : nat) (ok : list Z) (st : ss * list byte) : ss * list byte :=
  match fuel with
  | O => st
  | S fuel' =>
    match accept ok st with
    | (true, st') => accept_many fuel' ok st'
    | (false, st') => st'
    end
  end.

Definition runes (s : list byte) : list Z := map byte.unsigned s.

Definition decimalDigits : list Z := runes [x30;x31;x32;x33;x34;x35;x36;x37;x38;x39].
Definition hexadecimalDigits : list Z :=
  runes [x30;x31;x32;x33;x34;x35;x36;x37;x38;x39;
         x61;x41;x62;x42;x63;x43;x64;x44;x65;x45;x66;x46].
Definition sign : list Z := runes [x2b;x2d].
Definition period : list Z := runes [x2e].
Definition exponent : list Z := runes [x65;x45;x70;x50].
Definition underscore : list Z := runes [x5f].

(** [s.floatToken()] *)
Definition floatToken (s : ss) : list byte * ss :=
  let n := S (length (input s)) in
  let st := (s, []) in
  let '(isN, st) := accept (runes [x6e;x4e]) st in
  let '(isNa, st) := if isN then accept (runes [x61;x41]) st else (false, st) in
  let '(isNan, st) := if isNa then accept (runes [x6e;x4e]) st else (false, st) in
  if isNan then (snd st, fst st)
  else
    let '(_, st) := accept sign st in
    let '(isI, st) := accept (runes [x69;x49]) st in
    let '(isIn, st) := if isI then accept (runes [x6e;x4e]) st else (false, st) in
    let '(isInf, st) := if isIn then accept (runes [x66;x46]) st else (false, st) in
    if isInf then (snd st, fst st)
    else
      let '(is0, st) := accept (runes [x30]) st in
      let '(is0x, st) := if is0 then accept (runes [x78;x58]) st else (false, st) in
      let digits := (if is0x then hexadecimalDigits else decimalDigits) ++ underscore in
      let exp := if is0x then runes [x70;x50] else exponent in
      let st := accept_many n digits st in
      let '(dot, st) := accept period st in
      let st := if dot then accept_many n digits st else st in
      let '(hasExp, st) := accept exp st in
      let st := if hasExp
                then accept_many n (decimalDigits ++ underscore) (snd (accept sign st))
                else st in
      (snd st, fst st).

Section Verbs.
(** [s.convertFloat(token, 64)]: the value of a float token, or [None]
    where [strconv] refuses it. *)
Variable convertFloat : list byte -> option float64.

(** A verb [%f] with a [*float64] operand: [doScanf] skips blanks, then
    [scanOne] skips blanks, wants input, takes the token and converts. *)
Definition scan_f : ss -> sres float64 :=
  _ <~ SkipSpace ;; _ <~ SkipSpace ;; _ <~ notEOF ;;
  fun s => let '(tok, s') := floatToken s in
           match convertFloat tok with
           | Some f => SOk f s'
           | None => SErr (ErrSyntax tok)
           end.

(** A verb [%s] with a [*string] operand. *)
Definition scan_s : ss -> sres (list Z) :=
  _ <~ SkipSpace ;; convertString.

(** [s.advance] over literal characters of the format: each must be
    the next rune of the input. *)
Fixpoint literal (lit : list byte) (s : ss) : sres unit :=
  match lit with
  | [] => SOk tt s
  | c :: lit' =>
    match getRune s with
    | None => SErr ErrUnexpectedEOF
    | Some (r, s') =>
      if r =? byte.unsigned c then literal lit' s' else SErr ErrInputDoesNotMatchFormat
    end
  end.

(** The end of [s.advance] over one blank of the format: the blanks of
    the input up to a newline are read. *)
Fixpoint blanks_loop (fuel : nat) (s : ss) : ss :=
  match fuel with
  | O => s
  | S fuel' =>
    match getRune s with
    | None => s
    | Some (r, s') =>
      if unicode.IsSpace r && negb (r =? 10) then blanks_loop fuel' s' else s
    end
  end.

(** [s.advance] over one blank of the format that follows no newline:
    the input must be at a blank other than a newline, or at its end. *)
Definition blank (s : ss) : sres unit :=
  match getRune s with
  | None => SOk tt s
  | Some (r, _) =>
    if negb (unicode.IsSpace r) then SErr ErrExpectedSpace
    else if r =? 10 then SErr ErrNewlineInInput
    else SOk tt (blanks_loop (S (length (input s))) s)
  end.

Definition start (str : list byte) : ss := {| input := str; count := 0 |}.

Definition result_of {A : Type} (r : sres A) : A + scan_error :=
  match r with
  | SOk a _ => inl a
  | SErr e => inr e
  end.

(** [fmt.Sscanf(str, "POINT(%f %f)", &x, &y)] *)
Definition Sscanf_POINT (str : list byte) : (float64 * float64) + scan_error :=
  result_of
    ((_ <~ literal [x50;x4f;x49;x4e;x54;x28] ;;
      x <~ scan_f ;;
      _ <~ blank ;;
      y <~ scan_f ;;
      _ <~ literal [x29] ;;
      fun s => SOk (x, y) s) (start str)).

(** [fmt.Sscanf(str, "%s(%f %f)", &pointPrefix, &x, &y)] *)
Definition Sscanf_lenient (str : list byte) : (float64 * float64) + scan_error :=
  result_of
    ((_ <~ scan_s ;;
      _ <~ literal [x28] ;;
      x <~ scan_f ;;
      _ <~ blank ;;
      y <~ scan_f ;;
      _ <~ literal [x29] ;;
      fun s => SOk (x, y) s) (start str)).
End Verbs.
End fmt.

(** ** strconv and encoding/json: what the package sees of them *)

Module strconv.
(** The two causes a [*strconv.NumError] wraps. *)
Inductive NumError : Set := ErrSyntax | ErrRange.
End strconv.

Module json.
Inductive error : Set :=
| SyntaxError
| UnmarshalTypeError
| UnsupportedTypeError
| UnsupportedValueError
| MarshalerError.

(** JSON white space: space, tab, line feed, carriage return. *)
Definition isSpace (c : byte) : bool :=
  let v := byte.unsigned c in
  (v =? 0x20) || (v =? 0x09) || (v =? 0x0a) || (v =? 0x0d).

Fixpoint skip_space (s : list byte) : list byte :=
  match s with
  | c :: s' => if isSpace c then skip_space s' else s
  | [] => []
  end.

(** The text without the white space around the JSON value. *)
Definition strip (s : list byte) : list byte :=
  rev (skip_space (rev (skip_space s))).

Definition list_byte_eqb (a b : list byte) : bool :=
  (length a =? length b)%nat && strings.HasPrefix a b.

Definition null_literal : list byte := [x6e;x75;x6c;x6c].

(** The text is the literal [null]. *)
Definition is_null (s : list byte) : bool := list_byte_eqb (strip s) null_literal.

(** The text is an array without elements: [[], [ ], ...]. *)
Definition is_empty_array (s : list byte) : bool :=
  match strip s with
  | c :: s' =>
    strings.byte_eqb c x5b &&
    match skip_space s' with
    | [d] => strings.byte_eqb d x5d
    | _ => false
    end
  | [] => false
  end.

Fixpoint join (sep : list byte) (parts : list (list byte)) : list byte :=
  match parts with
  | [] => []
  | [p] => p
  | p :: rest => p ++ sep ++ join sep rest
  end.
End json.

(* ===================================================================== *)
(** * Part III: package types *)
(* ===================================================================== *)

(** Which codec refuses an operand: the [%s] of
    ["unsupported type for %s: %T"]. *)
Inductive codec : Set := CJSON | CStringArray | CPoint | CLineString | CVector.

(** The errors of the package, one constructor per message. *)
Inductive error : Type :=
| UnsupportedType (c : codec) (tyname : list byte)
    (* "unsupported type for <c>: %T" *)
| WKBTooShort (n : Z)
    (* "WKB data too short: %d bytes" *)
| InvalidByteOrder (b : byte)
    (* "invalid byte order indicator: %d" *)
| WrongGeometryType (expected got : Z)
    (* "expected geometry type <expected> (...), got %d" *)
| PointParseFailure (str : list byte) (cause : fmt.scan_error)
    (* "failed to parse Point from '%s': %v" *)
| VectorTooShort (n : Z)
    (* "vector data too short: %d bytes" *)
| UnknownVectorElementType (t : byte)
    (* "unknown vector element type: %d" *)
| VectorTooShortForDimension (dimension got expected : Z)
    (* "vector data too short for dimension %d: got %d bytes, expected %d" *)
| InvalidVectorString (s : list byte)
    (* "invalid vector string format: %s" *)
| UnsupportedVectorElementType
    (* "unsupported vector element type" *)
| VectorElementParseFailure (part : list byte) (cause : strconv.NumError)
    (* "failed to parse vector element '%s': %v" *)
| JSONError (e : json.error).
    (* an error of encoding/json, passed on *)

(** [[]byte(v)] for a string [v]: a fresh slice holding the bytes of
    [v]; the run time may round its capacity up, the spare bytes are
    zero. *)
Definition bytes_of_string (spare_cap : nat -> nat) (v : list byte) : slice :=
  {| elems := v; spare := repeat x00 (spare_cap (length v)) |}.

(** ** geometry: Point and LineString (WKB) *)

Definition WKBTypePoint : Z := 1.
Definition WKBTypeLineString : Z := 2.

Record Point : Type := mkPoint { X : float64; Y : float64 }.

Definition decodePoint (byteOrder : binary.ByteOrder) (data : slice) : outcome Point :=
  dx <- reslice data 0 8 ;;
  x <- binary.Uint64 byteOrder dx ;;
  dy <- reslice data 8 16 ;;
  y <- binary.Uint64 byteOrder dy ;;
  Return {| X := math.Float64frombits x; Y := math.Float64frombits y |}.

(** The byte-order indicator of a WKB header: [data[4]]. *)
Definition byte_order_of (data : slice) : outcome (binary.ByteOrder + error) :=
  b4 <- index data 4 ;;
  if byte.unsigned b4 =? 0 then Return (inl binary.BigEndian)
  else if byte.unsigned b4 =? 1 then Return (inl binary.LittleEndian)
  else b0 <- index data 0 ;; Return (inr (InvalidByteOrder b0)).

Module Point.
Definition Value (p : Point) : outcome (value * option error) :=
  data <- make 25 ;;
  data <- store data 0 x00 ;;
  data <- store data 1 x00 ;;
  data <- store data 2 x00 ;;
  data <- store data 3 x00 ;;
  data <- store data 4 x01 ;;
  let byteOrder := binary.LittleEndian in
  data <- binary.PutUint32 byteOrder data 5 9 WKBTypePoint ;;
  data <- binary.PutUint64 byteOrder data 9 17 (math.Float64bits (X p)) ;;
  data <- binary.PutUint64 byteOrder data 17 25 (math.Float64bits (Y p)) ;;
  Return (VBytes (freeze data), None).

Section Scan.
Variable convertFloat : list byte -> option float64.
Variable spare_cap : nat -> nat.

(** [Point.Scan] once the type switch has produced [data]. *)
Definition scan_bytes (p : Point) (data : slice) : outcome (Point * option error) :=
  starts_with_P <-
    (if 5 <? len data
     then b0 <- index data 0 ;;
          Return ((byte.unsigned b0 =? 0x50) || (byte.unsigned b0 =? 0x70))
     else Return false) ;;
  if starts_with_P then
    let str := elems data in
    match fmt.Sscanf_POINT convertFloat str with
    | inl (x, y) => Return ({| X := x; Y := y |}, None)
    | inr _ =>
      match fmt.Sscanf_lenient convertFloat str with
      | inl (x, y) => Return ({| X := x; Y := y |}, None)
      | inr err => Return (p, Some (PointParseFailure str err))
      end
    end
  else if len data <? 25 then Return (p, Some (WKBTooShort (len data)))
  else
    order <- byte_order_of data ;;
    match order with
    | inr err => Return (p, Some err)
    | inl byteOrder =>
      d <- reslice data 5 9 ;;
      geometryType <- binary.Uint32 byteOrder d ;;
      if negb (geometryType =? WKBTypePoint)
      then Return (p, Some (WrongGeometryType 1 geometryType))
      else
        d <- reslice data 9 25 ;;
        q <- decodePoint byteOrder d ;;
        Return (q, None)
    end.

(** [Scan] gives the receiver after the call and the error returned. *)
Definition Scan (p : Point) (v : value) : outcome (Point * option error) :=
  match v with
  | VNil => Return (p, None)
  | VString s => scan_bytes p (bytes_of_string spare_cap s)
  | VBytes b => scan_bytes p b
  | VOther ty => Return (p, Some (UnsupportedType CPoint ty))
  end.
End Scan.
End Point.

Record LineString : Type := mkLineString { Points : list Point }.

Module LineString.
(** [points[i] = q] *)
Definition set_point (points : list Point) (i : Z) (q : Point) : outcome (list Point) :=
  if (0 <=? i) && (i <? Z.of_nat (length points))
  then Return (firstn (Z.to_nat i) points ++ q :: skipn (S (Z.to_nat i)) points)
  else Panicked IndexOutOfRange.

(** The loop [for i := range numPoints] of [Scan], with [n] rounds
    left; [i] and [offset] are [uint32]. *)
Fixpoint scan_points (n : nat) (i : Z) (byteOrder : binary.ByteOrder) (data : slice)
  (points : list Point) : outcome (list Point) :=
  match n with
  | O => Return points
  | S n' =>
    let offset := uint32_wrap (13 + uint32_wrap (i * 16)) in
    d <- reslice data offset (uint32_wrap (offset + 8)) ;;
    q <- decodePoint byteOrder d ;;
    points <- set_point points i q ;;
    scan_points n' (i + 1) byteOrder data points
  end.

Definition zeroPoint : Point := {| X := word.of_Z 0; Y := word.of_Z 0 |}.

(** [LineString.Scan] once the type switch has produced [data]. *)
Definition scan_bytes (p : LineString) (data : slice)
  : outcome (LineString * option error) :=
  if len data <? 29 then Return (p, Some (WKBTooShort (len data)))
  else
    order <- byte_order_of data ;;
    match order with
    | inr err => Return (p, Some err)
    | inl byteOrder =>
      d <- reslice data 5 9 ;;
      geometryType <- binary.Uint32 byteOrder d ;;
      if negb (geometryType =? WKBTypeLineString)
      then Return (p, Some (WrongGeometryType 2 geometryType))
      else
        d <- reslice data 9 13 ;;
        numPoints <- binary.Uint32 byteOrder d ;;
        let points := repeat zeroPoint (Z.to_nat numPoints) in
        points <- scan_points (Z.to_nat numPoints) 0 byteOrder data points ;;
        Return ({| Points := points |}, None)
    end.

Section Scan.
Variable spare_cap : nat -> nat.

Definition Scan (p : LineString) (v : value) : outcome (LineString * option error) :=
  match v with
  | VNil => Return (p, None)
  | VString s => scan_bytes p (bytes_of_string spare_cap s)
  | VBytes b => scan_bytes p b
  | VOther ty => Return (p, Some (UnsupportedType CLineString ty))
  end.
End Scan.

(** The loop [for i, p := range p.Points] of [Value]; [i] is an [int]. *)
Fixpoint put_points (points : list Point) (i : Z) (data : buffer) : outcome buffer :=
  match points with
  | [] => Return data
  | p :: rest =>
    let offset := 13 + i * 16 in
    data <- binary.PutUint64 binary.LittleEndian data offset (offset + 8)
              (math.Float64bits (X p)) ;;
    data <- binary.PutUint64 binary.LittleEndian data (offset + 8) (offset + 16)
              (math.Float64bits (Y p)) ;;
    put_points rest (i + 1) data
  end.

Definition Value (p : LineString) : outcome (value * option error) :=
  let n := Z.of_nat (length (Points p)) in
  data <- make (13 + n * 16) ;;
  data <- store data 0 x00 ;;
  data <- store data 1 x00 ;;
  data <- store data 2 x00 ;;
  data <- store data 3 x00 ;;
  data <- store data 4 x01 ;;
  let byteOrder := binary.LittleEndian in
  data <- binary.PutUint32 byteOrder data 5 9 WKBTypeLineString ;;
  data <- binary.PutUint32 byteOrder data 9 13 (uint32_wrap n) ;;
  data <- put_points (Points p) 0 data ;;
  Return (VBytes (freeze data), None).
End LineString.

(** ** JSON[T] *)

Module JSON.
Section WithT.
(** The document type and what encoding/json does on it:
    [json.Marshal(data)] gives the text or an error;
    [json.Unmarshal(data, &x)] gives [x] after the call (which a failing
    call may have written in part) and the error. *)
Variable T : Type.
Variable Marshal : T -> list byte + json.error.
Variable Unmarshal : list byte -> T -> T * option json.error.

Record t : Type := mk { Data : T; Valid : bool }.

Definition Value (p : t) : outcome (value * option error) :=
  if negb (Valid p) then Return (VNil, None)
  else match Marshal (Data p) with
       | inr err => Return (VNil, Some (JSONError err))
       | inl data => Return (VBytes (freeze data), None)
       end.

(** [Scan] once the type switch has produced [data]. *)
Definition scan_bytes (p : t) (data : list byte) : outcome (t * option error) :=
  let '(d, err) := Unmarshal data (Data p) in
  match err with
  | Some e => Return ({| Data := d; Valid := Valid p |}, Some (JSONError e))
  | None => Return ({| Data := d; Valid := true |}, None)
  end.

Definition Scan (p : t) (v : value) : outcome (t * option error) :=
  match v with
  | VNil => Return (p, None)
  | VString s => scan_bytes p s
  | VBytes b => scan_bytes p (elems b)
  | VOther ty => Return (p, Some (UnsupportedType CJSON ty))
  end.
End WithT.
Arguments Data {T} _.
Arguments Valid {T} _.
Arguments mk {T} _ _.
End JSON.

(** ** StringArray *)

Module StringArray.
(** [type StringArray []string]: [None] is the nil slice, [Some l] a
    slice with the elements [l] ([Some []] is empty and not nil). *)
Definition t : Type := option (list (list byte)).

Definition length_of (p : t) : nat :=
  match p with
  | None => 0%nat
  | Some l => length l
  end.

Section WithJSON.
(** [quote s]: the JSON string literal encoding/json writes for [s].
    [Unmarshal_other data p]: what [json.Unmarshal(data, p)] does on a
    text that is neither [null] nor an array without elements. *)
Variable quote : list byte -> list byte.
Variable Unmarshal_other : list byte -> t -> t * option json.error.

(** [json.Marshal(p)] for a [[]string]: [null] for the nil slice, else
    the bracketed, comma-separated literals. It has no failing case. *)
Definition Marshal (p : t) : list byte + json.error :=
  match p with
  | None => inl json.null_literal
  | Some l => inl ([x5b] ++ json.join [x2c] (map quote l) ++ [x5d])
  end.

(** [json.Unmarshal(data, p)] for a [*[]string]: [null] stores the nil
    slice, an array without elements stores an empty slice. *)
Definition Unmarshal (data : list byte) (p : t) : t * option json.error :=
  if json.is_null data then (None, None)
  else if json.is_empty_array data then (Some [], None)
  else Unmarshal_other data p.

Definition Value (p : t) : outcome (value * option error) :=
  match Marshal p with
  | inr err => Return (VNil, Some (JSONError err))
  | inl data => Return (VBytes (freeze data), None)
  end.

(** [Scan] once the type switch has produced [data]. *)
Definition scan_bytes (p : t) (data : list byte) : outcome (t * option error) :=
  let '(q, err) := Unmarshal data p in
  match err with
  | Some e => Return (q, Some (JSONError e))
  | None => Return (q, None)
  end.

Definition Scan (p : t) (v : value) : outcome (t * option error) :=
  match v with
  | VNil => Return (p, None)
  | VString s => scan_bytes p s
  | VBytes b => scan_bytes p (elems b)
  | VOther ty => Return (p, Some (UnsupportedType CStringArray ty))
  end.
End WithJSON.
End StringArray.

(** ** Vector[T] *)

(** The element types of [VectorElement], for the four predeclared
    types (a named type with one of them as underlying type is not
    modelled). *)
Inductive ElementType : Set := TFloat32 | TFloat64 | TInt32 | TInt64.

Definition elem (T : ElementType) : Type :=
  match T with
  | TFloat32 => float32
  | TFloat64 => float64
  | TInt32 => int32
  | TInt64 => int64
  end.

(** The zero value of [T]. *)
Definition zero (T : ElementType) : elem T :=
  match T with
  | TFloat32 => word.of_Z 0
  | TFloat64 => word.of_Z 0
  | TInt32 => word.of_Z 0
  | TInt64 => word.of_Z 0
  end.

(** An [interface{}] that holds an element, or nothing: the value with
    its dynamic type. *)
Inductive any : Type :=
| ANil
| AFloat32 (x : float32)
| AFloat64 (x : float64)
| AInt32 (x : int32)
| AInt64 (x : int64).

(** [any(x)] for [x] of type [T] *)
Definition to_any (T : ElementType) : elem T -> any :=
  match T with
  | TFloat32 => AFloat32
  | TFloat64 => AFloat64
  | TInt32 => AInt32
  | TInt64 => AInt64
  end.

(** [a.(T)]: the one-result type assertion, which panics on another
    dynamic type. *)
Definition assert (T : ElementType) (a : any) : outcome (elem T) :=
  match T return outcome (elem T) with
  | TFloat32 => match a with AFloat32 x => Return x | _ => Panicked InterfaceConversion end
  | TFloat64 => match a with AFloat64 x => Return x | _ => Panicked InterfaceConversion end
  | TInt32 => match a with AInt32 x => Return x | _ => Panicked InterfaceConversion end
  | TInt64 => match a with AInt64 x => Return x | _ => Panicked InterfaceConversion end
  end.

Module Vector.
Record t (T : ElementType) : Type := mk
  { Data : list (elem T); Dimension : Z; Valid : bool }.
Arguments Data {T} _.
Arguments Dimension {T} _.
Arguments Valid {T} _.
Arguments mk {T} _ _ _.

Definition NewVector {T : ElementType} (data : list (elem T)) : t T :=
  {| Data := data; Dimension := Z.of_nat (length data); Valid := true |}.

Definition Len {T : ElementType} (v : t T) : Z := Dimension v.
Definition IsValid {T : ElementType} (v : t T) : bool := Valid v.

(** The first type switch of [Value]: element size and type byte. *)
Definition size_and_type (a : any) : option (Z * byte) :=
  match a with
  | AFloat32 _ => Some (4, x01)
  | AFloat64 _ => Some (8, x02)
  | AInt32 _ => Some (4, x03)
  | AInt64 _ => Some (8, x04)
  | ANil => None
  end.

(** One round of the loop of [Value]: the switch on [elementType]. *)
Definition put_elem (elementType : byte) (a : any) (offset : Z) (data : buffer)
  : outcome buffer :=
  let tag := byte.unsigned elementType in
  if tag =? 1 then
    f <- assert TFloat32 a ;;
    binary.PutUint32 binary.LittleEndian data offset (offset + 4) (math.Float32bits f)
  else if tag =? 2 then
    f <- assert TFloat64 a ;;
    binary.PutUint64 binary.LittleEndian data offset (offset + 8) (math.Float64bits f)
  else if tag =? 3 then
    i <- assert TInt32 a ;;
    binary.PutUint32 binary.LittleEndian data offset (offset + 4) (word.unsigned i)
  else if tag =? 4 then
    i <- assert TInt64 a ;;
    binary.PutUint64 binary.LittleEndian data offset (offset + 8) (word.unsigned i)
  else Return data.

(** The loop [for _, elem := range v.Data] of [Value]. *)
Fixpoint put_elems {T : ElementType} (elementType : byte) (elementSize : Z)
  (l : list (elem T)) (offset : Z) (data : buffer) : outcome buffer :=
  match l with
  | [] => Return data
  | e :: rest =>
    data <- put_elem elementType (to_any T e) offset data ;;
    put_elems elementType elementSize rest (offset + elementSize) data
  end.

Definition Value {T : ElementType} (v : t T) : outcome (value * option error) :=
  if negb (Valid v) || (Z.of_nat (length (Data v)) =? 0) then Return (VNil, None)
  else
    first <- match Data v with
             | e :: _ => Return e
             | [] => Panicked IndexOutOfRange
             end ;;
    match size_and_type (to_any T first) with
    | None => Return (VNil, Some UnsupportedVectorElementType)
    | Some (elementSize, elementType) =>
      let n := Z.of_nat (length (Data v)) in
      data <- make (1 + 4 + n * elementSize) ;;
      data <- store data 0 elementType ;;
      data <- binary.PutUint32 binary.LittleEndian data 1 5 (uint32_wrap n) ;;
      data <- put_elems elementType elementSize (Data v) 5 data ;;
      Return (VBytes (freeze data), None)
    end.

(** The type byte of a binary vector gives the element size. *)
Definition element_size (elementType : byte) : option Z :=
  let tag := byte.unsigned elementType in
  if (tag =? 1) || (tag =? 3) then Some 4
  else if (tag =? 2) || (tag =? 4) then Some 8
  else None.

(** One round of the loop of [Scan]: the switch on [elementType]. *)
Definition get_elem (elementType : byte) (data : slice) (offset : Z) : outcome any :=
  let tag := byte.unsigned elementType in
  if tag =? 1 then
    d <- reslice data offset (offset + 4) ;;
    bits <- binary.Uint32 binary.LittleEndian d ;;
    Return (AFloat32 (math.Float32frombits bits))
  else if tag =? 2 then
    d <- reslice data offset (offset + 8) ;;
    bits <- binary.Uint64 binary.LittleEndian d ;;
    Return (AFloat64 (math.Float64frombits bits))
  else if tag =? 3 then
    d <- reslice data offset (offset + 4) ;;
    bits <- binary.Uint32 binary.LittleEndian d ;;
    Return (AInt32 (word.of_Z bits))
  else if tag =? 4 then
    d <- reslice data offset (offset + 8) ;;
    bits <- binary.Uint64 binary.LittleEndian d ;;
    Return (AInt64 (word.of_Z bits))
  else Return ANil.

(** [elements[i] = x] *)
Definition set_elem {T : ElementType} (elements : list (elem T)) (i : Z) (x : elem T)
  : outcome (list (elem T)) :=
  if (0 <=? i) && (i <? Z.of_nat (length elements))
  then Return (firstn (Z.to_nat i) elements ++ x :: skipn (S (Z.to_nat i)) elements)
  else Panicked IndexOutOfRange.

(** The loop [for i := 0; i < dimension; i++] of [Scan], with [n]
    rounds left. *)
Fixpoint scan_elems {T : ElementType} (n : nat) (i offset : Z) (elementType : byte)
  (elementSize : Z) (data : slice) (elements : list (elem T))
  : outcome (list (elem T)) :=
  match n with
  | O => Return elements
  | S n' =>
    a <- get_elem elementType data offset ;;
    x <- assert T a ;;
    elements <- set_elem elements i x ;;
    scan_elems n' (i + 1) (offset + elementSize) elementType elementSize data elements
  end.

(** The binary part of [Scan]. [dimension] is an [int] made from a
    [uint32], so it is not negative. *)
Definition scan_bytes {T : ElementType} (v : t T) (data : slice)
  : outcome (t T * option error) :=
  if len data <? 5 then Return (v, Some (VectorTooShort (len data)))
  else
    elementType <- index data 0 ;;
    d <- reslice data 1 5 ;;
    dimension <- binary.Uint32 binary.LittleEndian d ;;
    match element_size elementType with
    | None => Return (v, Some (UnknownVectorElementType elementType))
    | Some elementSize =>
      let expectedLen := 5 + dimension * elementSize in
      if len data <? expectedLen
      then Return (v, Some (VectorTooShortForDimension dimension (len data) expectedLen))
      else
        let elements := repeat (zero T) (Z.to_nat dimension) in
        elements <- scan_elems (Z.to_nat dimension) 0 5 elementType elementSize
                      data elements ;;
        Return ({| Data := elements; Dimension := dimension; Valid := true |}, None)
    end.

Section Text.
(** [strconv.ParseFloat(s, bitSize)] and [strconv.ParseInt(s, base,
    bitSize)] give a value and an error; [narrow] is the conversion
    [float32(f)] of a [float64]. *)
Variable ParseFloat : list byte -> Z -> float64 * option strconv.NumError.
Variable ParseInt : list byte -> Z -> Z -> int64 * option strconv.NumError.
Variable narrow : float64 -> float32.

(** One round of the loop of [scanFromString]: the switch on the
    dynamic type of [elements[0]], which gives the value parsed and the
    error of the parser. *)
Definition parse_part (e0 : any) (part : list byte)
  : option (any * option strconv.NumError) :=
  match e0 with
  | AFloat32 _ => let '(f, err) := ParseFloat part 32 in Some (AFloat32 (narrow f), err)
  | AFloat64 _ => let '(f, err) := ParseFloat part 64 in Some (AFloat64 f, err)
  | AInt32 _ =>
    let '(i, err) := ParseInt part 10 32 in Some (AInt32 (word.of_Z (word.unsigned i)), err)
  | AInt64 _ => let '(i, err) := ParseInt part 10 64 in Some (AInt64 i, err)
  | ANil => None
  end.

(** The loop [for i, part := range parts] of [scanFromString]: the
    elements, or the error the function returns. *)
Fixpoint parse_parts {T : ElementType} (parts : list (list byte)) (i : Z)
  (elements : list (elem T)) : outcome (list (elem T) + error) :=
  match parts with
  | [] => Return (inl elements)
  | part :: rest =>
    let part := strings.TrimSpace part in
    e0 <- match elements with
          | e :: _ => Return e
          | [] => Panicked IndexOutOfRange
          end ;;
    match parse_part (to_any T e0) part with
    | None => Return (inr UnsupportedVectorElementType)
    | Some (a, Some err) => Return (inr (VectorElementParseFailure part err))
    | Some (a, None) =>
      x <- assert T a ;;
      elements <- set_elem elements i x ;;
      parse_parts rest (i + 1) elements
    end
  end.

Definition scanFromString {T : ElementType} (v : t T) (s : list byte)
  : outcome (t T * option error) :=
  let s := strings.TrimSpace s in
  if negb (strings.HasPrefix s [x5b]) || negb (strings.HasSuffix s [x5d])
  then Return (v, Some (InvalidVectorString s))
  else
    s <- strings.substr s 1 (Z.of_nat (length s) - 1) ;;
    let s := strings.TrimSpace s in
    match s with
    | [] => Return ({| Data := []; Dimension := 0; Valid := true |}, None)
    | _ :: _ =>
      let parts := strings.Split1 s x2c [] in
      let elements := repeat (zero T) (length parts) in
      r <- parse_parts parts 0 elements ;;
      match r with
      | inr err => Return (v, Some err)
      | inl elements =>
        Return ({| Data := elements; Dimension := Z.of_nat (length elements);
                   Valid := true |}, None)
      end
    end.

Definition Scan {T : ElementType} (v : t T) (x : value) : outcome (t T * option error) :=
  match x with
  | VNil => Return ({| Data := Data v; Dimension := Dimension v; Valid := false |}, None)
  | VString s => scanFromString v s
  | VBytes b => scan_bytes v b
  | VOther ty => Return (v, Some (UnsupportedType CVector ty))
  end.
End Text.

(** [String]: [format] is [fmt.Sprintf("%v", elem)] on an element; the
    loop [parts[i] = fmt.Sprintf("%v", elem)] fills the slice it made
    with one text per element, in order. *)
Definition String {T : ElementType} (format : elem T -> list byte) (v : t T)
  : list byte :=
  if negb (Valid v) then [x4e; x55; x4c; x4c]
  else if Z.of_nat (length (Data v)) =? 0 then [x5b; x5d]
  else
    let parts := map format (Data v) in
    [x5b] ++ strings.Join parts [x2c; x20] ++ [x5d].
End Vector.

(* ===================================================================== *)
(** * Part IV: the vocabulary of the statements *)
(* ===================================================================== *)

(** ** Inputs *)

(** [v] hands the bytes [data] to [Scan], as a string or as a [[]byte]
    of any capacity. *)
Definition carries (v : value) (data : list byte) : Prop :=
  v = VString data \/ exists sp, v = VBytes {| elems := data; spare := sp |}.

(** Stand-ins for the functions of the standard library, for closed
    instances of statements whose inputs never reach them: a number
    scanner and parsers that refuse every text, a narrowing to zero, a
    string conversion without spare capacity, a quoting that only adds
    the quotes, a JSON decoder that refuses every other text. *)
Definition no_float : list byte -> option float64 := fun _ => None.
Definition exact_cap : nat -> nat := fun _ => 0%nat.
Definition no_parse_float : list byte -> Z -> float64 * option strconv.NumError :=
  fun _ _ => (word.of_Z 0, Some strconv.ErrSyntax).
Definition no_parse_int : list byte -> Z -> Z -> int64 * option strconv.NumError :=
  fun _ _ _ => (word.of_Z 0, Some strconv.ErrSyntax).
Definition no_narrow : float64 -> float32 := fun _ => word.of_Z 0.
Definition bare_quote : list byte -> list byte := fun s => [x22] ++ s ++ [x22].
Definition no_unmarshal : list byte -> StringArray.t -> StringArray.t * option json.error :=
  fun _ p => (p, Some json.SyntaxError).

(** ** Doubles *)

(** [f] is the pattern of a normal binary64 number that lies within
    half a unit in the last place of the fraction [num / den]: the
    double a decimal literal of that value denotes. *)
Definition is_literal64 (f : float64) (num den : Z) : bool :=
  let sign := Z.shiftr (word.unsigned f) 63 in
  let e := math.exponent64 f in
  let m := 2 ^ 52 + math.fraction64 f in
  let k := 1075 - e in
  (0 <? den) && (0 <? e) && (e <? 0x7FF) && (0 <? k) &&
  Bool.eqb (sign =? 1) (num <? 0) &&
  (2 * Z.abs (m * den - Z.abs num * 2 ^ k) <? den).

(** ** Point *)

(** The byte-order indicator of a WKB header. *)
Definition order_flag (o : binary.ByteOrder) : byte :=
  match o with
  | binary.BigEndian => x00
  | binary.LittleEndian => x01
  end.

(** The first byte sends [Point.Scan] to its text parser. *)
Definition is_P (b : byte) : bool :=
  (byte.unsigned b =? 0x50) || (byte.unsigned b =? 0x70).

(** The 25 bytes [Point.Value] writes. *)
Definition point_wkb (p : Point) : list byte :=
  [x00; x00; x00; x00] ++ x01 :: binary.split binary.LittleEndian 4 WKBTypePoint
    ++ binary.split binary.LittleEndian 8 (math.Float64bits (X p))
    ++ binary.split binary.LittleEndian 8 (math.Float64bits (Y p)).

(** Point{X: -73.9654, Y: 40.7829}, by the binary64 patterns of the two
    literals. *)
Definition central_park : Point :=
  {| X := word.of_Z 0xC0527DC91D14E3BD; Y := word.of_Z 0x40446436113404EA |}.

(** A point whose X is the quiet NaN of [math.NaN()]. *)
Definition nan_point : Point :=
  {| X := word.of_Z 0x7FF8000000000001; Y := word.of_Z 0 |}.

(** The scanner stands at the end of its input or before a blank. *)
Definition at_blank_or_end (s : fmt.ss) : Prop :=
  match fmt.getRune s with
  | None => True
  | Some (r, _) => unicode.IsSpace r = true
  end.

(** The text [point(1 2)]. *)
Definition lowercase_point_text : list byte :=
  [x70; x6f; x69; x6e; x74; x28; x31; x20; x32; x29].

(** ** LineString *)

(** The 16 bytes of a point in a path, and the bytes [LineString.Value]
    writes for the points [l]. *)
Definition point_bytes (p : Point) : list byte :=
  binary.split binary.LittleEndian 8 (math.Float64bits (X p))
    ++ binary.split binary.LittleEndian 8 (math.Float64bits (Y p)).

Definition path_wkb (l : list Point) : list byte :=
  ([x00; x00; x00; x00; x01] ++ binary.split binary.LittleEndian 4 WKBTypeLineString
     ++ binary.split binary.LittleEndian 4 (uint32_wrap (Z.of_nat (length l))))
    ++ flat_map point_bytes l.

(** The Path of the three points (-73.9654, 40.7829), (-73.9632, 40.7845),
    (-73.9610, 40.7861), by the binary64 patterns of the literals. *)
Definition path3 : LineString :=
  {| Points :=
       [ {| X := word.of_Z 0xC0527DC91D14E3BD; Y := word.of_Z 0x40446436113404EA |};
         {| X := word.of_Z 0xC0527DA5119CE076; Y := word.of_Z 0x4044646A7EF9DB23 |};
         {| X := word.of_Z 0xC0527D810624DD2F; Y := word.of_Z 0x4044649EECBFB15B |} ] |}.

(** The Path without points, and the 13 bytes [LineString.Value] writes
    for it. *)
Definition empty_path : LineString := {| Points := [] |}.
Definition empty_path_wkb : list byte :=
  [x00; x00; x00; x00; x01; x02; x00; x00; x00; x00; x00; x00; x00].

(** A LineString buffer of 29 bytes that announces two points and
    carries one. *)
Definition two_points_announced : list byte :=
  [x00; x00; x00; x00; x01; x02; x00; x00; x00; x02; x00; x00; x00] ++ repeat x00 16.

(** ** Vector *)

(** The type byte, the element size and the element bytes of the binary
    vector format, by element type. *)
Definition tag_of (T : ElementType) : byte :=
  match T with
  | TFloat32 => x01
  | TFloat64 => x02
  | TInt32 => x03
  | TInt64 => x04
  end.

Definition size_of (T : ElementType) : nat :=
  match T with
  | TFloat32 | TInt32 => 4%nat
  | TFloat64 | TInt64 => 8%nat
  end.

Definition enc (T : ElementType) : elem T -> list byte :=
  match T with
  | TFloat32 => fun e => binary.split binary.LittleEndian 4 (math.Float32bits e)
  | TFloat64 => fun e => binary.split binary.LittleEndian 8 (math.Float64bits e)
  | TInt32 => fun e => binary.split binary.LittleEndian 4 (word.unsigned e)
  | TInt64 => fun e => binary.split binary.LittleEndian 8 (word.unsigned e)
  end.

(** The bytes [Vector.Value] writes for the elements [l]: type byte,
    dimension modulo [2^32], elements. *)
Definition vector_wire (T : ElementType) (l : list (elem T)) : list byte :=
  tag_of T :: binary.split binary.LittleEndian 4 (uint32_wrap (Z.of_nat (length l)))
    ++ flat_map (enc T) l.

(** A vector as the data model wants it: valid, with data, and with the
    dimension of its data. *)
Definition well_formed {T : ElementType} (v : Vector.t T) : Prop :=
  Vector.Valid v = true /\ Vector.Data v <> [] /\
  Vector.Dimension v = Z.of_nat (length (Vector.Data v)).

(** The vector [int32{1, -2, 3}]. *)
Definition small_vector : Vector.t TInt32 :=
  Vector.NewVector (T := TInt32) [word.of_Z 1; word.of_Z (-2); word.of_Z 3].

(** The vector of [n] elements, all zero, and the one of [2^32]
    elements. *)
Definition zeros (n : nat) : Vector.t TFloat32 :=
  Vector.NewVector (T := TFloat32) (repeat (zero TFloat32) n).
Definition huge_vector : Vector.t TFloat32 := zeros (Z.to_nat (2 ^ 32)).

(** A binary vector of one float32 (type byte 1, dimension 1, 1.0), and
    a binary vector of dimension 0 (type byte 2). *)
Definition float32_vector_wire : list byte :=
  [x01; x01; x00; x00; x00; x00; x00; x80; x3f].
Definition empty_float64_wire : list byte := [x02; x00; x00; x00; x00].

(** The text [[]]. *)
Definition brackets : list byte := [x5b; x5d].

(** ** The binary decoders as functions of the bytes *)

(** The bytes of [data] from [lo] up to [hi]. *)
Definition window (data : list byte) (lo hi : nat) : list byte :=
  firstn (hi - lo) (skipn lo data).

(** The byte order a WKB flag byte selects. *)
Definition order_of_flag (flag : byte) : option binary.ByteOrder :=
  if byte.unsigned flag =? 0 then Some binary.BigEndian
  else if byte.unsigned flag =? 1 then Some binary.LittleEndian
  else None.

(** What [Point.Scan] makes of a binary input of at least 25 bytes, by
    the flag byte, the geometry type and the two doubles; [p] is the
    receiver before the call. *)
Definition wkb_point (p : Point) (data : list byte) : Point * option error :=
  match order_of_flag (nth 4 data x00) with
  | None => (p, Some (InvalidByteOrder (nth 0 data x00)))
  | Some o =>
    let geometryType := binary.combine o (window data 5 9) in
    if geometryType =? WKBTypePoint
    then ({| X := math.Float64frombits (binary.combine o (window data 9 17));
             Y := math.Float64frombits (binary.combine o (window data 17 25)) |}, None)
    else (p, Some (WrongGeometryType 1 geometryType))
  end.

(** The point whose 16 bytes begin at [off] in [bs], in the byte order
    [o]; and the [n] points that follow the 13 bytes of a LineString
    header in [bs]. *)
Definition point_at (o : binary.ByteOrder) (bs : list byte) (off : nat) : Point :=
  {| X := math.Float64frombits (binary.combine o (window bs off (off + 8)));
     Y := math.Float64frombits (binary.combine o (window bs (off + 8) (off + 16))) |}.

Definition points_at (o : binary.ByteOrder) (bs : list byte) (n : nat) : list Point :=
  map (fun i => point_at o bs (13 + 16 * i)) (seq 0 n).

(** A LineString buffer whose slice is 29 bytes long and announces two
    points; the second one lies in the capacity of the slice. *)
Definition two_points_in_capacity : slice :=
  {| elems := two_points_announced;
     spare := binary.split binary.LittleEndian 8 (math.Float64bits (X central_park))
              ++ binary.split binary.LittleEndian 8 (math.Float64bits (Y central_park)) |}.

(** The element of type [T] that 4 or 8 bytes of a binary vector
    denote. *)
Definition dec (T : ElementType) : list byte -> elem T :=
  match T with
  | TFloat32 => fun bs => math.Float32frombits (binary.combine binary.LittleEndian bs)
  | TFloat64 => fun bs => math.Float64frombits (binary.combine binary.LittleEndian bs)
  | TInt32 => fun bs => word.of_Z (binary.combine binary.LittleEndian bs)
  | TInt64 => fun bs => word.of_Z (binary.combine binary.LittleEndian bs)
  end.

(** The [n] elements of type [T] that follow the 5 bytes of a vector
    header in [bs]. *)
Definition elements_at (T : ElementType) (bs : list byte) (n : nat) : list (elem T) :=
  map (fun k => dec T (window bs (5 + size_of T * k) (5 + size_of T * k + size_of T)))
      (seq 0 n).

(** A binary vector of two int64 (type byte 4, dimension 2, the
    numbers 1 and 2), and one that announces three float64 and holds
    one. *)
Definition int64_vector_wire : list byte :=
  [x04; x02; x00; x00; x00] ++ [x01; x00; x00; x00; x00; x00; x00; x00]
    ++ [x02; x00; x00; x00; x00; x00; x00; x00].
Definition short_float64_wire : list byte :=
  [x02; x03; x00; x00; x00] ++ repeat x00 8.

(** The vector [int64{1, 2}]. *)
Definition one_two : Vector.t TInt64 :=
  Vector.NewVector (T := TInt64) [word.of_Z 1; word.of_Z 2].

(** ** The text of a vector *)

(** What [scanFromString] makes of one trimmed part, by the element
    type: the value parsed and the error of the parser. *)
Definition parse_elem (ParseFloat : list byte -> Z -> float64 * option strconv.NumError)
  (ParseInt : list byte -> Z -> Z -> int64 * option strconv.NumError)
  (narrow : float64 -> float32) (T : ElementType) (part : list byte)
  : elem T * option strconv.NumError :=
  match T return elem T * option strconv.NumError with
  | TFloat32 => let '(f, err) := ParseFloat part 32 in (narrow f, err)
  | TFloat64 => ParseFloat part 64
  | TInt32 => let '(i, err) := ParseInt part 10 32 in (word.of_Z (word.unsigned i), err)
  | TInt64 => ParseInt part 10 64
  end.

(** The value and the error of a part of the text, blanks around it
    dropped. *)
Definition part_value (ParseFloat : list byte -> Z -> float64 * option strconv.NumError)
  (ParseInt : list byte -> Z -> Z -> int64 * option strconv.NumError)
  (narrow : float64 -> float32) (T : ElementType) (part : list byte) : elem T :=
  fst (parse_elem ParseFloat ParseInt narrow T (strings.TrimSpace part)).

Definition part_error (ParseFloat : list byte -> Z -> float64 * option strconv.NumError)
  (ParseInt : list byte -> Z -> Z -> int64 * option strconv.NumError)
  (narrow : float64 -> float32) (T : ElementType) (part : list byte)
  : option strconv.NumError :=
  snd (parse_elem ParseFloat ParseInt narrow T (strings.TrimSpace part)).

(** A stand-in for [strconv.ParseInt] that reads the numbers of one
    decimal digit and refuses every other text. *)
Definition one_digit_int : list byte -> Z -> Z -> int64 * option strconv.NumError :=
  fun s _ _ =>
    match s with
    | [c] =>
      if (0x30 <=? byte.unsigned c) && (byte.unsigned c <=? 0x39)
      then (word.of_Z (byte.unsigned c - 0x30), None)
      else (word.of_Z 0, Some strconv.ErrSyntax)
    | _ => (word.of_Z 0, Some strconv.ErrSyntax)
    end.

(** The texts [[1, 2]] and [[1, x]]. *)
Definition text_1_2 : list byte := [x5b; x31; x2c; x20; x32; x5d].
Definition text_1_x : list byte := [x5b; x31; x2c; x20; x78; x5d].

(** A byte of a number as [%v] prints it: ASCII, neither a blank nor a
    comma; and a text made of such bytes, at least one. *)
Definition plain_byte (b : byte) : bool :=
  (byte.unsigned b <? 0x80) && negb (unicode.IsSpace (byte.unsigned b))
  && negb (byte.unsigned b =? 0x2c).

Definition plain_text (t : list byte) : bool :=
  match t with
  | [] => false
  | _ :: _ => forallb plain_byte t
  end.

(** A stand-in for [fmt.Sprintf("%v", e)] on an [int64] that prints the
    numbers of one decimal digit. *)
Definition one_digit_format : elem TInt64 -> list byte :=
  fun e => [byte.of_Z (0x30 + word.unsigned (e : int64))].

(** The text [NULL]. *)
Definition null_text : list byte := [x4e; x55; x4c; x4c].

(** ** JSON *)


(** ** The text of a point *)

(** The parts of a decimal number: an optional sign; digits, at least
    one; and nothing, or a period and digits. *)
Definition is_digit (b : byte) : bool :=
  (0x30 <=? byte.unsigned b) && (byte.unsigned b <=? 0x39).

Definition sign_part (s : list byte) : bool :=
  match s with
  | [] => true
  | [b] => (byte.unsigned b =? 0x2b) || (byte.unsigned b =? 0x2d)
  | _ => false
  end.

Definition integer_part (s : list byte) : bool :=
  match s with
  | [] => false
  | _ :: _ => forallb is_digit s
  end.

Definition fraction_part (s : list byte) : bool :=
  match s with
  | [] => true
  | b :: ds => (byte.unsigned b =? 0x2e) && forallb is_digit ds
  end.

Definition decimal (sgn int frac : list byte) : bool :=
  sign_part sgn && integer_part int && fraction_part frac.

(** The text [POINT(tx ty)]. *)
Definition point_text (tx ty : list byte) : list byte :=
  [x50; x4f; x49; x4e; x54; x28] ++ tx ++ [x20] ++ ty ++ [x29].

(** A stand-in for the number conversion of [fmt] that reads the
    numbers of one decimal digit, as the double of that value, and
    refuses every other token. *)
Definition one_digit_float : list byte -> option float64 :=
  fun tok =>
    match tok with
    | [c] =>
      if is_digit c
      then Some (nth (Z.to_nat (byte.unsigned c - 0x30))
                   (map (fun bits => word.of_Z bits : float64)
                      [0x0000000000000000; 0x3FF0000000000000; 0x4000000000000000;
                       0x4008000000000000; 0x4010000000000000; 0x4014000000000000;
                       0x4018000000000000; 0x401C000000000000; 0x4020000000000000;
                       0x4022000000000000])
                   (word.of_Z 0))
      else None
    | _ => None
    end.

(** The text [POINT(], and the binary encoding of a point with the
    SRID 80, whose first byte is the letter [P]. *)
Definition POINT_paren : list byte := [x50; x4f; x49; x4e; x54; x28].
Definition srid_80_point : list byte :=
  [x50; x00; x00; x00] ++ x01 :: binary.split binary.LittleEndian 4 WKBTypePoint
    ++ binary.split binary.LittleEndian 8 (math.Float64bits (X central_park))
    ++ binary.split binary.LittleEndian 8 (math.Float64bits (Y central_park)).

(* ===================================================================== *)
(** * Part V: lemmas on the run time *)
(* ===================================================================== *)

(** ** Lists *)

Section ListWindows.
Context {A : Type}.

Lemma firstn_app_exact (a b : list A) : firstn (length a) (a ++ b) = a.
Proof.
  induction a as [|x a IH]; simpl; [reflexivity | now rewrite IH].
Qed.

Lemma skipn_app_exact (a b : list A) : skipn (length a) (a ++ b) = b.
Proof. induction a as [|x a IH]; simpl; auto. Qed.

Lemma window_app (a b c : list A) :
  firstn (length b) (skipn (length a) (a ++ b ++ c)) = b.
Proof. now rewrite skipn_app_exact, firstn_app_exact. Qed.

Lemma skipn_app_two (a b c : list A) :
  skipn (length a + length b) (a ++ b ++ c) = c.
Proof.
  rewrite <- length_app, app_assoc. apply skipn_app_exact.
Qed.
End ListWindows.

(** ** Buffers and slices *)

Lemma blit_app (a old c new : list byte) :
  length old = length new ->
  blit (a ++ old ++ c) (Z.of_nat (length a)) new = a ++ new ++ c.
Proof.
  intros Hlen. unfold blit.
  rewrite Nat2Z.id, firstn_app_exact, <- Hlen, skipn_app_two. reflexivity.
Qed.

Lemma store_app (a c : list byte) (old b : byte) :
  store (a ++ old :: c) (Z.of_nat (length a)) b = Return (a ++ b :: c).
Proof.
  unfold store.
  replace ((0 <=? Z.of_nat (length a)) &&
           (Z.of_nat (length a) <? Z.of_nat (length (a ++ old :: c)))) with true.
  - f_equal. apply (blit_app a [old] c [b]). reflexivity.
  - symmetry. rewrite length_app. simpl. apply andb_true_iff. split.
    + apply Z.leb_le. lia.
    + apply Z.ltb_lt. lia.
Qed.

Lemma make_repeat (n : nat) : make (Z.of_nat n) = Return (repeat x00 n).
Proof.
  unfold make.
  replace (Z.of_nat n <? 0) with false by (symmetry; apply Z.ltb_ge; lia).
  now rewrite Nat2Z.id.
Qed.

Lemma index_within (s : slice) (i : nat) :
  (i < length (elems s))%nat ->
  index s (Z.of_nat i) = Return (nth i (elems s) x00).
Proof.
  intros H. unfold index, len.
  replace ((0 <=? Z.of_nat i) && (Z.of_nat i <? Z.of_nat (length (elems s)))) with true.
  - now rewrite Nat2Z.id.
  - symmetry. apply andb_true_iff. split; [apply Z.leb_le | apply Z.ltb_lt]; lia.
Qed.

Lemma cap_backing (s : slice) : cap s = Z.of_nat (length (backing s)).
Proof. unfold cap, backing. now rewrite length_app. Qed.

Lemma len_le_cap (s : slice) : len s <= cap s.
Proof. unfold len, cap. lia. Qed.

Lemma reslice_app (a b c sp : list byte) :
  reslice {| elems := a ++ b ++ c; spare := sp |} (Z.of_nat (length a))
    (Z.of_nat (length a) + Z.of_nat (length b))
  = Return {| elems := b; spare := c ++ sp |}.
Proof.
  unfold reslice, cap, backing. simpl elems. simpl spare.
  replace ((0 <=? Z.of_nat (length a)) &&
           (Z.of_nat (length a) <=? Z.of_nat (length a) + Z.of_nat (length b)) &&
           (Z.of_nat (length a) + Z.of_nat (length b)
            <=? Z.of_nat (length (a ++ b ++ c) + length sp))) with true.
  - f_equal.
    replace (Z.of_nat (length a) + Z.of_nat (length b) - Z.of_nat (length a))
      with (Z.of_nat (length b)) by lia.
    rewrite <- Nat2Z.inj_add, !Nat2Z.id.
    rewrite <- !app_assoc. rewrite window_app.
    f_equal. apply (skipn_app_two a b (c ++ sp)).
  - symmetry. rewrite !length_app. rewrite !andb_true_iff.
    repeat split; apply Z.leb_le; lia.
Qed.

Lemma reslice_within (s : slice) (lo hi : Z) :
  0 <= lo -> lo <= hi -> hi <= len s ->
  reslice s lo hi
  = Return {| elems := firstn (Z.to_nat (hi - lo)) (skipn (Z.to_nat lo) (elems s));
              spare := skipn (Z.to_nat hi) (elems s) ++ spare s |}.
Proof.
  intros H0 H1 H2. unfold reslice, cap, backing. unfold len in H2.
  replace ((0 <=? lo) && (lo <=? hi) &&
           (hi <=? Z.of_nat (length (elems s) + length (spare s)))) with true
    by (symmetry; rewrite !andb_true_iff; repeat split; apply Z.leb_le; lia).
  f_equal. f_equal.
  - rewrite skipn_app, firstn_app, length_skipn.
    replace (Z.to_nat (hi - lo) - (length (elems s) - Z.to_nat lo))%nat with 0%nat by lia.
    rewrite firstn_O. apply app_nil_r.
  - rewrite skipn_app.
    replace (Z.to_nat hi - length (elems s))%nat with 0%nat by lia.
    reflexivity.
Qed.

(** Re-slicing by the backing array: the window may reach into the
    spare capacity. *)
Lemma reslice_backing (s : slice) (a b c : list byte) :
  backing s = a ++ b ++ c ->
  reslice s (Z.of_nat (length a)) (Z.of_nat (length a) + Z.of_nat (length b))
  = Return {| elems := b; spare := c |}.
Proof.
  intros H. unfold reslice, cap. rewrite <- length_app. fold (backing s). rewrite H.
  replace ((0 <=? Z.of_nat (length a)) &&
           (Z.of_nat (length a) <=? Z.of_nat (length a) + Z.of_nat (length b)) &&
           (Z.of_nat (length a) + Z.of_nat (length b)
            <=? Z.of_nat (length (a ++ b ++ c)))) with true.
  - f_equal.
    replace (Z.of_nat (length a) + Z.of_nat (length b) - Z.of_nat (length a))
      with (Z.of_nat (length b)) by lia.
    rewrite <- Nat2Z.inj_add, !Nat2Z.id, window_app.
    f_equal. apply skipn_app_two.
  - symmetry. rewrite !length_app. rewrite !andb_true_iff.
    repeat split; apply Z.leb_le; lia.
Qed.

Lemma reslice_ok (s : slice) (lo hi : Z) :
  0 <= lo -> lo <= hi -> hi <= cap s ->
  exists d, reslice s lo hi = Return d /\ len d = hi - lo /\ cap d = cap s - lo.
Proof.
  intros H0 H1 H2. unfold reslice.
  replace ((0 <=? lo) && (lo <=? hi) && (hi <=? cap s)) with true
    by (symmetry; rewrite !andb_true_iff; repeat split; apply Z.leb_le; lia).
  eexists. split; [reflexivity |].
  rewrite cap_backing in H2. split.
  - unfold len. cbn [elems]. rewrite length_firstn, length_skipn. lia.
  - rewrite (cap_backing s). unfold cap. cbn [elems spare].
    rewrite length_firstn, !length_skipn. lia.
Qed.

Lemma reslice_beyond_cap (s : slice) (lo hi : Z) :
  cap s < hi -> reslice s lo hi = Panicked SliceBoundsOutOfRange.
Proof.
  intros H. unfold reslice.
  replace (hi <=? cap s) with false by (symmetry; apply Z.leb_gt; exact H).
  now rewrite andb_false_r.
Qed.

(** ** encoding/binary *)

Lemma split_length (o : binary.ByteOrder) (n : nat) (v : Z) :
  length (binary.split o n v) = n.
Proof.
  destruct o; simpl; [|rewrite length_rev]; apply length_le_split.
Qed.

Lemma combine_split (o : binary.ByteOrder) (n : nat) (v : Z) :
  binary.combine o (binary.split o n v) = v mod 2 ^ (Z.of_nat n * 8).
Proof.
  destruct o; simpl; [|rewrite rev_involutive]; apply le_combine_split.
Qed.

Lemma PutUint_app (n : nat) (o : binary.ByteOrder) (a old c : list byte) (v : Z) :
  length old = n ->
  binary.PutUint n o (a ++ old ++ c) (Z.of_nat (length a))
    (Z.of_nat (length a) + Z.of_nat n) v
  = Return (a ++ binary.split o n v ++ c).
Proof.
  intros Hlen. unfold binary.PutUint.
  replace ((0 <=? Z.of_nat (length a)) &&
           (Z.of_nat (length a) <=? Z.of_nat (length a) + Z.of_nat n) &&
           (Z.of_nat (length a) + Z.of_nat n <=? Z.of_nat (length (a ++ old ++ c))))
    with true.
  - simpl negb. cbv iota.
    replace (Z.of_nat (length a) + Z.of_nat n - Z.of_nat (length a) <? Z.of_nat n)
      with false by (symmetry; apply Z.ltb_ge; lia).
    rewrite blit_app; [reflexivity | now rewrite split_length].
  - symmetry. rewrite !length_app, Hlen. rewrite !andb_true_iff.
    repeat split; apply Z.leb_le; lia.
Qed.

Lemma Uint32_split (o : binary.ByteOrder) (v : Z) (sp : list byte) :
  binary.Uint32 o {| elems := binary.split o 4 v; spare := sp |}
  = Return (v mod 2 ^ 32).
Proof.
  unfold binary.Uint32, index, len. cbn [elems].
  rewrite split_length. cbn [Z.of_nat Pos.of_succ_nat Pos.succ Z.leb Z.ltb Z.compare
    Pos.compare Pos.compare_cont andb bind].
  rewrite firstn_all2 by (rewrite split_length; lia).
  now rewrite combine_split.
Qed.

Lemma Uint64_split (o : binary.ByteOrder) (v : Z) (sp : list byte) :
  binary.Uint64 o {| elems := binary.split o 8 v; spare := sp |}
  = Return (v mod 2 ^ 64).
Proof.
  unfold binary.Uint64, index, len. cbn [elems].
  rewrite split_length. cbn [Z.of_nat Pos.of_succ_nat Pos.succ Z.leb Z.ltb Z.compare
    Pos.compare Pos.compare_cont andb bind].
  rewrite firstn_all2 by (rewrite split_length; lia).
  now rewrite combine_split.
Qed.

Lemma Uint32_bytes (o : binary.ByteOrder) (bs sp : list byte) :
  length bs = 4%nat ->
  binary.Uint32 o {| elems := bs; spare := sp |} = Return (binary.combine o bs).
Proof.
  intros H. unfold binary.Uint32, index, len. cbn [elems]. rewrite H.
  cbn [Z.of_nat Pos.of_succ_nat Pos.succ Z.leb Z.ltb Z.compare
    Pos.compare Pos.compare_cont andb bind].
  now rewrite firstn_all2 by lia.
Qed.

Lemma Uint64_bytes (o : binary.ByteOrder) (bs sp : list byte) :
  length bs = 8%nat ->
  binary.Uint64 o {| elems := bs; spare := sp |} = Return (binary.combine o bs).
Proof.
  intros H. unfold binary.Uint64, index, len. cbn [elems]. rewrite H.
  cbn [Z.of_nat Pos.of_succ_nat Pos.succ Z.leb Z.ltb Z.compare
    Pos.compare Pos.compare_cont andb bind].
  now rewrite firstn_all2 by lia.
Qed.

Lemma Uint64_ok (o : binary.ByteOrder) (d : slice) :
  len d = 8 -> exists z, binary.Uint64 o d = Return z.
Proof.
  intros H. unfold binary.Uint64, index. rewrite H. eexists. reflexivity.
Qed.

(** ** Machine numbers *)

Lemma Float64_bits_roundtrip (f : float64) :
  math.Float64frombits (math.Float64bits f mod 2 ^ (Z.of_nat 8 * 8)) = f.
Proof.
  unfold math.Float64frombits, math.Float64bits.
  pose proof (word.unsigned_range f) as R.
  change (Z.of_nat 8 * 8) with 64.
  rewrite Z.mod_small by exact R. apply word.of_Z_unsigned.
Qed.

Lemma Float32_bits_roundtrip (f : float32) :
  math.Float32frombits (math.Float32bits f mod 2 ^ 32) = f.
Proof.
  unfold math.Float32frombits, math.Float32bits.
  pose proof (word.unsigned_range f) as R.
  rewrite Z.mod_small by exact R. apply word.of_Z_unsigned.
Qed.

Lemma float64_eqb_refl (f : float64) :
  math.IsNaN f = false -> math.float64_eqb f f = true.
Proof.
  intros H. unfold math.float64_eqb. rewrite H, Z.eqb_refl. reflexivity.
Qed.

(** ** decodePoint *)

Lemma decodePoint_bytes (o : binary.ByteOrder) (xs ys rest sp : list byte) :
  length xs = 8%nat -> length ys = 8%nat ->
  decodePoint o {| elems := xs ++ ys ++ rest; spare := sp |}
  = Return {| X := math.Float64frombits (binary.combine o xs);
              Y := math.Float64frombits (binary.combine o ys) |}.
Proof.
  intros Hx Hy. unfold decodePoint.
  pose proof (reslice_app [] xs (ys ++ rest) sp) as R1.
  cbn [app length Z.of_nat Z.add] in R1. rewrite Hx in R1.
  change (Z.of_nat 8) with 8 in R1. rewrite R1. cbn [bind].
  rewrite Uint64_bytes by assumption. cbn [bind].
  pose proof (reslice_app xs ys rest sp) as R2.
  rewrite Hx, Hy in R2. change (Z.of_nat 8 + Z.of_nat 8) with 16 in R2.
  change (Z.of_nat 8) with 8 in R2. rewrite R2. cbn [bind].
  rewrite Uint64_bytes by assumption. reflexivity.
Qed.

(** [decodePoint] reads 16 bytes of the backing array of its operand,
    whatever the length of the operand. *)
Lemma decodePoint_backing (o : binary.ByteOrder) (d : slice) (xs ys rest : list byte) :
  backing d = xs ++ ys ++ rest -> length xs = 8%nat -> length ys = 8%nat ->
  decodePoint o d
  = Return {| X := math.Float64frombits (binary.combine o xs);
              Y := math.Float64frombits (binary.combine o ys) |}.
Proof.
  intros H Hx Hy. unfold decodePoint.
  pose proof (reslice_backing d [] xs (ys ++ rest) H) as R1.
  rewrite Hx in R1. rewrite (R1 : reslice d 0 8 = _). cbn [bind].
  rewrite Uint64_bytes by assumption. cbn [bind].
  pose proof (reslice_backing d xs ys rest H) as R2.
  rewrite Hx, Hy in R2. rewrite (R2 : reslice d 8 16 = _). cbn [bind].
  rewrite Uint64_bytes by assumption. reflexivity.
Qed.

(** [decodePoint] on a slice of 8 bytes: it needs 16 bytes of
    capacity. *)
Lemma decodePoint_by_capacity (o : binary.ByteOrder) (d : slice) :
  len d = 8 ->
  (cap d < 16 -> decodePoint o d = Panicked SliceBoundsOutOfRange) /\
  (16 <= cap d -> exists q, decodePoint o d = Return q).
Proof.
  intros Hlen. pose proof (len_le_cap d) as Hc. unfold decodePoint.
  destruct (reslice_ok d 0 8) as (dx & Rx & Lx & _); try lia.
  destruct (Uint64_ok o dx) as [x Ux]; [lia |].
  rewrite Rx. cbn [bind]. rewrite Ux. cbn [bind]. split; intros H.
  - now rewrite reslice_beyond_cap by exact H.
  - destruct (reslice_ok d 8 16) as (dy & Ry & Ly & _); try lia.
    destruct (Uint64_ok o dy) as [y Uy]; [lia |].
    rewrite Ry. cbn [bind]. rewrite Uy. cbn [bind]. eexists. reflexivity.
Qed.


(* ===================================================================== *)
(** * Part VI: the codecs *)
(* ===================================================================== *)

(** ** Point: the binary form *)

Lemma byte_order_of_flag (o : binary.ByteOrder) (srid rest sp : list byte) :
  length srid = 4%nat ->
  byte_order_of {| elems := srid ++ order_flag o :: rest; spare := sp |}
  = Return (inl o).
Proof.
  intros H. unfold byte_order_of.
  rewrite (index_within _ 4) by (cbn [elems]; rewrite length_app, H; simpl; lia).
  cbn [elems bind]. rewrite app_nth2 by lia. rewrite H. cbn [Nat.sub nth].
  destruct o; reflexivity.
Qed.

Section PointBinary.
Variable convertFloat : list byte -> option float64.

(** A WKB point of either byte order decodes to the two doubles it
    carries, whatever its SRID bytes, as long as the first of them is
    not the letter P. *)
Lemma Point_scan_bytes_wkb (p : Point) (o : binary.ByteOrder)
  (srid xs ys rest sp : list byte) :
  length srid = 4%nat -> is_P (nth 0 srid x00) = false ->
  length xs = 8%nat -> length ys = 8%nat ->
  Point.scan_bytes convertFloat p
    {| elems := srid ++ order_flag o :: binary.split o 4 WKBTypePoint ++ xs ++ ys ++ rest;
       spare := sp |}
  = Return ({| X := math.Float64frombits (binary.combine o xs);
               Y := math.Float64frombits (binary.combine o ys) |}, None).
Proof.
  intros Hs HP Hx Hy. unfold Point.scan_bytes.
  set (data := {| elems := _; spare := sp |}).
  assert (Hlen : len data = 25 + Z.of_nat (length rest)).
  { unfold len, data. cbn [elems]. rewrite length_app. cbn [length].
    rewrite !length_app, split_length, Hs, Hx, Hy. lia. }
  rewrite Hlen.
  replace (5 <? 25 + Z.of_nat (length rest)) with true by (symmetry; apply Z.ltb_lt; lia).
  change (index data 0) with (index data (Z.of_nat 0)).
  rewrite (index_within data 0) by (unfold len in Hlen; lia).
  cbn [bind].
  assert (H0 : nth 0 (elems data) x00 = nth 0 srid x00)
    by (unfold data; cbn [elems]; apply app_nth1; lia).
  rewrite H0. unfold is_P in HP. rewrite HP.
  replace (25 + Z.of_nat (length rest) <? 25) with false by (symmetry; apply Z.ltb_ge; lia).
  unfold data. rewrite byte_order_of_flag by assumption. cbn [bind].
  pose proof (reslice_app (srid ++ [order_flag o]) (binary.split o 4 WKBTypePoint)
                (xs ++ ys ++ rest) sp) as R1.
  rewrite <- app_assoc in R1. cbn [app] in R1.
  rewrite length_app, split_length, Hs in R1. cbn [length Nat.add] in R1.
  change (Z.of_nat 5) with 5 in R1. change (5 + Z.of_nat 4) with 9 in R1.
  rewrite R1. cbn [bind].
  rewrite Uint32_split. change (WKBTypePoint mod 2 ^ 32) with WKBTypePoint.
  cbn [Z.eqb WKBTypePoint Pos.eqb negb].
  pose proof (reslice_app (srid ++ order_flag o :: binary.split o 4 WKBTypePoint)
                (xs ++ ys) rest sp) as R2.
  rewrite <- !app_assoc in R2. cbn [app] in R2.
  rewrite !length_app in R2. cbn [length] in R2.
  rewrite split_length, Hs, Hx, Hy in R2. cbn [Nat.add] in R2.
  change (Z.of_nat 9) with 9 in R2. change (9 + Z.of_nat 16) with 25 in R2.
  rewrite R2. cbn [bind].
  pose proof (decodePoint_bytes o xs ys [] (rest ++ sp) Hx Hy) as D.
  rewrite app_nil_r in D. rewrite D. reflexivity.
Qed.
End PointBinary.


Lemma Point_Value_bytes (p : Point) :
  Point.Value p = Return (VBytes (freeze (point_wkb p)), None).
Proof.
  unfold Point.Value, point_wkb.
  cbv - [byte.of_Z Z.shiftr math.Float64bits X Y]. reflexivity.
Qed.

Lemma point_wkb_length (p : Point) : length (point_wkb p) = 25%nat.
Proof. reflexivity. Qed.

Lemma Point_roundtrip_bits (convertFloat : list byte -> option float64)
  (spare_cap : nat -> nat) (p p0 : Point) :
  Point.Scan convertFloat spare_cap p0 (VBytes (freeze (point_wkb p))) = Return (p, None).
Proof.
  pose proof (Point_scan_bytes_wkb convertFloat p0 binary.LittleEndian
                [x00; x00; x00; x00]
                (binary.split binary.LittleEndian 8 (math.Float64bits (X p)))
                (binary.split binary.LittleEndian 8 (math.Float64bits (Y p)))
                [] [] eq_refl eq_refl (split_length _ _ _) (split_length _ _ _)) as H.
  rewrite app_nil_r in H.
  unfold Point.Scan, freeze, point_wkb. cbn [order_flag] in H. rewrite H.
  rewrite !combine_split, !Float64_bits_roundtrip. now destruct p.
Qed.


(** C7, as amended: for every Point whose coordinates are not NaN, as
    Point{X: -73.9654, Y: 40.7829}, [Value] gives a 25-byte buffer and
    [Scan] of it gives back X and Y equal under IEEE-754 equality; the
    decoded point is the same bit for bit. *)
Theorem C7_point_roundtrip (convertFloat : list byte -> option float64)
  (spare_cap : nat -> nat) (p p0 : Point) :
  math.IsNaN (X p) = false -> math.IsNaN (Y p) = false ->
  exists b q,
    Point.Value p = Return (VBytes b, None) /\ len b = 25 /\
    Point.Scan convertFloat spare_cap p0 (VBytes b) = Return (q, None) /\
    math.float64_eqb (X q) (X p) = true /\ math.float64_eqb (Y q) (Y p) = true /\
    q = p.
Proof.
  intros HX HY. exists (freeze (point_wkb p)), p.
  split; [apply Point_Value_bytes |].
  split; [reflexivity |].
  split; [apply Point_roundtrip_bits |].
  split; [now apply float64_eqb_refl |].
  split; [now apply float64_eqb_refl | reflexivity].
Qed.

Lemma C7_point_roundtrip_central_park :
  math.IsNaN (X central_park) = false /\ math.IsNaN (Y central_park) = false /\
  exists b q,
    Point.Value central_park = Return (VBytes b, None) /\ len b = 25 /\
    Point.Scan no_float exact_cap nan_point (VBytes b) = Return (q, None) /\
    math.float64_eqb (X q) (X central_park) = true /\
    math.float64_eqb (Y q) (Y central_park) = true /\
    q = central_park.
Proof.
  split; [reflexivity | split; [reflexivity |]].
  apply (C7_point_roundtrip no_float exact_cap central_park nan_point); reflexivity.
Defined.

(** C7 as stated fails at a NaN: the round trip gives the same bits
    back, and a NaN is not equal to itself. *)
Lemma C7_nan_is_not_reproduced :
  exists b q,
    Point.Value nan_point = Return (VBytes b, None) /\
    Point.Scan no_float exact_cap central_park (VBytes b) = Return (q, None) /\
    math.float64_eqb (X q) (X nan_point) = false.
Proof.
  exists (freeze (point_wkb nan_point)), nan_point.
  split; [apply Point_Value_bytes |].
  split; [apply Point_roundtrip_bits | reflexivity].
Qed.

Lemma Point_scan_bytes_short (convertFloat : list byte -> option float64)
  (p : Point) (data : slice) :
  len data = 24 -> is_P (nth 0 (elems data) x00) = false ->
  Point.scan_bytes convertFloat p data = Return (p, Some (WKBTooShort 24)).
Proof.
  intros Hlen HP. unfold Point.scan_bytes. rewrite Hlen.
  change (5 <? 24) with true. cbv iota.
  change (index data 0) with (index data (Z.of_nat 0)).
  rewrite index_within by (unfold len in Hlen; lia).
  cbn [bind]. unfold is_P in HP. rewrite HP. reflexivity.
Qed.

(** C9: a binary input of exactly 24 bytes fails with "WKB data too
    short: 24 bytes"; a 25-byte buffer with a byte-order flag 0 or 1 and
    geometry type 1 in that order succeeds, and gives the two doubles
    it carries. Binary means that the first byte is not 'P' or 'p'. *)
Theorem C9_point_truncation_boundary (convertFloat : list byte -> option float64)
  (spare_cap : nat -> nat) (p : Point) :
  (forall v data,
     carries v data -> length data = 24%nat -> is_P (nth 0 data x00) = false ->
     Point.Scan convertFloat spare_cap p v = Return (p, Some (WKBTooShort 24))) /\
  (forall v o srid xs ys,
     carries v (srid ++ order_flag o :: binary.split o 4 1 ++ xs ++ ys) ->
     length srid = 4%nat -> is_P (nth 0 srid x00) = false ->
     length xs = 8%nat -> length ys = 8%nat ->
     Point.Scan convertFloat spare_cap p v
     = Return ({| X := math.Float64frombits (binary.combine o xs);
                  Y := math.Float64frombits (binary.combine o ys) |}, None)).
Proof.
  split.
  - intros v data [-> | [sp ->]] Hlen HP; cbn [Point.Scan];
      apply Point_scan_bytes_short; unfold len; cbn [elems bytes_of_string];
      solve [rewrite Hlen; reflexivity | assumption].
  - intros v o srid xs ys Hv Hs HP Hx Hy.
    assert (W : forall sp,
      Point.scan_bytes convertFloat p
        {| elems := srid ++ order_flag o :: binary.split o 4 1 ++ xs ++ ys; spare := sp |}
      = Return ({| X := math.Float64frombits (binary.combine o xs);
                   Y := math.Float64frombits (binary.combine o ys) |}, None)).
    { intros sp.
      pose proof (Point_scan_bytes_wkb convertFloat p o srid xs ys [] sp Hs HP Hx Hy) as H.
      now rewrite app_nil_r in H. }
    destruct Hv as [-> | [sp ->]]; apply W.
Qed.

Lemma C9_point_truncation_boundary_witness :
  (carries (VBytes (freeze (repeat x00 24))) (repeat x00 24) /\
   length (repeat x00 24) = 24%nat /\ is_P (nth 0 (repeat x00 24) x00) = false /\
   Point.Scan no_float exact_cap central_park (VBytes (freeze (repeat x00 24)))
   = Return (central_park, Some (WKBTooShort 24))) /\
  (carries (VBytes (freeze (point_wkb central_park)))
     ([x00; x00; x00; x00] ++ order_flag binary.LittleEndian
        :: binary.split binary.LittleEndian 4 1
        ++ binary.split binary.LittleEndian 8 (math.Float64bits (X central_park))
        ++ binary.split binary.LittleEndian 8 (math.Float64bits (Y central_park))) /\
   Point.Scan no_float exact_cap nan_point (VBytes (freeze (point_wkb central_park)))
   = Return (central_park, None)).
Proof.
  assert (C1 : carries (VBytes (freeze (repeat x00 24))) (repeat x00 24))
    by (right; exists []; reflexivity).
  assert (C2 : carries (VBytes (freeze (point_wkb central_park)))
     ([x00; x00; x00; x00] ++ order_flag binary.LittleEndian
        :: binary.split binary.LittleEndian 4 1
        ++ binary.split binary.LittleEndian 8 (math.Float64bits (X central_park))
        ++ binary.split binary.LittleEndian 8 (math.Float64bits (Y central_park))))
    by (right; exists []; reflexivity).
  split.
  - split; [exact C1 |]. split; [reflexivity |]. split; [reflexivity |].
    exact (proj1 (C9_point_truncation_boundary no_float exact_cap central_park)
             _ _ C1 eq_refl eq_refl).
  - split; [exact C2|].
    exact (proj2 (C9_point_truncation_boundary no_float exact_cap nan_point)
             _ binary.LittleEndian [x00; x00; x00; x00] _ _ C2 eq_refl eq_refl eq_refl eq_refl).
Defined.

(** ** The text parser of Point *)

Lemma getRune_shrinks (s s' : fmt.ss) (r : Z) :
  fmt.getRune s = Some (r, s') ->
  (length (fmt.input s') < length (fmt.input s))%nat.
Proof.
  unfold fmt.getRune. destruct (fmt.hugeWid <=? fmt.count s); [discriminate |].
  destruct (fmt.input s) as [| b t] eqn:E.
  - cbn. discriminate.
  - destruct (utf8.DecodeRune (b :: t)) as [r0 [| k]]; [discriminate |].
    intros H. injection H as _ <-. cbn [fmt.input skipn length].
    pose proof (length_skipn k t). lia.
Qed.

Lemma getRune_ascii (b : byte) (t : list byte) (n : Z) :
  (fmt.hugeWid <=? n) = false -> (byte.unsigned b <? utf8.RuneSelf) = true ->
  fmt.getRune {| fmt.input := b :: t; fmt.count := n |}
  = Some (byte.unsigned b, {| fmt.input := t; fmt.count := n + 1 |}).
Proof.
  intros Hn Hb. unfold fmt.getRune. cbn [fmt.count fmt.input utf8.DecodeRune].
  rewrite Hn. cbv zeta. rewrite Hb. reflexivity.
Qed.

(** The word [%s] reads ends at a blank or at the end of the input. *)
Lemma token_loop_stops_at_blank (fuel : nat) :
  forall (s s' : fmt.ss) (buf tok : list Z),
    (length (fmt.input s) < fuel)%nat ->
    fmt.token_loop fuel s buf = fmt.SOk tok s' ->
    at_blank_or_end s'.
Proof.
  induction fuel as [| fuel IH]; intros s s' buf tok Hfuel H; [lia |].
  cbn [fmt.token_loop] in H.
  destruct (fmt.getRune s) as [[r s1] |] eqn:G.
  - destruct (unicode.IsSpace r) eqn:Sp.
    + injection H as _ <-. unfold at_blank_or_end. now rewrite G.
    + apply (IH s1 s' (buf ++ [r]) tok); [| exact H].
      apply getRune_shrinks in G. lia.
  - injection H as _ <-. unfold at_blank_or_end. now rewrite G.
Qed.

Lemma scan_s_stops_at_blank (s s' : fmt.ss) (tok : list Z) :
  fmt.scan_s s = fmt.SOk tok s' -> at_blank_or_end s'.
Proof.
  unfold fmt.scan_s, fmt.convertString, fmt.token, fmt.sbind.
  destruct (fmt.SkipSpace s) as [[] s1 |]; [| discriminate].
  destruct (fmt.SkipSpace s1) as [[] s2 |]; [| discriminate].
  destruct (fmt.notEOF s2) as [[] s3 |]; [| discriminate].
  destruct (fmt.SkipSpace s3) as [[] s4 |]; [| discriminate].
  apply token_loop_stops_at_blank. lia.
Qed.

(** An opening parenthesis of the format cannot follow a word. *)
Lemma literal_paren_after_word (s : fmt.ss) :
  at_blank_or_end s -> exists e, fmt.literal [x28] s = fmt.SErr e.
Proof.
  unfold at_blank_or_end. cbn [fmt.literal].
  destruct (fmt.getRune s) as [[r s1] |]; intros H.
  - destruct (r =? byte.unsigned x28) eqn:E.
    + apply Z.eqb_eq in E. subst r. discriminate H.
    + eexists. reflexivity.
  - eexists. reflexivity.
Qed.

Section Lenient.
Variable convertFloat : list byte -> option float64.

(** The format ["%s(%f %f)"] matches no text at all. *)
Lemma Sscanf_lenient_fails (str : list byte) :
  exists e, fmt.Sscanf_lenient convertFloat str = inr e.
Proof.
  unfold fmt.Sscanf_lenient.
  unfold fmt.sbind at 1.
  destruct (fmt.scan_s (fmt.start str)) as [tok s' |] eqn:E.
  - apply scan_s_stops_at_blank in E.
    destruct (literal_paren_after_word s' E) as [e He].
    unfold fmt.sbind at 1. rewrite He. exists e. reflexivity.
  - eexists. reflexivity.
Qed.

(** The format ["POINT(%f %f)"] does not match a text that starts with
    a lower-case p. *)
Lemma Sscanf_POINT_lowercase (str : list byte) :
  byte.unsigned (nth 0 str x00) = 0x70 ->
  fmt.Sscanf_POINT convertFloat str = inr fmt.ErrInputDoesNotMatchFormat.
Proof.
  destruct str as [| b t]; cbn [nth]; intros H.
  - discriminate H.
  - unfold fmt.Sscanf_POINT, fmt.sbind at 1.
    cbn [fmt.literal]. unfold fmt.start.
    rewrite getRune_ascii by (cbn [fmt.count]; rewrite ?H; reflexivity).
    rewrite H. reflexivity.
Qed.

Variable spare_cap : nat -> nat.

Lemma Point_scan_bytes_text (p : Point) (data : slice) :
  5 < len data -> is_P (nth 0 (elems data) x00) = true ->
  forall e0, fmt.Sscanf_POINT convertFloat (elems data) = inr e0 ->
  exists e,
    fmt.Sscanf_lenient convertFloat (elems data) = inr e /\
    Point.scan_bytes convertFloat p data
    = Return (p, Some (PointParseFailure (elems data) e)).
Proof.
  intros Hlen HP e0 H0.
  destruct (Sscanf_lenient_fails (elems data)) as [e He].
  exists e. split; [exact He |].
  unfold Point.scan_bytes.
  replace (5 <? len data) with true by (symmetry; apply Z.ltb_lt; exact Hlen).
  change (index data 0) with (index data (Z.of_nat 0)).
  rewrite index_within by (unfold len in Hlen; lia).
  cbn [bind]. unfold is_P in HP. rewrite HP, H0, He. reflexivity.
Qed.

(** C4, on the code: the lenient format never matches, so a text that
    the format ["POINT(%f %f)"] refuses is refused by [Scan], with the
    receiver left as it was; this is so for every text that starts with
    a lower-case p. *)
Theorem C4_lenient_fallback_never_succeeds (p : Point) (v : value) (str : list byte) :
  carries v str -> (5 < length str)%nat -> is_P (nth 0 str x00) = true ->
  (forall e0, fmt.Sscanf_POINT convertFloat str = inr e0 ->
     exists e,
       fmt.Sscanf_lenient convertFloat str = inr e /\
       Point.Scan convertFloat spare_cap p v
       = Return (p, Some (PointParseFailure str e))) /\
  (byte.unsigned (nth 0 str x00) = 0x70 ->
     exists e,
       Point.Scan convertFloat spare_cap p v
       = Return (p, Some (PointParseFailure str e))).
Proof.
  intros Hv Hlen HP.
  assert (W : forall e0, fmt.Sscanf_POINT convertFloat str = inr e0 ->
     exists e,
       fmt.Sscanf_lenient convertFloat str = inr e /\
       Point.Scan convertFloat spare_cap p v
       = Return (p, Some (PointParseFailure str e))).
  { intros e0 H0.
    assert (B : forall sp,
      exists e,
        fmt.Sscanf_lenient convertFloat str = inr e /\
        Point.scan_bytes convertFloat p {| elems := str; spare := sp |}
        = Return (p, Some (PointParseFailure str e))).
    { intros sp.
      apply (Point_scan_bytes_text p {| elems := str; spare := sp |}) with (e0 := e0);
        cbn [elems]; try assumption. unfold len. cbn [elems]. lia. }
    destruct Hv as [-> | [sp ->]]; apply B. }
  split; [exact W |].
  intros Hp. destruct (W _ (Sscanf_POINT_lowercase str Hp)) as [e [_ He]].
  exists e. exact He.
Qed.
End Lenient.

Lemma C4_lenient_fallback_never_succeeds_witness :
  carries (VString lowercase_point_text) lowercase_point_text /\
  (5 < length lowercase_point_text)%nat /\
  is_P (nth 0 lowercase_point_text x00) = true /\
  byte.unsigned (nth 0 lowercase_point_text x00) = 0x70 /\
  exists e,
    Point.Scan no_float exact_cap central_park (VString lowercase_point_text)
    = Return (central_park, Some (PointParseFailure lowercase_point_text e)).
Proof.
  assert (C : carries (VString lowercase_point_text) lowercase_point_text)
    by (left; reflexivity).
  assert (L : (5 < length lowercase_point_text)%nat) by (simpl; lia).
  split; [exact C |]. split; [exact L |]. split; [reflexivity |].
  split; [reflexivity |].
  exact (proj2 (C4_lenient_fallback_never_succeeds no_float exact_cap central_park
                  _ _ C L eq_refl) eq_refl).
Defined.

(** At the text [point(1 2)], whatever the number scanner: both formats
    fail on a literal, before any number is read. *)
Lemma Point_Scan_lowercase_point (convertFloat : list byte -> option float64)
  (spare_cap : nat -> nat) (p : Point) :
  Point.Scan convertFloat spare_cap p (VString lowercase_point_text)
  = Return (p, Some (PointParseFailure lowercase_point_text
                       fmt.ErrInputDoesNotMatchFormat)).
Proof. reflexivity. Qed.

(** ** LineString: paths of any length *)

Lemma point_bytes_length (p : Point) : length (point_bytes p) = 16%nat.
Proof. unfold point_bytes. now rewrite length_app, !split_length. Qed.

Lemma flat_map_point_bytes_length (l : list Point) :
  length (flat_map point_bytes l) = (16 * length l)%nat.
Proof.
  induction l as [| p l IH]; cbn [flat_map length]; [lia |].
  rewrite length_app, point_bytes_length, IH. lia.
Qed.

Lemma put_points_spec (l : list Point) :
  forall (pre : list byte) (i : Z),
    Z.of_nat (length pre) = 13 + i * 16 ->
    LineString.put_points l i (pre ++ repeat x00 (16 * length l))
    = Return (pre ++ flat_map point_bytes l).
Proof.
  induction l as [| p l IH]; intros pre i Hpre.
  - cbn [LineString.put_points length flat_map]. now rewrite Nat.mul_0_r.
  - cbn [LineString.put_points length flat_map].
    replace (16 * S (length l))%nat with (8 + (8 + 16 * length l))%nat by lia.
    rewrite !repeat_app, <- Hpre.
    rewrite (PutUint_app 8 binary.LittleEndian pre (repeat x00 8) _ _ eq_refl
             : binary.PutUint64 _ _ _ (Z.of_nat (length pre) + 8) _ = _).
    cbn [bind].
    set (xs := binary.split binary.LittleEndian 8 (math.Float64bits (X p))).
    replace (Z.of_nat (length pre) + 8) with (Z.of_nat (length (pre ++ xs)))
      by (rewrite length_app; unfold xs; rewrite split_length; lia).
    replace (Z.of_nat (length pre) + 16) with (Z.of_nat (length (pre ++ xs)) + Z.of_nat 8)
      by (rewrite length_app; unfold xs; rewrite split_length; lia).
    rewrite (app_assoc pre xs).
    rewrite (PutUint_app 8 binary.LittleEndian (pre ++ xs) (repeat x00 8) _ _ eq_refl
             : binary.PutUint64 _ _ _ _ _ = _).
    cbn [bind].
    set (ys := binary.split binary.LittleEndian 8 (math.Float64bits (Y p))).
    rewrite (app_assoc (pre ++ xs) ys).
    rewrite IH.
    + unfold point_bytes. fold xs ys. now rewrite <- !app_assoc.
    + rewrite !length_app. unfold xs, ys. rewrite !split_length. lia.
Qed.

(** [Value] writes the wire form, whatever the number of points. *)
Lemma LineString_Value_wkb (p : LineString) :
  LineString.Value p = Return (VBytes (freeze (path_wkb (Points p))), None).
Proof.
  unfold LineString.Value, path_wkb.
  set (n := length (Points p)).
  replace (13 + Z.of_nat n * 16) with (Z.of_nat (5 + (4 + (4 + 16 * n)))) by lia.
  rewrite make_repeat. cbn [bind].
  rewrite !repeat_app. change (repeat x00 5) with [x00; x00; x00; x00; x00].
  cbn [app].
  rewrite (store_app [] _ x00 x00 : store (x00 :: _) 0 _ = _). cbn [bind app].
  rewrite (store_app [x00] _ x00 x00 : store (x00 :: x00 :: _) 1 _ = _). cbn [bind app].
  rewrite (store_app [x00; x00] _ x00 x00
           : store (x00 :: x00 :: x00 :: _) 2 _ = _). cbn [bind app].
  rewrite (store_app [x00; x00; x00] _ x00 x00
           : store (x00 :: x00 :: x00 :: x00 :: _) 3 _ = _). cbn [bind app].
  rewrite (store_app [x00; x00; x00; x00] _ x00 x01
           : store (x00 :: x00 :: x00 :: x00 :: x00 :: _) 4 _ = _). cbn [bind app].
  set (ty := binary.split binary.LittleEndian 4 WKBTypeLineString).
  set (cnt := binary.split binary.LittleEndian 4 (uint32_wrap (Z.of_nat n))).
  pose proof (PutUint_app 4 binary.LittleEndian [x00; x00; x00; x00; x01] (repeat x00 4)
                (repeat x00 4 ++ repeat x00 (16 * n)) WKBTypeLineString eq_refl) as E1.
  pose proof (PutUint_app 4 binary.LittleEndian ([x00; x00; x00; x00; x01] ++ ty)
                (repeat x00 4) (repeat x00 (16 * n)) (uint32_wrap (Z.of_nat n)) eq_refl)
    as E2.
  pose proof (put_points_spec (Points p) (([x00; x00; x00; x00; x01] ++ ty) ++ cnt) 0) as P.
  rewrite length_app in E2. unfold ty at 2 3 in E2. rewrite split_length in E2.
  fold ty cnt in E1, E2. fold n in P.
  rewrite <- ?app_assoc in E1. rewrite <- ?app_assoc in E2. rewrite <- ?app_assoc in P.
  cbn [app length] in E1, E2, P.
  change (binary.PutUint 4) with binary.PutUint32 in E1, E2.
  change (Z.of_nat 5 + Z.of_nat 4) with 9 in E1.
  change (Z.of_nat 5) with 5 in E1.
  change (Z.of_nat (5 + 4) + Z.of_nat 4) with 13 in E2.
  change (Z.of_nat (5 + 4)) with 9 in E2.
  rewrite E1. cbn [bind]. rewrite E2. cbn [bind].
  rewrite P; [reflexivity |].
  rewrite !length_app. unfold ty, cnt. rewrite !split_length. reflexivity.
Qed.

(** The loop of [Scan] over the encodings of [l] gives [l], as long as
    the offsets stay below [2^32]. *)
Lemma scan_points_spec (l : list Point) :
  forall (pre rest sp : list byte) (done tail : list Point),
    Z.of_nat (length pre) = 13 + Z.of_nat (length done) * 16 ->
    13 + (Z.of_nat (length done) + Z.of_nat (length l)) * 16 <= 2 ^ 32 ->
    LineString.scan_points (length l) (Z.of_nat (length done)) binary.LittleEndian
      {| elems := pre ++ flat_map point_bytes l ++ rest; spare := sp |}
      (done ++ repeat LineString.zeroPoint (length l) ++ tail)
    = Return (done ++ l ++ tail).
Proof.
  induction l as [| p l IH]; intros pre rest sp done tail Hpre Hmax.
  - reflexivity.
  - cbn [length] in Hmax.
    cbn [LineString.scan_points length flat_map repeat].
    set (xs := binary.split binary.LittleEndian 8 (math.Float64bits (X p))).
    set (ys := binary.split binary.LittleEndian 8 (math.Float64bits (Y p))).
    assert (Hoff : uint32_wrap (13 + uint32_wrap (Z.of_nat (length done) * 16))
                   = Z.of_nat (length pre)).
    { unfold uint32_wrap.
      rewrite (Z.mod_small (Z.of_nat (length done) * 16)) by lia.
      rewrite Z.mod_small by lia. lia. }
    rewrite Hoff.
    replace (uint32_wrap (Z.of_nat (length pre) + 8))
      with (Z.of_nat (length pre) + Z.of_nat (length xs))
      by (unfold xs; rewrite split_length; unfold uint32_wrap;
          rewrite Z.mod_small; lia).
    unfold point_bytes at 1. fold xs ys. rewrite <- !app_assoc.
    rewrite reslice_app. cbn [bind].
    rewrite (decodePoint_backing binary.LittleEndian _ xs ys
               (flat_map point_bytes l ++ rest ++ sp))
      by first [ unfold backing; cbn [elems spare]; now rewrite <- !app_assoc
               | apply split_length ].
    cbn [bind]. unfold xs, ys. rewrite !combine_split, !Float64_bits_roundtrip.
    replace {| X := X p; Y := Y p |} with p by now destruct p.
    cbn [app].
    assert (Hset : LineString.set_point (done ++ LineString.zeroPoint
                     :: repeat LineString.zeroPoint (length l) ++ tail)
                     (Z.of_nat (length done)) p
                   = Return (done ++ p :: repeat LineString.zeroPoint (length l) ++ tail)).
    { unfold LineString.set_point.
      replace ((0 <=? Z.of_nat (length done)) &&
               (Z.of_nat (length done) <? Z.of_nat (length (done ++ LineString.zeroPoint
                  :: repeat LineString.zeroPoint (length l) ++ tail)))) with true.
      - rewrite Nat2Z.id, firstn_app_exact.
        change (S (length done)) with (1 + length done)%nat.
        rewrite <- skipn_skipn, skipn_app_exact. reflexivity.
      - symmetry. rewrite length_app. cbn [length]. apply andb_true_iff.
        split; [apply Z.leb_le | apply Z.ltb_lt]; lia. }
    rewrite Hset. cbn [bind].
    replace (Z.of_nat (length done) + 1) with (Z.of_nat (length (done ++ [p])))
      by (rewrite length_app; cbn [length]; lia).
    pose proof (IH (pre ++ xs ++ ys) rest sp (done ++ [p]) tail) as H.
    rewrite <- !app_assoc in H. cbn [app] in H. apply H.
    + rewrite !length_app. unfold xs, ys. rewrite !split_length. cbn [length]. lia.
    + rewrite length_app. cbn [length]. lia.
Qed.

(** [Scan] of the wire form of a path of at least one point, and of
    fewer than [2^28], gives the path back; [Scan] reads the Y of each
    point through the capacity of the 8-byte slice it hands to
    [decodePoint]. *)
Lemma LineString_scan_wkb (l : list Point) (p0 : LineString) :
  (1 <= length l)%nat -> Z.of_nat (length l) < 2 ^ 28 ->
  LineString.scan_bytes p0 (freeze (path_wkb l)) = Return ({| Points := l |}, None).
Proof.
  intros H1 Hmax. unfold LineString.scan_bytes, freeze, path_wkb.
  set (ty := binary.split binary.LittleEndian 4 WKBTypeLineString).
  set (n := uint32_wrap (Z.of_nat (length l))).
  set (cnt := binary.split binary.LittleEndian 4 n).
  set (body := flat_map point_bytes l).
  set (data := {| elems := _; spare := [] |}).
  assert (Hn : n = Z.of_nat (length l))
    by (unfold n, uint32_wrap; apply Z.mod_small; lia).
  assert (Hlen : len data = 13 + 16 * Z.of_nat (length l)).
  { unfold len, data. cbn [elems]. rewrite !length_app. unfold ty, cnt, body.
    rewrite !split_length, flat_map_point_bytes_length. cbn [length]. lia. }
  rewrite Hlen.
  replace (13 + 16 * Z.of_nat (length l) <? 29) with false
    by (symmetry; apply Z.ltb_ge; lia).
  unfold data at 1. rewrite <- !app_assoc.
  rewrite (byte_order_of_flag binary.LittleEndian [x00; x00; x00; x00] _ [] eq_refl
           : byte_order_of {| elems := [x00; x00; x00; x00; x01] ++ _; spare := [] |} = _).
  cbn [bind].
  unfold data. rewrite <- !app_assoc.
  rewrite (reslice_app [x00; x00; x00; x00; x01] ty (cnt ++ body) []
           : reslice _ 5 9 = _). cbn [bind].
  unfold ty at 1. rewrite Uint32_split. cbn [bind].
  change (WKBTypeLineString mod 2 ^ 32 =? WKBTypeLineString) with true. cbn [negb].
  rewrite (app_assoc [x00; x00; x00; x00; x01] ty).
  rewrite (reslice_app ([x00; x00; x00; x00; x01] ++ ty) cnt body []
           : reslice _ 9 13 = _). cbn [bind].
  unfold cnt at 1. rewrite Uint32_split. cbn [bind].
  fold (uint32_wrap n). replace (uint32_wrap n) with (Z.of_nat (length l))
    by (rewrite Hn; unfold uint32_wrap; symmetry; apply Z.mod_small; lia).
  rewrite Nat2Z.id.
  pose proof (scan_points_spec l (([x00; x00; x00; x00; x01] ++ ty) ++ cnt) [] [] [] [])
    as S.
  cbn [app length] in S. rewrite !app_nil_r in S.
  change (Z.of_nat 0) with 0 in S.
  rewrite <- !app_assoc. cbn [app]. cbn [app] in S. rewrite <- !app_assoc in S.
  cbn [app] in S.
  unfold body. rewrite S; [reflexivity | | lia].
  unfold ty, cnt. rewrite !length_app, !split_length. reflexivity.
Qed.

(** Every path of at least one point, and of fewer than [2^28], is
    encoded by [Value] to a buffer that [Scan] decodes to the same
    path. *)
Lemma LineString_roundtrip (spare_cap : nat -> nat) (p p0 : LineString) :
  (1 <= length (Points p))%nat -> Z.of_nat (length (Points p)) < 2 ^ 28 ->
  exists b,
    LineString.Value p = Return (VBytes b, None) /\
    LineString.Scan spare_cap p0 (VBytes b) = Return (p, None).
Proof.
  intros H1 Hmax. exists (freeze (path_wkb (Points p))).
  split; [apply LineString_Value_wkb |].
  cbn [LineString.Scan]. rewrite LineString_scan_wkb by assumption.
  now destruct p.
Qed.

(** ** LineString: the path of the specification and the empty path *)

(** C6: the Path of the three points encodes to a buffer that decodes,
    with no error, to the same three points in the same order, each
    coordinate with the same bits. *)
Theorem C6_path_roundtrip (spare_cap : nat -> nat) (p0 : LineString) :
  exists b,
    LineString.Value path3 = Return (VBytes b, None) /\
    LineString.Scan spare_cap p0 (VBytes b) = Return (path3, None).
Proof.
  eexists. split.
  - vm_compute. reflexivity.
  - vm_compute. reflexivity.
Qed.

Lemma LineString_scan_bytes_short (p : LineString) (data : slice) :
  len data < 29 ->
  LineString.scan_bytes p data = Return (p, Some (WKBTooShort (len data))).
Proof.
  intros H. unfold LineString.scan_bytes.
  now replace (len data <? 29) with true by (symmetry; apply Z.ltb_lt; exact H).
Qed.

(** C10: [Value] of the Path without points is a buffer of 13 bytes;
    [Scan] refuses every input shorter than 29 bytes with "WKB data too
    short" and leaves the receiver as it was; so [Scan] of the encoding
    of the empty Path fails. *)
Theorem C10_empty_path_does_not_roundtrip (spare_cap : nat -> nat) (p : LineString) :
  LineString.Value empty_path = Return (VBytes (freeze empty_path_wkb), None) /\
  len (freeze empty_path_wkb) = 13 /\
  (forall v data,
     carries v data -> (length data < 29)%nat ->
     LineString.Scan spare_cap p v
     = Return (p, Some (WKBTooShort (Z.of_nat (length data))))) /\
  LineString.Scan spare_cap p (VBytes (freeze empty_path_wkb))
  = Return (p, Some (WKBTooShort 13)).
Proof.
  split; [reflexivity |]. split; [reflexivity |]. split; [| reflexivity].
  intros v data [-> | [sp ->]] H; cbn [LineString.Scan];
    rewrite LineString_scan_bytes_short; unfold len; cbn [elems bytes_of_string];
    solve [reflexivity | lia].
Qed.

Lemma C10_empty_path_does_not_roundtrip_witness :
  carries (VString empty_path_wkb) empty_path_wkb /\
  (length empty_path_wkb < 29)%nat /\
  LineString.Scan exact_cap path3 (VString empty_path_wkb)
  = Return (path3, Some (WKBTooShort 13)).
Proof.
  assert (C : carries (VString empty_path_wkb) empty_path_wkb) by (left; reflexivity).
  assert (L : (length empty_path_wkb < 29)%nat) by (simpl; lia).
  split; [exact C |]. split; [exact L |].
  exact (proj1 (proj2 (proj2 (C10_empty_path_does_not_roundtrip exact_cap path3)))
           _ _ C L).
Defined.

(** ** Vector: what [Value] writes *)

Lemma enc_length (T : ElementType) (e : elem T) : length (enc T e) = size_of T.
Proof. destruct T; apply split_length. Qed.

Lemma size_and_type_of (T : ElementType) (e : elem T) :
  Vector.size_and_type (to_any T e) = Some (Z.of_nat (size_of T), tag_of T).
Proof. destruct T; reflexivity. Qed.

Lemma put_elem_spec (T : ElementType) (e : elem T) (pre rest : list byte) :
  Vector.put_elem (tag_of T) (to_any T e) (Z.of_nat (length pre))
    (pre ++ repeat x00 (size_of T) ++ rest)
  = Return (pre ++ enc T e ++ rest).
Proof.
  destruct T; unfold Vector.put_elem; cbn [tag_of to_any assert bind size_of enc];
    [ change (byte.unsigned x01) with 1 | change (byte.unsigned x02) with 2
    | change (byte.unsigned x03) with 3 | change (byte.unsigned x04) with 4 ];
    cbn [Z.eqb Pos.eqb];
    first [ apply (PutUint_app 4 binary.LittleEndian pre (repeat x00 4) rest)
          | apply (PutUint_app 8 binary.LittleEndian pre (repeat x00 8) rest) ];
    reflexivity.
Qed.

Lemma put_elems_spec (T : ElementType) (l : list (elem T)) :
  forall pre : list byte,
    Vector.put_elems (tag_of T) (Z.of_nat (size_of T)) l (Z.of_nat (length pre))
      (pre ++ repeat x00 (size_of T * length l))
    = Return (pre ++ flat_map (enc T) l).
Proof.
  induction l as [| e l IH]; intros pre.
  - cbn [Vector.put_elems length flat_map]. now rewrite Nat.mul_0_r.
  - cbn [Vector.put_elems length flat_map].
    replace (size_of T * S (length l))%nat
      with (size_of T + size_of T * length l)%nat by lia.
    rewrite repeat_app, put_elem_spec. cbn [bind].
    replace (Z.of_nat (length pre) + Z.of_nat (size_of T))
      with (Z.of_nat (length (pre ++ enc T e)))
      by (rewrite length_app, enc_length; lia).
    rewrite app_assoc, IH, <- app_assoc. reflexivity.
Qed.

(** [Value] of a valid vector with data writes the wire form, whatever
    the number of elements. *)
Lemma Vector_Value_wire (T : ElementType) (v : Vector.t T) :
  Vector.Valid v = true -> Vector.Data v <> [] ->
  Vector.Value v = Return (VBytes (freeze (vector_wire T (Vector.Data v))), None).
Proof.
  intros HV HD. unfold Vector.Value. rewrite HV.
  destruct (Vector.Data v) as [| e l] eqn:E; [contradiction |].
  replace (Z.of_nat (length (e :: l)) =? 0) with false
    by (symmetry; apply Z.eqb_neq; cbn [length]; lia).
  cbn [negb orb bind]. rewrite size_and_type_of.
  set (n := length (e :: l)).
  replace (1 + 4 + Z.of_nat n * Z.of_nat (size_of T))
    with (Z.of_nat (1 + (4 + size_of T * n))) by lia.
  rewrite make_repeat. cbn [bind].
  rewrite (repeat_app x00 1), (repeat_app x00 4).
  change (repeat x00 1) with [x00]. cbn [app].
  rewrite (store_app [] _ x00 (tag_of T) : store (x00 :: _) 0 _ = _). cbn [bind app].
  rewrite (PutUint_app 4 binary.LittleEndian [tag_of T] (repeat x00 4)
             (repeat x00 (size_of T * n)) _ eq_refl : binary.PutUint32 _ _ 1 5 _ = _).
  cbn [bind].
  pose proof (put_elems_spec T (e :: l)
                ([tag_of T] ++ binary.split binary.LittleEndian 4 (uint32_wrap (Z.of_nat n))))
    as P.
  fold n in P. rewrite length_app, split_length in P.
  change (Z.of_nat (length [tag_of T] + 4)) with 5 in P.
  rewrite <- app_assoc in P. cbn [app] in P. cbn [app].
  rewrite P. reflexivity.
Qed.

(** ** Vector: what [Scan] reads *)

Lemma get_elem_spec (T : ElementType) (e : elem T) (pre rest sp : list byte) :
  Vector.get_elem (tag_of T) {| elems := pre ++ enc T e ++ rest; spare := sp |}
    (Z.of_nat (length pre))
  = Return (to_any T e).
Proof.
  pose proof (reslice_app pre (enc T e) rest sp) as R.
  rewrite enc_length in R.
  destruct T; unfold Vector.get_elem; cbn [tag_of to_any size_of enc] in *;
    [ change (byte.unsigned x01) with 1 | change (byte.unsigned x02) with 2
    | change (byte.unsigned x03) with 3 | change (byte.unsigned x04) with 4 ];
    cbn [Z.eqb Pos.eqb];
    change (Z.of_nat 4) with 4 in R; change (Z.of_nat 8) with 8 in R;
    rewrite R; cbn [bind];
    first [ rewrite Uint32_split | rewrite Uint64_split ]; cbn [bind]; f_equal; f_equal.
  - apply Float32_bits_roundtrip.
  - apply Float64_bits_roundtrip.
  - apply (Float32_bits_roundtrip e).
  - apply (Float64_bits_roundtrip e).
Qed.

Lemma assert_to_any (T : ElementType) (e : elem T) : assert T (to_any T e) = Return e.
Proof. destruct T; reflexivity. Qed.

Lemma set_elem_spec (T : ElementType) (done rest : list (elem T)) (old e : elem T) :
  Vector.set_elem (done ++ old :: rest) (Z.of_nat (length done)) e
  = Return (done ++ e :: rest).
Proof.
  unfold Vector.set_elem.
  replace ((0 <=? Z.of_nat (length done)) &&
           (Z.of_nat (length done) <? Z.of_nat (length (done ++ old :: rest))))
    with true.
  - rewrite Nat2Z.id, firstn_app_exact.
    change (S (length done)) with (1 + length done)%nat.
    rewrite <- skipn_skipn, skipn_app_exact. reflexivity.
  - symmetry. rewrite length_app. cbn [length]. apply andb_true_iff.
    split; [apply Z.leb_le | apply Z.ltb_lt]; lia.
Qed.

(** The loop of [Scan] over the encodings of [l] gives [l]. *)
Lemma scan_elems_spec (T : ElementType) (l : list (elem T)) :
  forall (pre rest sp : list byte) (done tail : list (elem T)),
    Vector.scan_elems (length l) (Z.of_nat (length done)) (Z.of_nat (length pre))
      (tag_of T) (Z.of_nat (size_of T))
      {| elems := pre ++ flat_map (enc T) l ++ rest; spare := sp |}
      (done ++ repeat (zero T) (length l) ++ tail)
    = Return (done ++ l ++ tail).
Proof.
  induction l as [| e l IH]; intros pre rest sp done tail.
  - reflexivity.
  - cbn [Vector.scan_elems length flat_map repeat].
    rewrite <- (app_assoc (enc T e)), get_elem_spec. cbn [bind].
    rewrite assert_to_any. cbn [bind app].
    rewrite set_elem_spec. cbn [bind].
    replace (Z.of_nat (length done) + 1) with (Z.of_nat (length (done ++ [e])))
      by (rewrite length_app; cbn [length]; lia).
    replace (Z.of_nat (length pre) + Z.of_nat (size_of T))
      with (Z.of_nat (length (pre ++ enc T e)))
      by (rewrite length_app, enc_length; lia).
    pose proof (IH (pre ++ enc T e) rest sp (done ++ [e]) tail) as H.
    rewrite <- !app_assoc in H. cbn [app] in H. exact H.
Qed.

Lemma element_size_of (T : ElementType) :
  Vector.element_size (tag_of T) = Some (Z.of_nat (size_of T)).
Proof. destruct T; reflexivity. Qed.

Lemma flat_map_enc_length (T : ElementType) (l : list (elem T)) :
  length (flat_map (enc T) l) = (size_of T * length l)%nat.
Proof.
  induction l as [| e l IH]; cbn [flat_map length]; [lia |].
  rewrite length_app, enc_length, IH. lia.
Qed.

(** [Scan] of the wire form of [l]: the dimension read is the length
    modulo [2^32], and that many elements of [l] come back. *)
Lemma Vector_scan_wire (T : ElementType) (l : list (elem T)) (v0 : Vector.t T) :
  let d := uint32_wrap (Z.of_nat (length l)) in
  Vector.scan_bytes v0 (freeze (vector_wire T l))
  = Return (Vector.mk (firstn (Z.to_nat d) l) d true, None).
Proof.
  intros d. unfold Vector.scan_bytes, freeze, vector_wire. fold d.
  set (body := flat_map (enc T) l).
  set (dim := binary.split binary.LittleEndian 4 d).
  set (data := {| elems := tag_of T :: dim ++ body; spare := [] |}).
  assert (Hd : 0 <= d < 2 ^ 32) by (apply Z.mod_pos_bound; lia).
  assert (Hdn : d <= Z.of_nat (length l)).
  { unfold d, uint32_wrap. apply Z.mod_le; lia. }
  assert (Hlen : len data = 5 + Z.of_nat (size_of T) * Z.of_nat (length l)).
  { unfold len, data. cbn [elems length]. unfold dim, body.
    rewrite length_app, split_length, flat_map_enc_length. lia. }
  rewrite Hlen.
  replace (5 + Z.of_nat (size_of T) * Z.of_nat (length l) <? 5) with false
    by (symmetry; apply Z.ltb_ge; lia).
  change (index data 0) with (index data (Z.of_nat 0)).
  rewrite index_within by (unfold len in Hlen; lia).
  cbn [bind]. change (nth 0 (elems data) x00) with (tag_of T).
  rewrite (reslice_app [tag_of T] dim body [] : reslice data 1 5 = _). cbn [bind].
  unfold dim. rewrite Uint32_split. cbn [bind].
  rewrite element_size_of.
  fold (uint32_wrap d). replace (uint32_wrap d) with d
    by (unfold uint32_wrap; symmetry; apply Z.mod_small; exact Hd).
  replace (5 + Z.of_nat (size_of T) * Z.of_nat (length l)
           <? 5 + d * Z.of_nat (size_of T)) with false
    by (symmetry; apply Z.ltb_ge; nia).
  fold dim.
  assert (Hl : l = firstn (Z.to_nat d) l ++ skipn (Z.to_nat d) l)
    by (symmetry; apply firstn_skipn).
  set (l1 := firstn (Z.to_nat d) l) in *. set (l2 := skipn (Z.to_nat d) l) in *.
  assert (H1 : length l1 = Z.to_nat d)
    by (unfold l1; rewrite length_firstn; lia).
  pose proof (scan_elems_spec T l1 (tag_of T :: dim) (flat_map (enc T) l2) [] [] [])
    as S.
  assert (Hpre : Z.of_nat (length (tag_of T :: dim)) = 5)
    by (cbn [length]; unfold dim; rewrite split_length; reflexivity).
  rewrite H1, Hpre in S. cbn [app length] in S.
  change (Z.of_nat 0) with 0 in S. rewrite !app_nil_r in S.
  unfold data, body. rewrite Hl at 1. rewrite flat_map_app.
  rewrite S. reflexivity.
Qed.

(** ** Vector: the binary round trip *)

Section VectorRoundTrip.
Variable ParseFloat : list byte -> Z -> float64 * option strconv.NumError.
Variable ParseInt : list byte -> Z -> Z -> int64 * option strconv.NumError.
Variable narrow : float64 -> float32.

(** C1, as amended: for each of the four element types, every valid
    vector with data whose dimension is the length of its data, and
    with fewer than [2^32] elements, is encoded by [Value] to a buffer
    that [Scan] decodes, with no error, to the same vector: same
    dimension, same elements bit for bit, valid. *)
Theorem C1_vector_roundtrip (T : ElementType) (v v0 : Vector.t T) :
  well_formed v -> Z.of_nat (length (Vector.Data v)) < 2 ^ 32 ->
  exists b,
    Vector.Value v = Return (VBytes b, None) /\
    Vector.Scan ParseFloat ParseInt narrow v0 (VBytes b) = Return (v, None).
Proof.
  intros (HV & HD & Hdim) Hn.
  exists (freeze (vector_wire T (Vector.Data v))).
  split; [now apply Vector_Value_wire |].
  cbn [Vector.Scan]. rewrite Vector_scan_wire.
  unfold uint32_wrap. rewrite Z.mod_small by lia.
  rewrite Nat2Z.id, firstn_all.
  destruct v as [data dimension valid]. cbn [Vector.Data Vector.Dimension Vector.Valid] in *.
  now subst.
Qed.
End VectorRoundTrip.

Lemma C1_vector_roundtrip_witness :
  well_formed small_vector /\
  Z.of_nat (length (Vector.Data small_vector)) < 2 ^ 32 /\
  exists b,
    Vector.Value small_vector = Return (VBytes b, None) /\
    Vector.Scan no_parse_float no_parse_int no_narrow
      (Vector.NewVector (T := TInt32) []) (VBytes b)
    = Return (small_vector, None).
Proof.
  assert (W : well_formed small_vector)
    by (split; [reflexivity | split; [discriminate | reflexivity]]).
  assert (L : Z.of_nat (length (Vector.Data small_vector)) < 2 ^ 32) by reflexivity.
  split; [exact W |]. split; [exact L |].
  exact (C1_vector_roundtrip no_parse_float no_parse_int no_narrow TInt32
           small_vector (Vector.NewVector (T := TInt32) []) W L).
Defined.

Lemma zeros_wrap (n : nat) :
  Z.of_nat n = 2 ^ 32 ->
  well_formed (zeros n) /\ Vector.Dimension (zeros n) = 2 ^ 32 /\
  exists b v',
    Vector.Value (zeros n) = Return (VBytes b, None) /\
    Vector.Scan no_parse_float no_parse_int no_narrow (zeros n) (VBytes b)
    = Return (v', None) /\
    Vector.Dimension v' = 0 /\ Vector.Data v' = [].
Proof.
  intros Hn.
  assert (L : Z.of_nat (length (Vector.Data (zeros n))) = 2 ^ 32).
  { unfold zeros, Vector.NewVector, Vector.Data. now rewrite repeat_length. }
  assert (W : well_formed (zeros n)).
  { split; [reflexivity |]. split; [| reflexivity].
    intros H. rewrite H in L. discriminate L. }
  split; [exact W |]. split; [exact L |].
  exists (freeze (vector_wire TFloat32 (Vector.Data (zeros n)))).
  exists (Vector.mk [] 0 true).
  split; [apply Vector_Value_wire; apply W |].
  split; [| split; reflexivity].
  cbn [Vector.Scan]. rewrite Vector_scan_wire, L. reflexivity.
Qed.

(** C1 as stated fails at a vector of [2^32] elements: the dimension
    field of the buffer holds the length modulo [2^32], so [Scan] gives
    a vector of dimension 0 without data. *)
Lemma C1_huge_vector_is_not_reproduced :
  well_formed huge_vector /\ Vector.Dimension huge_vector = 2 ^ 32 /\
  exists b v',
    Vector.Value huge_vector = Return (VBytes b, None) /\
    Vector.Scan no_parse_float no_parse_int no_narrow huge_vector (VBytes b)
    = Return (v', None) /\
    Vector.Dimension v' = 0 /\ Vector.Data v' = [].
Proof.
  exact (zeros_wrap (Z.to_nat (2 ^ 32)) (Z2Nat.id (2 ^ 32) (Z.pow_nonneg 2 32 (Zle_0_pos 2)))).
Qed.

(** ** Vector: NULL and the empty vector *)

(** C5, as amended: [Value] of a vector that is not valid, or that has
    no data, is NULL with no error; [Scan] of the text [[]] gives a
    valid vector of dimension 0 without data. *)
Theorem C5_vector_null_and_empty
  (ParseFloat : list byte -> Z -> float64 * option strconv.NumError)
  (ParseInt : list byte -> Z -> Z -> int64 * option strconv.NumError)
  (narrow : float64 -> float32) (T : ElementType)
  (data : list (elem T)) (dimension : Z) (valid : bool) (v0 : Vector.t T) :
  Vector.Value (Vector.mk data dimension false) = Return (VNil, None) /\
  Vector.Value (Vector.mk (T := T) [] dimension valid) = Return (VNil, None) /\
  Vector.Scan ParseFloat ParseInt narrow v0 (VString brackets)
  = Return (Vector.mk [] 0 true, None).
Proof.
  split; [reflexivity |]. split; [| reflexivity].
  unfold Vector.Value. cbn [Vector.Valid Vector.Data length Z.of_nat Z.eqb].
  now rewrite orb_true_r.
Qed.

(** C5 as stated fails in its last part: the text [[]] is not the only
    input that gives a valid vector without data, a binary vector of
    dimension 0 gives one too. *)
Lemma C5_empty_vector_from_binary :
  Vector.Scan no_parse_float no_parse_int no_narrow
    (Vector.mk (T := TFloat64) [] 0 false) (VBytes (freeze empty_float64_wire))
  = Return (Vector.mk [] 0 true, None) /\
  VBytes (freeze empty_float64_wire) <> VString brackets.
Proof. split; [reflexivity | discriminate]. Qed.

(** ** The panics of [Scan] *)

Lemma assert_mismatch (T : ElementType) (a : any) :
  (forall e, a <> to_any T e) -> assert T a = Panicked InterfaceConversion.
Proof.
  intros H. destruct T, a; try reflexivity; exfalso; eapply H; reflexivity.
Qed.

(** [Scan] of a binary vector that holds at least one element of another
    type than [T], and is long enough for its dimension, panics in the
    type assertion. *)
Lemma Vector_scan_type_mismatch (T : ElementType) (v0 : Vector.t T) (data : slice)
  (size : Z) :
  let tag := nth 0 (elems data) x00 in
  let d := binary.combine binary.LittleEndian (firstn 4 (skipn 1 (elems data))) in
  Vector.element_size tag = Some size -> tag <> tag_of T ->
  1 <= d -> 5 + d * size <= len data ->
  Vector.scan_bytes v0 data = Panicked InterfaceConversion.
Proof.
  intros tag d Hsize Hmis Hd Hlen.
  assert (Hs : size = 4 \/ size = 8).
  { unfold Vector.element_size in Hsize.
    destruct ((byte.unsigned tag =? 1) || (byte.unsigned tag =? 3));
      [| destruct ((byte.unsigned tag =? 2) || (byte.unsigned tag =? 4))];
      inversion Hsize; auto. }
  unfold Vector.scan_bytes.
  replace (len data <? 5) with false by (symmetry; apply Z.ltb_ge; lia).
  change (index data 0) with (index data (Z.of_nat 0)).
  rewrite index_within by (unfold len in Hlen; lia).
  cbn [bind]. fold tag.
  rewrite reslice_within by lia. cbn [bind].
  rewrite Uint32_bytes
    by (cbn [elems]; rewrite length_firstn, length_skipn; unfold len in Hlen; lia).
  cbn [bind elems]. change (Z.to_nat 1) with 1%nat. change (Z.to_nat (5 - 1)) with 4%nat.
  fold d. rewrite Hsize.
  replace (len data <? 5 + d * size) with false by (symmetry; apply Z.ltb_ge; lia).
  destruct (Z.to_nat d) as [| k] eqn:Ek; [lia |].
  cbn [Vector.scan_elems].
  assert (G : exists a, Vector.get_elem tag data 5 = Return a /\
                        forall e : elem T, a <> to_any T e).
  { unfold Vector.element_size in Hsize. unfold Vector.get_elem.
    destruct (byte.unsigned tag =? 1) eqn:E1.
    { cbn [orb] in Hsize. inversion Hsize; subst size.
      rewrite reslice_within by lia. cbn [bind].
      rewrite Uint32_bytes
        by (rewrite length_firstn, length_skipn; unfold len in Hlen; lia).
      eexists; split; [reflexivity |]. intros e He.
      destruct T; try discriminate He. apply Hmis. apply byte.unsigned_inj.
      apply Z.eqb_eq in E1. exact E1. }
    destruct (byte.unsigned tag =? 2) eqn:E2.
    { destruct (byte.unsigned tag =? 3) eqn:E3;
        [apply Z.eqb_eq in E2, E3; lia |].
      cbn [orb] in Hsize. inversion Hsize; subst size.
      rewrite reslice_within by lia. cbn [bind].
      rewrite Uint64_bytes
        by (rewrite length_firstn, length_skipn; unfold len in Hlen; lia).
      eexists; split; [reflexivity |]. intros e He.
      destruct T; try discriminate He. apply Hmis. apply byte.unsigned_inj.
      apply Z.eqb_eq in E2. exact E2. }
    destruct (byte.unsigned tag =? 3) eqn:E3.
    { cbn [orb] in Hsize. inversion Hsize; subst size.
      rewrite reslice_within by lia. cbn [bind].
      rewrite Uint32_bytes
        by (rewrite length_firstn, length_skipn; unfold len in Hlen; lia).
      eexists; split; [reflexivity |]. intros e He.
      destruct T; try discriminate He. apply Hmis. apply byte.unsigned_inj.
      apply Z.eqb_eq in E3. exact E3. }
    destruct (byte.unsigned tag =? 4) eqn:E4; [| discriminate Hsize].
    cbn [orb] in Hsize. inversion Hsize; subst size.
    rewrite reslice_within by lia. cbn [bind].
    rewrite Uint64_bytes
      by (rewrite length_firstn, length_skipn; unfold len in Hlen; lia).
    eexists; split; [reflexivity |]. intros e He.
    destruct T; try discriminate He. apply Hmis. apply byte.unsigned_inj.
    apply Z.eqb_eq in E4. exact E4. }
  destruct G as [a [Ga Ha]]. rewrite Ga. cbn [bind].
  now rewrite (assert_mismatch T a Ha).
Qed.


(** The loop of [LineString.Scan] panics when the points announced do
    not fit in the capacity of the buffer. *)
Lemma scan_points_overrun (o : binary.ByteOrder) (data : slice) (n : nat) :
  forall (i : Z) (points : list Point),
    0 <= i -> 13 + 16 * (i + Z.of_nat n) <= 2 ^ 32 ->
    13 + 16 * i <= cap data -> cap data < 13 + 16 * (i + Z.of_nat n) ->
    Z.of_nat (length points) = i + Z.of_nat n ->
    LineString.scan_points n i o data points = Panicked SliceBoundsOutOfRange.
Proof.
  induction n as [| n IH]; intros i points Hi Hmax Hlo Hhi Hpts; [lia |].
  cbn [LineString.scan_points].
  assert (Hoff : uint32_wrap (13 + uint32_wrap (i * 16)) = 13 + 16 * i).
  { unfold uint32_wrap. rewrite (Z.mod_small (i * 16)) by lia.
    rewrite Z.mod_small by lia. lia. }
  rewrite Hoff.
  replace (uint32_wrap (13 + 16 * i + 8)) with (13 + 16 * i + 8)
    by (unfold uint32_wrap; symmetry; apply Z.mod_small; lia).
  destruct (Z_lt_le_dec (cap data) (13 + 16 * i + 8)) as [Hshort | Hfit].
  - now rewrite reslice_beyond_cap by exact Hshort.
  - destruct (reslice_ok data (13 + 16 * i) (13 + 16 * i + 8)) as (d & R & Ld & Cd);
      try lia.
    rewrite R. cbn [bind].
    destruct (decodePoint_by_capacity o d) as [Dpanic Dok]; [lia |].
    destruct (Z_lt_le_dec (cap d) 16) as [Hd | Hd].
    + now rewrite Dpanic by exact Hd.
    + destruct (Dok Hd) as [q Hq]. rewrite Hq. cbn [bind].
      unfold LineString.set_point.
      replace ((0 <=? i) && (i <? Z.of_nat (length points))) with true
        by (symmetry; apply andb_true_iff; split;
            [apply Z.leb_le | apply Z.ltb_lt]; lia).
      cbn [bind]. apply IH; try lia.
      rewrite length_app, length_firstn. cbn [length]. rewrite length_skipn. lia.
Qed.

(** [LineString.Scan] of a buffer of at least 29 bytes with a sound
    header whose point count does not fit in the capacity of the buffer
    panics; no error is returned. *)
Lemma LineString_scan_overrun (p0 : LineString) (data : slice) (o : binary.ByteOrder) :
  let count := binary.combine o (firstn 4 (skipn 9 (elems data))) in
  29 <= len data -> byte_order_of data = Return (inl o) ->
  binary.combine o (firstn 4 (skipn 5 (elems data))) = WKBTypeLineString ->
  count < 2 ^ 28 -> cap data < 13 + 16 * count ->
  LineString.scan_bytes p0 data = Panicked SliceBoundsOutOfRange.
Proof.
  intros count Hlen Ho Hty Hmax Hcap. pose proof (len_le_cap data) as Hc.
  unfold LineString.scan_bytes.
  replace (len data <? 29) with false by (symmetry; apply Z.ltb_ge; lia).
  rewrite Ho. cbn [bind].
  rewrite reslice_within by lia. cbn [bind].
  rewrite Uint32_bytes
    by (cbn [elems]; rewrite length_firstn, length_skipn; unfold len in Hlen; lia).
  cbn [bind elems]. change (Z.to_nat (9 - 5)) with 4%nat. change (Z.to_nat 5) with 5%nat.
  rewrite Hty. change (negb (WKBTypeLineString =? WKBTypeLineString)) with false.
  cbv iota.
  rewrite reslice_within by lia. cbn [bind].
  rewrite Uint32_bytes
    by (cbn [elems]; rewrite length_firstn, length_skipn; unfold len in Hlen; lia).
  cbn [bind elems]. change (Z.to_nat (13 - 9)) with 4%nat. change (Z.to_nat 9) with 9%nat.
  fold count.
  rewrite (scan_points_overrun o data (Z.to_nat count) 0); try lia; [reflexivity |].
  rewrite repeat_length. lia.
Qed.

(** C2, at its two inputs: [Vector[float64].Scan] of a binary vector of
    one float32 panics in the type assertion [elem.(T)]; [LineString.Scan]
    of a 29-byte buffer that announces two points panics in
    [data[offset:offset+8]]. Neither returns an error. *)
Theorem C2_decode_panics
  (ParseFloat : list byte -> Z -> float64 * option strconv.NumError)
  (ParseInt : list byte -> Z -> Z -> int64 * option strconv.NumError)
  (narrow : float64 -> float32) (spare_cap : nat -> nat)
  (v : Vector.t TFloat64) (p : LineString) :
  Vector.Scan ParseFloat ParseInt narrow v (VBytes (freeze float32_vector_wire))
  = Panicked InterfaceConversion /\
  LineString.Scan spare_cap p (VBytes (freeze two_points_announced))
  = Panicked SliceBoundsOutOfRange.
Proof. split; reflexivity. Qed.

(** ** NULL *)

Section ScanNil.
Variable T : Type.
Variable Unmarshal : list byte -> T -> T * option json.error.

(** C3, at JSON: [Scan(nil)] returns no error and does not touch the
    receiver, so a receiver that was valid stays valid, with its old
    document: the call does not leave it with [Valid = false]. *)
Theorem C3_JSON_Scan_nil_keeps_Valid (d : T) :
  JSON.Scan T Unmarshal (JSON.mk d true) VNil = Return (JSON.mk d true, None) /\
  ~ (exists q err,
       JSON.Scan T Unmarshal (JSON.mk d true) VNil = Return (q, err) /\
       JSON.Valid q = false).
Proof.
  split; [reflexivity |].
  intros (q & err & H & Hq). cbn [JSON.Scan] in H.
  injection H as <- _. discriminate Hq.
Qed.
End ScanNil.

(** The other codecs on [nil]: no error; [Vector.Scan] clears [Valid]
    and keeps the rest, the codecs without a flag keep the receiver. *)
Lemma Vector_Scan_nil
  (ParseFloat : list byte -> Z -> float64 * option strconv.NumError)
  (ParseInt : list byte -> Z -> Z -> int64 * option strconv.NumError)
  (narrow : float64 -> float32) (T : ElementType) (v : Vector.t T) :
  exists v',
    Vector.Scan ParseFloat ParseInt narrow v VNil = Return (v', None) /\
    Vector.Valid v' = false /\
    Vector.Data v' = Vector.Data v /\ Vector.Dimension v' = Vector.Dimension v.
Proof. eexists. repeat split. Qed.

Lemma Point_Scan_nil (convertFloat : list byte -> option float64)
  (spare_cap : nat -> nat) (p : Point) :
  Point.Scan convertFloat spare_cap p VNil = Return (p, None).
Proof. reflexivity. Qed.

Lemma LineString_Scan_nil (spare_cap : nat -> nat) (p : LineString) :
  LineString.Scan spare_cap p VNil = Return (p, None).
Proof. reflexivity. Qed.

Lemma StringArray_Scan_nil
  (other : list byte -> StringArray.t -> StringArray.t * option json.error)
  (p : StringArray.t) :
  StringArray.Scan other p VNil = Return (p, None).
Proof. reflexivity. Qed.

(** ** StringArray *)

(** C8, as amended: [Value] never gives NULL or an error. A slice that
    is not nil is written as a bracketed text, [[]] when it has no
    elements; the nil slice is written as [null]. For a list without
    elements, [Scan] of the text written gives the list back with no
    error. *)
Theorem C8_string_array_encoding (quote : list byte -> list byte)
  (other : list byte -> StringArray.t -> StringArray.t * option json.error)
  (p p0 : StringArray.t) :
  (exists text,
     StringArray.Value quote p = Return (VBytes (freeze text), None) /\
     text <> @nil byte /\
     (forall l, p = Some l -> text = [x5b] ++ json.join [x2c] (map quote l) ++ [x5d]) /\
     (p = None -> text = json.null_literal)) /\
  (StringArray.length_of p = 0%nat ->
   exists text,
     StringArray.Value quote p = Return (VBytes (freeze text), None) /\
     (p = Some [] -> text = brackets) /\
     StringArray.Scan other p0 (VBytes (freeze text)) = Return (p, None)).
Proof.
  split.
  - destruct p as [l |]; eexists; (split; [reflexivity |]);
      (split; [discriminate |]); split; intros; congruence.
  - destruct p as [[| s l] |]; cbn [StringArray.length_of length]; intros H;
      try discriminate; eexists; (split; [reflexivity |]); split;
      solve [reflexivity | discriminate | congruence].
Qed.

Lemma C8_string_array_encoding_witness :
  StringArray.length_of (Some []) = 0%nat /\
  exists text,
    StringArray.Value bare_quote (Some []) = Return (VBytes (freeze text), None) /\
    ((Some [] : StringArray.t) = Some [] -> text = brackets) /\
    StringArray.Scan no_unmarshal None (VBytes (freeze text)) = Return (Some [], None).
Proof.
  split; [reflexivity |].
  exact (proj2 (C8_string_array_encoding bare_quote no_unmarshal (Some []) None) eq_refl).
Defined.

(** C8 as stated fails at the nil slice, an empty list: it is written
    as [null], not as [[]]. *)
Lemma C8_nil_slice_is_written_as_null :
  StringArray.length_of None = 0%nat /\
  StringArray.Value bare_quote None = Return (VBytes (freeze json.null_literal), None) /\
  json.null_literal <> brackets.
Proof. split; [reflexivity |]. split; [reflexivity | discriminate]. Qed.

(** ** The literals of the specification *)

(** The patterns of [central_park] and [path3] are the doubles of the
    decimal literals -73.9654, 40.7829, -73.9632, 40.7845, -73.9610 and
    40.7861. *)
Lemma literals_of_the_paths :
  is_literal64 (X central_park) (-739654) 10000 = true /\
  is_literal64 (Y central_park) 407829 10000 = true /\
  map (fun p => (is_literal64 (X p) (-739654) 10000, is_literal64 (Y p) 407829 10000))
      (firstn 1 (Points path3)) = [(true, true)] /\
  map (fun p => (is_literal64 (X p) (-739632) 10000, is_literal64 (Y p) 407845 10000))
      (firstn 1 (skipn 1 (Points path3))) = [(true, true)] /\
  map (fun p => (is_literal64 (X p) (-739610) 10000, is_literal64 (Y p) 407861 10000))
      (skipn 2 (Points path3)) = [(true, true)].
Proof. vm_compute. repeat split. Qed.

(* ===================================================================== *)
(** * Part VII: further properties of the codecs *)
(* ===================================================================== *)

(** ** Point: the binary decoder on every input *)

Lemma firstn_plus {A} (a b : nat) (l : list A) :
  firstn (a + b) l = firstn a l ++ firstn b (skipn a l).
Proof.
  revert l. induction a as [| a IH]; intros [| x l]; cbn [Nat.add firstn skipn app];
    try reflexivity.
  - now rewrite firstn_nil.
  - now rewrite IH.
Qed.

Lemma window_split (data : list byte) (lo mid hi : nat) :
  (lo <= mid)%nat -> (mid <= hi)%nat ->
  window data lo hi = window data lo mid ++ window data mid hi.
Proof.
  intros H1 H2. unfold window.
  replace (hi - lo)%nat with ((mid - lo) + (hi - mid))%nat by lia.
  rewrite firstn_plus, skipn_skipn.
  now replace (mid - lo + lo)%nat with mid by lia.
Qed.

Lemma window_length (data : list byte) (lo hi : nat) :
  (hi <= length data)%nat -> length (window data lo hi) = (hi - lo)%nat.
Proof.
  intros H. unfold window. rewrite length_firstn, length_skipn. lia.
Qed.

Lemma reslice_window (data sp : list byte) (lo hi : nat) :
  (lo <= hi)%nat -> (hi <= length data)%nat ->
  reslice {| elems := data; spare := sp |} (Z.of_nat lo) (Z.of_nat hi)
  = Return {| elems := window data lo hi; spare := skipn hi data ++ sp |}.
Proof.
  intros H1 H2. rewrite reslice_within by (unfold len; cbn [elems]; lia).
  cbn [elems spare]. unfold window.
  now rewrite <- Nat2Z.inj_sub, !Nat2Z.id by lia.
Qed.

Lemma byte_order_of_window (data sp : list byte) :
  (5 <= length data)%nat ->
  byte_order_of {| elems := data; spare := sp |}
  = Return match order_of_flag (nth 4 data x00) with
           | Some o => inl o
           | None => inr (InvalidByteOrder (nth 0 data x00))
           end.
Proof.
  intros H. unfold byte_order_of, order_of_flag.
  rewrite (index_within _ 4) by (cbn [elems]; lia). cbn [bind elems].
  destruct (byte.unsigned (nth 4 data x00) =? 0); [reflexivity |].
  destruct (byte.unsigned (nth 4 data x00) =? 1); [reflexivity |].
  change (index {| elems := data; spare := sp |} 0)
    with (index {| elems := data; spare := sp |} (Z.of_nat 0)).
  rewrite index_within by (cbn [elems]; lia). reflexivity.
Qed.

Section PointEveryInput.
Variable convertFloat : list byte -> option float64.
Variable spare_cap : nat -> nat.

Lemma Point_scan_bytes_binary (p : Point) (data sp : list byte) :
  (25 <= length data)%nat -> is_P (nth 0 data x00) = false ->
  Point.scan_bytes convertFloat p {| elems := data; spare := sp |}
  = Return (wkb_point p data).
Proof.
  intros Hlen HP. unfold Point.scan_bytes, len. cbn [elems].
  replace (5 <? Z.of_nat (length data)) with true by (symmetry; apply Z.ltb_lt; lia).
  change (index {| elems := data; spare := sp |} 0)
    with (index {| elems := data; spare := sp |} (Z.of_nat 0)).
  rewrite index_within by (cbn [elems]; lia). cbn [bind elems].
  unfold is_P in HP. rewrite HP.
  replace (Z.of_nat (length data) <? 25) with false by (symmetry; apply Z.ltb_ge; lia).
  rewrite byte_order_of_window by lia. cbn [bind]. unfold wkb_point.
  destruct (order_of_flag (nth 4 data x00)) as [o |]; [| reflexivity].
  pose proof (reslice_window data sp 5 9 ltac:(lia) ltac:(lia)) as E.
  change (Z.of_nat 5) with 5 in E. change (Z.of_nat 9) with 9 in E.
  rewrite E. clear E. cbn [bind].
  rewrite Uint32_bytes by (apply window_length; lia). cbn [bind].
  destruct (binary.combine o (window data 5 9) =? WKBTypePoint); [| reflexivity].
  cbn [negb].
  pose proof (reslice_window data sp 9 25 ltac:(lia) ltac:(lia)) as E.
  change (Z.of_nat 9) with 9 in E. change (Z.of_nat 25) with 25 in E.
  rewrite E. clear E. cbn [bind].
  rewrite (decodePoint_backing o _ (window data 9 17) (window data 17 25)
             (skipn 25 data ++ sp)).
  - reflexivity.
  - unfold backing. cbn [elems spare].
    rewrite (window_split data 9 17 25) by lia. now rewrite <- app_assoc.
  - apply window_length. lia.
  - apply window_length. lia.
Qed.

(** [Point.Scan] of a binary input of at least 25 bytes, a string or a
    [[]byte] of any capacity, is the function [wkb_point] of the bytes. *)
Lemma Point_Scan_wkb_point (p : Point) (v : value) (data : list byte) :
  carries v data -> (25 <= length data)%nat -> is_P (nth 0 data x00) = false ->
  Point.Scan convertFloat spare_cap p v = Return (wkb_point p data).
Proof.
  intros [-> | [sp ->]] Hlen HP; cbn [Point.Scan]; now apply Point_scan_bytes_binary.
Qed.

(** X2: on a binary input of at least 25 bytes, [Point.Scan] refuses a
    byte-order flag [data[4]] other than 0 and 1 with an error that
    carries [data[0]], the first byte of the SRID, and not the flag; and
    it refuses a geometry type other than 1 with an error that carries
    the type it read in the byte order of the flag. The receiver is left
    as it was in both cases. *)
Theorem Point_Scan_header_errors (p : Point) (v : value) (data : list byte) :
  carries v data -> (25 <= length data)%nat -> is_P (nth 0 data x00) = false ->
  (order_of_flag (nth 4 data x00) = None ->
   Point.Scan convertFloat spare_cap p v
   = Return (p, Some (InvalidByteOrder (nth 0 data x00)))) /\
  (forall o, order_of_flag (nth 4 data x00) = Some o ->
     binary.combine o (window data 5 9) <> WKBTypePoint ->
     Point.Scan convertFloat spare_cap p v
     = Return (p, Some (WrongGeometryType 1 (binary.combine o (window data 5 9))))).
Proof.
  intros Hv Hlen HP. rewrite (Point_Scan_wkb_point p v data Hv Hlen HP).
  unfold wkb_point. split.
  - intros ->. reflexivity.
  - intros o -> Hty. apply Z.eqb_neq in Hty. now rewrite Hty.
Qed.

Lemma wkb_point_firstn (p : Point) (data : list byte) :
  (25 <= length data)%nat -> wkb_point p (firstn 25 data) = wkb_point p data.
Proof.
  intros Hlen. unfold wkb_point, window.
  assert (N : forall i, (i < 25)%nat -> nth i (firstn 25 data) x00 = nth i data x00).
  { intros i Hi. rewrite <- (firstn_skipn 25 data) at 2.
    rewrite app_nth1; [reflexivity | rewrite length_firstn; lia]. }
  assert (W : forall lo n, (lo + n <= 25)%nat ->
            firstn n (skipn lo (firstn 25 data)) = firstn n (skipn lo data)).
  { intros lo n Hn. rewrite <- (firstn_skipn 25 data) at 2.
    rewrite skipn_app, firstn_app.
    replace (n - length (skipn lo (firstn 25 data)))%nat with 0%nat
      by (rewrite length_skipn, length_firstn; lia).
    cbn [firstn]. now rewrite app_nil_r. }
  rewrite !N by lia.
  change (9 - 5)%nat with 4%nat. change (17 - 9)%nat with 8%nat.
  change (25 - 17)%nat with 8%nat.
  now rewrite !W by lia.
Qed.

(** X3: [Point.Scan] of a binary input reads the first 25 bytes and
    nothing else: what follows them changes neither the point decoded
    nor the error returned. *)
Theorem Point_Scan_reads_25_bytes (p : Point) (v : value) (data : list byte) :
  carries v data -> (25 <= length data)%nat -> is_P (nth 0 data x00) = false ->
  Point.Scan convertFloat spare_cap p v
  = Point.Scan convertFloat spare_cap p (VBytes (freeze (firstn 25 data))).
Proof.
  intros Hv Hlen HP. rewrite (Point_Scan_wkb_point p v data Hv Hlen HP).
  rewrite (Point_Scan_wkb_point p (VBytes (freeze (firstn 25 data))) (firstn 25 data)).
  - now rewrite wkb_point_firstn.
  - right. exists []. reflexivity.
  - rewrite length_firstn. lia.
  - destruct data as [| b data]; [cbn [length] in Hlen; lia | exact HP].
Qed.

Lemma Point_scan_bytes_too_short (p : Point) (data : slice) :
  len data < 25 -> (5 < len data -> is_P (nth 0 (elems data) x00) = false) ->
  Point.scan_bytes convertFloat p data = Return (p, Some (WKBTooShort (len data))).
Proof.
  intros Hlen HP. unfold Point.scan_bytes.
  destruct (5 <? len data) eqn:E.
  - apply Z.ltb_lt in E.
    change (index data 0) with (index data (Z.of_nat 0)).
    rewrite index_within by (unfold len in E; lia). cbn [bind].
    specialize (HP E). unfold is_P in HP. rewrite HP.
    now replace (len data <? 25) with true by (symmetry; apply Z.ltb_lt; lia).
  - cbn [bind].
    now replace (len data <? 25) with true by (symmetry; apply Z.ltb_lt; lia).
Qed.

(** The three ways of [Point.Scan] on bytes: the text parser, the
    refusal of a short input, the binary decoder. *)
Lemma Point_scan_bytes_cases (p : Point) (data : slice) :
  (exists r, Point.scan_bytes convertFloat p data = Return (r, None)) \/
  (exists e, Point.scan_bytes convertFloat p data = Return (p, Some e)).
Proof.
  destruct (Z_lt_le_dec 5 (len data)) as [H5 | H5].
  - destruct (is_P (nth 0 (elems data) x00)) eqn:HP.
    + unfold Point.scan_bytes.
      replace (5 <? len data) with true by (symmetry; apply Z.ltb_lt; lia).
      change (index data 0) with (index data (Z.of_nat 0)).
      rewrite index_within by (unfold len in H5; lia). cbn [bind].
      unfold is_P in HP. rewrite HP.
      destruct (fmt.Sscanf_POINT convertFloat (elems data)) as [[x y] | e0].
      * left. eexists. reflexivity.
      * destruct (fmt.Sscanf_lenient convertFloat (elems data)) as [[x y] | e].
        -- left. eexists. reflexivity.
        -- right. eexists. reflexivity.
    + destruct (Z_lt_le_dec (len data) 25) as [H25 | H25].
      * right. eexists. apply Point_scan_bytes_too_short; [lia | auto].
      * destruct data as [d sp]. unfold len in H25. cbn [elems] in *.
        rewrite Point_scan_bytes_binary by (try lia; assumption).
        unfold wkb_point.
        destruct (order_of_flag (nth 4 d x00)) as [o |].
        -- destruct (binary.combine o (window d 5 9) =? WKBTypePoint).
           ++ left. eexists. reflexivity.
           ++ right. eexists. reflexivity.
        -- right. eexists. reflexivity.
  - right. eexists. apply Point_scan_bytes_too_short; lia.
Qed.

(** X1: [Point.Scan] never panics, whatever value it is given, and
    when it returns an error the receiver is as it was before the
    call. *)
Theorem Point_Scan_returns (p : Point) (v : value) :
  exists q err,
    Point.Scan convertFloat spare_cap p v = Return (q, err) /\
    (err <> None -> q = p).
Proof.
  destruct v as [| s | b | ty]; cbn [Point.Scan].
  - exists p, None. split; [reflexivity | congruence].
  - destruct (Point_scan_bytes_cases p (bytes_of_string spare_cap s)) as [[r H] | [e H]];
      rewrite H; eexists; eexists; (split; [reflexivity | congruence]).
  - destruct (Point_scan_bytes_cases p b) as [[r H] | [e H]];
      rewrite H; eexists; eexists; (split; [reflexivity | congruence]).
  - eexists; eexists; split; [reflexivity | congruence].
Qed.
End PointEveryInput.

Lemma Point_Scan_header_errors_witness :
  Point.Scan no_float exact_cap central_park (VString (repeat x07 25))
  = Return (central_park, Some (InvalidByteOrder x07)) /\
  Point.Scan no_float exact_cap central_park
    (VBytes (freeze ([x00; x00; x00; x00; x00; x00; x00; x00; x02] ++ repeat x00 16)))
  = Return (central_park, Some (WrongGeometryType 1 2)).
Proof.
  split.
  - apply (proj1 (Point_Scan_header_errors no_float exact_cap central_park
                    (VString (repeat x07 25)) (repeat x07 25)
                    (or_introl eq_refl) ltac:(cbn [repeat length]; lia) eq_refl)).
    reflexivity.
  - apply (proj2 (Point_Scan_header_errors no_float exact_cap central_park
                    (VBytes (freeze ([x00; x00; x00; x00; x00; x00; x00; x00; x02]
                                       ++ repeat x00 16)))
                    ([x00; x00; x00; x00; x00; x00; x00; x00; x02] ++ repeat x00 16)
                    (or_intror (ex_intro _ [] eq_refl))
                    ltac:(cbn [repeat length app]; lia) eq_refl) binary.BigEndian).
    + reflexivity.
    + vm_compute. discriminate.
Defined.

Lemma Point_Scan_reads_25_bytes_witness :
  Point.Scan no_float exact_cap nan_point (VString (point_wkb central_park ++ [xff; xff]))
  = Point.Scan no_float exact_cap nan_point
      (VBytes (freeze (firstn 25 (point_wkb central_park ++ [xff; xff])))).
Proof.
  apply (Point_Scan_reads_25_bytes no_float exact_cap nan_point
           (VString (point_wkb central_park ++ [xff; xff]))
           (point_wkb central_park ++ [xff; xff])).
  - left. reflexivity.
  - rewrite length_app, point_wkb_length. cbn [length]. lia.
  - reflexivity.
Defined.

(** ** Point and LineString: each refuses the bytes of the other *)

Lemma path_wkb_length (l : list Point) :
  length (path_wkb l) = (13 + 16 * length l)%nat.
Proof.
  unfold path_wkb. rewrite !length_app, !split_length, flat_map_point_bytes_length.
  cbn [length]. lia.
Qed.

(** X4: the two geometry decoders refuse each other's encoding with an
    error and leave the receiver alone. [LineString.Scan] finds the 25
    bytes of a point too short; [Point.Scan] finds the 13 bytes of the
    empty path too short and reports the geometry type 2 for every
    other path. *)
Theorem Point_and_LineString_do_not_mix (convertFloat : list byte -> option float64)
  (spare_cap : nat -> nat) (p p0 : Point) (l l0 : LineString) :
  (exists b,
     Point.Value p = Return (VBytes b, None) /\
     LineString.Scan spare_cap l0 (VBytes b) = Return (l0, Some (WKBTooShort 25))) /\
  (exists b,
     LineString.Value l = Return (VBytes b, None) /\
     Point.Scan convertFloat spare_cap p0 (VBytes b)
     = Return (p0, Some (match Points l with
                         | [] => WKBTooShort 13
                         | _ :: _ => WrongGeometryType 1 WKBTypeLineString
                         end))).
Proof.
  split.
  - exists (freeze (point_wkb p)). split; [apply Point_Value_bytes |].
    cbn [LineString.Scan]. now rewrite LineString_scan_bytes_short.
  - exists (freeze (path_wkb (Points l))). split; [apply LineString_Value_wkb |].
    destruct (Points l) as [| q rest] eqn:E.
    + cbn [Point.Scan]. reflexivity.
    + rewrite (Point_Scan_wkb_point convertFloat spare_cap p0 _ (path_wkb (q :: rest))).
      * unfold wkb_point, path_wkb, window. cbn [app nth skipn].
        change (order_of_flag x01) with (Some binary.LittleEndian). cbv iota.
        change (9 - 5)%nat with 4%nat. rewrite <- app_assoc.
        rewrite (firstn_app_exact (binary.split binary.LittleEndian 4 WKBTypeLineString)).
        rewrite combine_split. reflexivity.
      * right. exists []. reflexivity.
      * rewrite path_wkb_length. cbn [length]. lia.
      * reflexivity.
Qed.

(** ** LineString: the decoder on every buffer with a sound header *)

Lemma window_backing (bs : list byte) (lo hi : nat) :
  (lo <= hi)%nat -> (hi <= length bs)%nat ->
  bs = firstn lo bs ++ window bs lo hi ++ skipn hi bs.
Proof.
  intros H1 H2. unfold window.
  rewrite <- (firstn_skipn lo bs) at 1. f_equal.
  rewrite <- (firstn_skipn (hi - lo) (skipn lo bs)) at 1. f_equal.
  rewrite skipn_skipn. f_equal. lia.
Qed.

Lemma decodePoint_at (o : binary.ByteOrder) (data : slice) (off : nat) :
  Z.of_nat off + 16 <= cap data ->
  d <- reslice data (Z.of_nat off) (Z.of_nat off + 8) ;; decodePoint o d
  = Return (point_at o (backing data) off).
Proof.
  intros Hcap. rewrite cap_backing in Hcap.
  pose proof (window_backing (backing data) off (off + 8) ltac:(lia) ltac:(lia)) as B.
  pose proof (reslice_backing data _ _ _ B) as R.
  rewrite length_firstn, window_length in R by lia.
  replace (Init.Nat.min off (length (backing data))) with off in R by lia.
  replace (Z.of_nat (off + 8 - off)) with 8 in R by lia.
  rewrite R. cbn [bind].
  apply decodePoint_backing with (rest := skipn (off + 16) (backing data)).
  - unfold backing at 1. cbn [elems spare].
    rewrite <- (firstn_skipn 8 (skipn (off + 8) (backing data))) at 1.
    rewrite skipn_skipn. unfold window.
    replace (off + 8 + 8 - (off + 8))%nat with 8%nat by lia.
    replace (off + 8 - off)%nat with 8%nat by lia.
    replace (8 + (off + 8))%nat with (off + 16)%nat by lia.
    replace (off + 8 + 8)%nat with (off + 16)%nat by lia.
    replace (off + 16 - (off + 8))%nat with 8%nat by lia.
    reflexivity.
  - rewrite window_length; lia.
  - rewrite window_length; lia.
Qed.

(** The loop of [LineString.Scan] on a buffer whose capacity holds the
    points it announces: the points are those of the backing array. *)
Lemma scan_points_at (o : binary.ByteOrder) (data : slice) (n : nat) :
  forall (i : nat) (points : list Point),
    13 + 16 * (Z.of_nat i + Z.of_nat n) <= 2 ^ 32 ->
    13 + 16 * (Z.of_nat i + Z.of_nat n) <= cap data ->
    length points = (i + n)%nat ->
    LineString.scan_points n (Z.of_nat i) o data points
    = Return (firstn i points
                ++ map (fun k => point_at o (backing data) (13 + 16 * k)) (seq i n)).
Proof.
  induction n as [| n IH]; intros i points Hmax Hcap Hlen.
  - cbn [LineString.scan_points seq map]. rewrite app_nil_r, firstn_all2 by lia.
    reflexivity.
  - cbn [LineString.scan_points].
    assert (Hoff : uint32_wrap (13 + uint32_wrap (Z.of_nat i * 16))
                   = Z.of_nat (13 + 16 * i)).
    { unfold uint32_wrap. rewrite (Z.mod_small (Z.of_nat i * 16)) by lia.
      rewrite Z.mod_small by lia. lia. }
    rewrite Hoff.
    replace (uint32_wrap (Z.of_nat (13 + 16 * i) + 8)) with (Z.of_nat (13 + 16 * i) + 8)
      by (unfold uint32_wrap; rewrite Z.mod_small; lia).
    pose proof (decodePoint_at o data (13 + 16 * i) ltac:(lia)) as D.
    destruct (reslice data (Z.of_nat (13 + 16 * i)) (Z.of_nat (13 + 16 * i) + 8))
      as [d | pn]; [| discriminate D].
    cbn [bind] in D |- *. rewrite D. cbn [bind].
    unfold LineString.set_point.
    replace ((0 <=? Z.of_nat i) && (Z.of_nat i <? Z.of_nat (length points))) with true
      by (symmetry; apply andb_true_iff; split; [apply Z.leb_le | apply Z.ltb_lt]; lia).
    cbn [bind]. rewrite Nat2Z.id.
    replace (Z.of_nat i + 1) with (Z.of_nat (S i)) by lia.
    rewrite IH.
    + cbn [seq map].
      assert (Hf : length (firstn i points) = i) by (rewrite length_firstn; lia).
      replace (S i) with (length (firstn i points) + 1)%nat at 1 by lia.
      rewrite firstn_app_2. cbn [firstn]. rewrite <- app_assoc. reflexivity.
    + lia.
    + lia.
    + rewrite length_app, length_firstn. cbn [length]. rewrite length_skipn. lia.
Qed.


(** [LineString.Scan] on bytes up to its loop: the length check, the
    byte-order flag, the geometry type and the point count. *)
Lemma LineString_scan_bytes_header (p : LineString) (data sp : list byte) :
  (29 <= length data)%nat ->
  LineString.scan_bytes p {| elems := data; spare := sp |}
  = match order_of_flag (nth 4 data x00) with
    | None => Return (p, Some (InvalidByteOrder (nth 0 data x00)))
    | Some o =>
      if binary.combine o (window data 5 9) =? WKBTypeLineString
      then
        let numPoints := binary.combine o (window data 9 13) in
        points <- LineString.scan_points (Z.to_nat numPoints) 0 o
                    {| elems := data; spare := sp |}
                    (repeat LineString.zeroPoint (Z.to_nat numPoints)) ;;
        Return ({| Points := points |}, None)
      else Return (p, Some (WrongGeometryType 2 (binary.combine o (window data 5 9))))
    end.
Proof.
  intros Hlen. unfold LineString.scan_bytes, len. cbn [elems].
  replace (Z.of_nat (length data) <? 29) with false by (symmetry; apply Z.ltb_ge; lia).
  rewrite byte_order_of_window by lia. cbn [bind].
  destruct (order_of_flag (nth 4 data x00)) as [o |]; [| reflexivity].
  pose proof (reslice_window data sp 5 9 ltac:(lia) ltac:(lia)) as E.
  change (Z.of_nat 5) with 5 in E. change (Z.of_nat 9) with 9 in E.
  rewrite E. clear E. cbn [bind].
  rewrite Uint32_bytes by (apply window_length; lia). cbn [bind].
  destruct (binary.combine o (window data 5 9) =? WKBTypeLineString); [| reflexivity].
  cbn [negb].
  pose proof (reslice_window data sp 9 13 ltac:(lia) ltac:(lia)) as E.
  change (Z.of_nat 9) with 9 in E. change (Z.of_nat 13) with 13 in E.
  rewrite E. clear E. cbn [bind].
  rewrite Uint32_bytes by (apply window_length; lia). cbn [bind].
  reflexivity.
Qed.

Lemma LineString_scan_bytes_short_or_header (p : LineString) (data : slice) :
  (exists e, LineString.scan_bytes p data = Return (p, Some e)) \/
  (exists pn, LineString.scan_bytes p data = Panicked pn) \/
  (exists q, LineString.scan_bytes p data = Return (q, None)).
Proof.
  destruct (Z_lt_le_dec (len data) 29) as [H | H].
  - left. eexists. now apply LineString_scan_bytes_short.
  - destruct data as [d sp]. unfold len in H. cbn [elems] in H.
    rewrite LineString_scan_bytes_header by lia.
    destruct (order_of_flag (nth 4 d x00)) as [o |].
    + destruct (binary.combine o (window d 5 9) =? WKBTypeLineString).
      * cbv zeta.
        destruct (LineString.scan_points _ _ _ _ _) as [pts | pn]; cbn [bind].
        -- right. right. eexists. reflexivity.
        -- right. left. eexists. reflexivity.
      * left. eexists. reflexivity.
    + left. eexists. reflexivity.
Qed.

Section LineStringEveryInput.
Variable spare_cap : nat -> nat.

(** X5: on a buffer of at least 29 bytes with a sound header,
    [LineString.Scan] reads as many points as the header announces from
    the array behind the slice, whether they lie within the length of
    the slice or only within its capacity: it succeeds whenever the
    capacity holds the points (fewer than [2^28] of them). *)
Theorem LineString_Scan_reads_the_capacity (p0 : LineString) (data : slice)
  (o : binary.ByteOrder) :
  let numPoints := binary.combine o (window (elems data) 9 13) in
  29 <= len data ->
  order_of_flag (nth 4 (elems data) x00) = Some o ->
  binary.combine o (window (elems data) 5 9) = WKBTypeLineString ->
  numPoints < 2 ^ 28 -> 13 + 16 * numPoints <= cap data ->
  LineString.Scan spare_cap p0 (VBytes data)
  = Return ({| Points := points_at o (backing data) (Z.to_nat numPoints) |}, None).
Proof.
  intros numPoints Hlen Ho Hty Hmax Hcap. cbn [LineString.Scan].
  pose proof (len_le_cap data) as Hc.
  destruct data as [d sp]. unfold len in Hlen. cbn [elems] in *.
  rewrite LineString_scan_bytes_header by lia.
  rewrite Ho, Hty. change (WKBTypeLineString =? WKBTypeLineString) with true.
  cbv iota zeta. subst numPoints.
  set (c := binary.combine o (window d 9 13)) in *.
  assert (Hn : Z.of_nat (Z.to_nat c) = Z.max 0 c) by lia.
  unfold len, cap in *. cbn [elems spare] in *.
  rewrite (scan_points_at o _ (Z.to_nat c) 0).
  - reflexivity.
  - rewrite Hn. lia.
  - rewrite Hn. unfold cap. cbn [elems spare]. lia.
  - now rewrite repeat_length.
Qed.

(** X6: on a buffer of at least 29 bytes with a sound header,
    [LineString.Scan] panics, and returns no error, whenever the buffer
    announces more points than its capacity holds. *)
Theorem LineString_Scan_panics_beyond_the_capacity (p0 : LineString) (data : slice)
  (o : binary.ByteOrder) :
  let numPoints := binary.combine o (window (elems data) 9 13) in
  29 <= len data ->
  order_of_flag (nth 4 (elems data) x00) = Some o ->
  binary.combine o (window (elems data) 5 9) = WKBTypeLineString ->
  numPoints < 2 ^ 28 -> cap data < 13 + 16 * numPoints ->
  LineString.Scan spare_cap p0 (VBytes data) = Panicked SliceBoundsOutOfRange.
Proof.
  intros numPoints Hlen Ho Hty Hmax Hcap. cbn [LineString.Scan].
  apply (LineString_scan_overrun p0 data o); try assumption.
  destruct data as [d sp]. unfold len in Hlen. cbn [elems] in *.
  rewrite byte_order_of_window by lia. now rewrite Ho.
Qed.

(** X7: when [LineString.Scan] returns an error, whatever value it was
    given, the receiver is as it was before the call. *)
Theorem LineString_Scan_error_keeps_receiver (p q : LineString) (v : value) (e : error) :
  LineString.Scan spare_cap p v = Return (q, Some e) -> q = p.
Proof.
  assert (B : forall data, LineString.scan_bytes p data = Return (q, Some e) -> q = p).
  { intros data H.
    destruct (LineString_scan_bytes_short_or_header p data)
      as [[e' E] | [[pn E] | [q' E]]]; rewrite E in H; congruence. }
  destruct v as [| s | b | ty]; cbn [LineString.Scan]; intros H.
  - congruence.
  - now apply B in H.
  - now apply B in H.
  - congruence.
Qed.

(** X8: on an input of at least 29 bytes, [LineString.Scan] refuses a
    byte-order flag [data[4]] other than 0 and 1 with an error that
    carries [data[0]], and a geometry type other than 2 with an error
    that carries the type it read in the byte order of the flag. *)
Theorem LineString_Scan_header_errors (p : LineString) (v : value) (data : list byte) :
  carries v data -> (29 <= length data)%nat ->
  (order_of_flag (nth 4 data x00) = None ->
   LineString.Scan spare_cap p v
   = Return (p, Some (InvalidByteOrder (nth 0 data x00)))) /\
  (forall o, order_of_flag (nth 4 data x00) = Some o ->
     binary.combine o (window data 5 9) <> WKBTypeLineString ->
     LineString.Scan spare_cap p v
     = Return (p, Some (WrongGeometryType 2 (binary.combine o (window data 5 9))))).
Proof.
  intros Hv Hlen.
  assert (E : LineString.Scan spare_cap p v
              = LineString.scan_bytes p
                  {| elems := data;
                     spare := match v with
                              | VBytes b => spare b
                              | _ => repeat x00 (spare_cap (length data))
                              end |}).
  { destruct Hv as [-> | [sp ->]]; reflexivity. }
  rewrite E, LineString_scan_bytes_header by exact Hlen. split.
  - intros ->. reflexivity.
  - intros o -> Hty. apply Z.eqb_neq in Hty. now rewrite Hty.
Qed.
End LineStringEveryInput.

Lemma window_at (a b c : list byte) (lo hi : nat) :
  length a = lo -> length b = (hi - lo)%nat -> window (a ++ b ++ c) lo hi = b.
Proof.
  intros <- H. unfold window. rewrite <- H. apply window_app.
Qed.

Lemma point_at_bytes (p : Point) (pre rest : list byte) :
  point_at binary.LittleEndian (pre ++ point_bytes p ++ rest) (length pre) = p.
Proof.
  unfold point_at, point_bytes. rewrite <- !app_assoc.
  rewrite (window_at pre _ _ _ _ eq_refl)
    by (rewrite split_length; lia).
  rewrite (app_assoc pre).
  rewrite (window_at (pre ++ _) _ _ (length pre + 8) _)
    by (rewrite ?length_app, split_length; lia).
  rewrite !combine_split, !Float64_bits_roundtrip. now destruct p.
Qed.

Lemma points_at_path (l : list Point) :
  forall (pre rest : list byte) (i : nat),
    length pre = (13 + 16 * i)%nat ->
    map (fun k => point_at binary.LittleEndian (pre ++ flat_map point_bytes l ++ rest)
                    (13 + 16 * k)) (seq i (length l))
    = l.
Proof.
  induction l as [| p l IH]; intros pre rest i Hpre; [reflexivity |].
  cbn [length seq map flat_map]. rewrite <- app_assoc. f_equal.
  - rewrite <- Hpre. apply point_at_bytes.
  - rewrite (app_assoc pre). apply IH.
    rewrite length_app, point_bytes_length. lia.
Qed.

(** [LineString.Scan] on the bytes [Value] writes for [l], followed by
    any bytes and in a slice of any capacity. *)
Lemma LineString_scan_bytes_path (l : list Point) (p0 : LineString) (rest sp : list byte) :
  (1 <= length l)%nat -> Z.of_nat (length l) < 2 ^ 28 ->
  LineString.scan_bytes p0 {| elems := path_wkb l ++ rest; spare := sp |}
  = Return ({| Points := l |}, None).
Proof.
  intros H1 Hmax.
  rewrite LineString_scan_bytes_header
    by (rewrite length_app, path_wkb_length; lia).
  assert (Hty : window (path_wkb l ++ rest) 5 9
                = binary.split binary.LittleEndian 4 WKBTypeLineString).
  { unfold path_wkb. rewrite <- !app_assoc.
    apply (window_at [x00; x00; x00; x00; x01]); [reflexivity |].
    now rewrite split_length. }
  assert (Hn : window (path_wkb l ++ rest) 9 13
               = binary.split binary.LittleEndian 4 (uint32_wrap (Z.of_nat (length l)))).
  { unfold path_wkb. rewrite <- !app_assoc.
    rewrite (app_assoc [x00; x00; x00; x00; x01]).
    apply window_at; [rewrite length_app, split_length; reflexivity |].
    now rewrite split_length. }
  change (nth 4 (path_wkb l ++ rest) x00) with x01.
  change (order_of_flag x01) with (Some binary.LittleEndian). cbv iota.
  rewrite Hty, Hn, !combine_split.
  change (WKBTypeLineString mod 2 ^ (Z.of_nat 4 * 8) =? WKBTypeLineString) with true.
  cbv iota zeta. change (Z.of_nat 4 * 8) with 32.
  replace (uint32_wrap (Z.of_nat (length l)) mod 2 ^ 32) with (Z.of_nat (length l))
    by (unfold uint32_wrap; rewrite Z.mod_mod, Z.mod_small; lia).
  rewrite Nat2Z.id.
  rewrite (scan_points_at binary.LittleEndian _ (length l) 0).
  - cbn [bind firstn app]. unfold backing. cbn [elems spare].
    unfold path_wkb at 1. rewrite <- (app_assoc _ (flat_map point_bytes l)), <- app_assoc.
    rewrite <- (app_assoc (flat_map point_bytes l)).
    rewrite points_at_path; [reflexivity |].
    rewrite !length_app, !split_length. reflexivity.
  - lia.
  - unfold cap. cbn [elems]. rewrite length_app, path_wkb_length. lia.
  - now rewrite repeat_length.
Qed.

(** X9: every path of at least one point, and of fewer than [2^28], is
    written by [Value] as [13 + 16 n] bytes that [Scan] decodes to the
    same path, whether it gets them as a string or as a [[]byte] of any
    capacity, and whatever bytes follow them. *)
Theorem LineString_roundtrip_any_carrier (spare_cap : nat -> nat) (p p0 : LineString)
  (v : value) (rest : list byte) :
  (1 <= length (Points p))%nat -> Z.of_nat (length (Points p)) < 2 ^ 28 ->
  carries v (path_wkb (Points p) ++ rest) ->
  LineString.Value p = Return (VBytes (freeze (path_wkb (Points p))), None) /\
  length (path_wkb (Points p)) = (13 + 16 * length (Points p))%nat /\
  LineString.Scan spare_cap p0 v = Return (p, None).
Proof.
  intros H1 Hmax Hv.
  split; [apply LineString_Value_wkb |]. split; [apply path_wkb_length |].
  destruct Hv as [-> | [sp ->]]; cbn [LineString.Scan]; unfold bytes_of_string;
    rewrite LineString_scan_bytes_path by assumption; now destruct p.
Qed.

Lemma LineString_roundtrip_any_carrier_witness :
  LineString.Value path3 = Return (VBytes (freeze (path_wkb (Points path3))), None) /\
  length (path_wkb (Points path3)) = (13 + 16 * length (Points path3))%nat /\
  LineString.Scan exact_cap empty_path (VString (path_wkb (Points path3) ++ [xff]))
  = Return (path3, None).
Proof.
  apply (LineString_roundtrip_any_carrier exact_cap path3 empty_path
           (VString (path_wkb (Points path3) ++ [xff])) [xff]).
  - cbn [path3 Points length]. lia.
  - cbn [path3 Points length]. lia.
  - left. reflexivity.
Defined.

Lemma LineString_Scan_panics_beyond_the_capacity_witness :
  len (freeze two_points_announced) = 29 /\
  LineString.Scan exact_cap path3 (VBytes (freeze two_points_announced))
  = Panicked SliceBoundsOutOfRange.
Proof.
  split; [reflexivity |].
  apply (LineString_Scan_panics_beyond_the_capacity exact_cap path3
           (freeze two_points_announced) binary.LittleEndian).
  - vm_compute. discriminate.
  - reflexivity.
  - reflexivity.
  - vm_compute. reflexivity.
  - vm_compute. reflexivity.
Defined.

Lemma LineString_Scan_error_keeps_receiver_witness :
  LineString.Scan exact_cap path3 (VString empty_path_wkb)
  = Return (path3, Some (WKBTooShort 13)) /\
  path3 = path3.
Proof.
  split; [reflexivity |].
  apply (LineString_Scan_error_keeps_receiver exact_cap path3 path3
           (VString empty_path_wkb) (WKBTooShort 13)).
  reflexivity.
Defined.

Lemma LineString_Scan_header_errors_witness :
  LineString.Scan exact_cap path3 (VString (repeat x07 29))
  = Return (path3, Some (InvalidByteOrder x07)) /\
  LineString.Scan exact_cap path3 (VBytes (freeze (point_wkb central_park ++ [x00; x00; x00; x00])))
  = Return (path3, Some (WrongGeometryType 2 1)).
Proof.
  split.
  - apply (proj1 (LineString_Scan_header_errors exact_cap path3
                    (VString (repeat x07 29)) (repeat x07 29)
                    (or_introl eq_refl) ltac:(cbn [repeat length]; lia))).
    reflexivity.
  - apply (proj2 (LineString_Scan_header_errors exact_cap path3
                    (VBytes (freeze (point_wkb central_park ++ [x00; x00; x00; x00])))
                    (point_wkb central_park ++ [x00; x00; x00; x00])
                    (or_intror (ex_intro _ [] eq_refl))
                    ltac:(rewrite length_app, point_wkb_length; cbn [length]; lia))
             binary.LittleEndian).
    + reflexivity.
    + vm_compute. discriminate.
Defined.

Lemma LineString_Scan_reads_the_capacity_witness :
  len two_points_in_capacity = 29 /\
  LineString.Scan exact_cap empty_path (VBytes two_points_in_capacity)
  = Return ({| Points := [LineString.zeroPoint; central_park] |}, None).
Proof.
  split; [reflexivity |].
  pose proof (LineString_Scan_reads_the_capacity exact_cap empty_path
                two_points_in_capacity binary.LittleEndian
                ltac:(vm_compute; discriminate) eq_refl eq_refl
                ltac:(vm_compute; reflexivity) ltac:(vm_compute; discriminate)) as H.
  rewrite H. vm_compute. reflexivity.
Defined.

(** ** Vector: the binary decoder on every buffer *)

Lemma combine_range (o : binary.ByteOrder) (bs : list byte) :
  0 <= binary.combine o bs < 2 ^ (8 * Z.of_nat (length bs)).
Proof.
  destruct o; cbn [binary.combine].
  - apply le_combine_bound.
  - rewrite <- length_rev. apply le_combine_bound.
Qed.

Lemma split_combine (o : binary.ByteOrder) (bs : list byte) :
  binary.split o (length bs) (binary.combine o bs) = bs.
Proof.
  destruct o; cbn [binary.split binary.combine].
  - apply split_le_combine.
  - rewrite <- length_rev, split_le_combine. apply rev_involutive.
Qed.

Lemma enc_dec (T : ElementType) (bs : list byte) :
  length bs = size_of T -> enc T (dec T bs) = bs.
Proof.
  intros H. pose proof (combine_range binary.LittleEndian bs) as R.
  rewrite H in R.
  destruct T; cbn [enc dec size_of] in *;
    unfold math.Float32bits, math.Float32frombits, math.Float64bits, math.Float64frombits;
    rewrite word.unsigned_of_Z; unfold word.wrap; rewrite Z.mod_small by exact R;
    rewrite <- H; apply split_combine.
Qed.

Lemma get_elem_at (T : ElementType) (data : slice) (off : nat) :
  (off + size_of T <= length (elems data))%nat ->
  Vector.get_elem (tag_of T) data (Z.of_nat off)
  = Return (to_any T (dec T (window (elems data) off (off + size_of T)))).
Proof.
  intros H. destruct data as [d sp]. cbn [elems] in *.
  pose proof (reslice_window d sp off (off + size_of T) ltac:(lia) H) as R.
  assert (L : length (window d off (off + size_of T)) = size_of T)
    by (rewrite window_length; lia).
  rewrite Nat2Z.inj_add in R.
  destruct T; unfold Vector.get_elem; cbn [tag_of to_any size_of dec] in *;
    [ change (byte.unsigned x01) with 1 | change (byte.unsigned x02) with 2
    | change (byte.unsigned x03) with 3 | change (byte.unsigned x04) with 4 ];
    cbn [Z.eqb Pos.eqb];
    [ change (Z.of_nat 4) with 4 in R | change (Z.of_nat 8) with 8 in R
    | change (Z.of_nat 4) with 4 in R | change (Z.of_nat 8) with 8 in R ];
    rewrite R; cbn [bind];
    first [ rewrite Uint32_bytes by exact L | rewrite Uint64_bytes by exact L ];
    reflexivity.
Qed.

(** The loop of [Vector.Scan] on a buffer that holds the elements it
    announces, of the type of the receiver. *)
Lemma scan_elems_at (T : ElementType) (data : slice) (n : nat) :
  forall (i : nat) (elements : list (elem T)),
    (5 + size_of T * (i + n) <= length (elems data))%nat ->
    length elements = (i + n)%nat ->
    Vector.scan_elems n (Z.of_nat i) (Z.of_nat (5 + size_of T * i)) (tag_of T)
      (Z.of_nat (size_of T)) data elements
    = Return (firstn i elements
                ++ map (fun k => dec T (window (elems data) (5 + size_of T * k)
                                          (5 + size_of T * k + size_of T)))
                     (seq i n)).
Proof.
  induction n as [| n IH]; intros i elements Hlen Hel.
  - cbn [Vector.scan_elems seq map]. rewrite app_nil_r, firstn_all2 by lia.
    reflexivity.
  - cbn [Vector.scan_elems].
    rewrite get_elem_at by lia. cbn [bind]. rewrite assert_to_any. cbn [bind].
    unfold Vector.set_elem.
    replace ((0 <=? Z.of_nat i) && (Z.of_nat i <? Z.of_nat (length elements))) with true
      by (symmetry; apply andb_true_iff; split; [apply Z.leb_le | apply Z.ltb_lt]; lia).
    cbn [bind]. rewrite Nat2Z.id.
    replace (Z.of_nat i + 1) with (Z.of_nat (S i)) by lia.
    replace (Z.of_nat (5 + size_of T * i) + Z.of_nat (size_of T))
      with (Z.of_nat (5 + size_of T * S i)) by lia.
    rewrite IH.
    + cbn [seq map].
      assert (Hf : length (firstn i elements) = i) by (rewrite length_firstn; lia).
      replace (S i) with (length (firstn i elements) + 1)%nat at 1 by lia.
      rewrite firstn_app_2. cbn [firstn]. rewrite <- app_assoc. reflexivity.
    + lia.
    + rewrite length_app, length_firstn. cbn [length]. rewrite length_skipn. lia.
Qed.

(** The loop of [Vector.Scan] keeps the length of [elements] when it
    returns. *)
Lemma scan_elems_length (T : ElementType) (n : nat) :
  forall (i offset : Z) (tag : byte) (size : Z) (data : slice) (elements l : list (elem T)),
    Vector.scan_elems n i offset tag size data elements = Return l ->
    length l = length elements.
Proof.
  induction n as [| n IH]; intros i offset tag size data elements l H.
  - cbn [Vector.scan_elems] in H. now inversion H.
  - cbn [Vector.scan_elems] in H.
    destruct (Vector.get_elem tag data offset) as [a |]; [| discriminate H].
    cbn [bind] in H. destruct (assert T a) as [x |]; [| discriminate H].
    cbn [bind] in H. unfold Vector.set_elem in H.
    destruct ((0 <=? i) && (i <? Z.of_nat (length elements))) eqn:E; [| discriminate H].
    cbn [bind] in H. apply IH in H. rewrite H.
    apply andb_true_iff in E. destruct E as [E1 E2].
    apply Z.leb_le in E1. apply Z.ltb_lt in E2.
    rewrite length_app, length_firstn. cbn [length]. rewrite length_skipn. lia.
Qed.

(** [Vector.Scan] on bytes up to its loop: the length check, the type
    byte, the dimension and the second length check. *)
Lemma Vector_scan_bytes_header (T : ElementType) (v : Vector.t T) (data sp : list byte) :
  (5 <= length data)%nat ->
  Vector.scan_bytes v {| elems := data; spare := sp |}
  = let dimension := binary.combine binary.LittleEndian (window data 1 5) in
    match Vector.element_size (nth 0 data x00) with
    | None => Return (v, Some (UnknownVectorElementType (nth 0 data x00)))
    | Some elementSize =>
      if Z.of_nat (length data) <? 5 + dimension * elementSize
      then Return (v, Some (VectorTooShortForDimension dimension (Z.of_nat (length data))
                              (5 + dimension * elementSize)))
      else
        elements <- Vector.scan_elems (Z.to_nat dimension) 0 5 (nth 0 data x00)
                      elementSize {| elems := data; spare := sp |}
                      (repeat (zero T) (Z.to_nat dimension)) ;;
        Return (Vector.mk elements dimension true, None)
    end.
Proof.
  intros Hlen. unfold Vector.scan_bytes, len. cbn [elems].
  replace (Z.of_nat (length data) <? 5) with false by (symmetry; apply Z.ltb_ge; lia).
  change (index {| elems := data; spare := sp |} 0)
    with (index {| elems := data; spare := sp |} (Z.of_nat 0)).
  rewrite index_within by (cbn [elems]; lia). cbn [bind elems].
  pose proof (reslice_window data sp 1 5 ltac:(lia) ltac:(lia)) as E.
  change (Z.of_nat 1) with 1 in E. change (Z.of_nat 5) with 5 in E.
  rewrite E. clear E. cbn [bind].
  rewrite Uint32_bytes by (apply window_length; lia). cbn [bind].
  reflexivity.
Qed.

Lemma flat_map_enc_elements (T : ElementType) (bs : list byte) (n : nat) :
  forall i : nat,
    (5 + size_of T * (i + n) <= length bs)%nat ->
    flat_map (enc T)
      (map (fun k => dec T (window bs (5 + size_of T * k) (5 + size_of T * k + size_of T)))
         (seq i n))
    = window bs (5 + size_of T * i) (5 + size_of T * (i + n)).
Proof.
  induction n as [| n IH]; intros i H.
  - cbn [seq map flat_map]. unfold window.
    replace (5 + size_of T * (i + 0) - (5 + size_of T * i))%nat with 0%nat by lia.
    reflexivity.
  - cbn [seq map flat_map]. rewrite enc_dec by (rewrite window_length; lia).
    rewrite IH by lia.
    rewrite (window_split bs (5 + size_of T * i) (5 + size_of T * i + size_of T)
               (5 + size_of T * (i + S n))) by lia.
    do 2 f_equal; lia.
Qed.

(** The three outcomes of the binary decoder: an error with the
    receiver untouched, a panic, or a valid vector whose dimension is
    the length of its data. *)
Lemma Vector_scan_bytes_cases (T : ElementType) (v : Vector.t T) (data : slice) :
  (exists e, Vector.scan_bytes v data = Return (v, Some e)) \/
  (exists pn, Vector.scan_bytes v data = Panicked pn) \/
  (exists l, Vector.scan_bytes v data
             = Return (Vector.mk l (Z.of_nat (length l)) true, None)).
Proof.
  destruct (Z_lt_le_dec (len data) 5) as [H | H].
  - left. unfold Vector.scan_bytes.
    replace (len data <? 5) with true by (symmetry; apply Z.ltb_lt; lia).
    eexists. reflexivity.
  - destruct data as [d sp]. unfold len in H. cbn [elems] in H.
    rewrite Vector_scan_bytes_header by lia. cbv zeta.
    destruct (Vector.element_size (nth 0 d x00)) as [size |].
    + destruct (Z.of_nat (length d) <? _).
      * left. eexists. reflexivity.
      * destruct (Vector.scan_elems _ _ _ _ _ _ _) as [l | pn] eqn:E; cbn [bind].
        -- right. right. exists l. apply scan_elems_length in E.
           rewrite repeat_length in E. rewrite E.
           pose proof (combine_range binary.LittleEndian (window d 1 5)) as R.
           rewrite Z2Nat.id by lia. reflexivity.
        -- right. left. eexists. reflexivity.
    + left. eexists. reflexivity.
Qed.

Section VectorBinary.
Variable ParseFloat : list byte -> Z -> float64 * option strconv.NumError.
Variable ParseInt : list byte -> Z -> Z -> int64 * option strconv.NumError.
Variable narrow : float64 -> float32.

Lemma Vector_scan_bytes_same_type (T : ElementType) (v : Vector.t T) (data sp : list byte) :
  let dimension := binary.combine binary.LittleEndian (window data 1 5) in
  (5 <= length data)%nat -> nth 0 data x00 = tag_of T ->
  5 + dimension * Z.of_nat (size_of T) <= Z.of_nat (length data) ->
  Vector.scan_bytes v {| elems := data; spare := sp |}
  = Return (Vector.mk (elements_at T data (Z.to_nat dimension)) dimension true, None).
Proof.
  intros dimension H5 Htag Hlen.
  pose proof (combine_range binary.LittleEndian (window data 1 5)) as R.
  fold dimension in R.
  rewrite Vector_scan_bytes_header by exact H5. cbv zeta. fold dimension.
  rewrite Htag, element_size_of.
  replace (Z.of_nat (length data) <? 5 + dimension * Z.of_nat (size_of T)) with false
    by (symmetry; apply Z.ltb_ge; lia).
  pose proof (scan_elems_at T {| elems := data; spare := sp |} (Z.to_nat dimension) 0
                (repeat (zero T) (Z.to_nat dimension))) as S.
  cbn [elems] in S. rewrite Nat.mul_0_r in S. cbn [Nat.add firstn app] in S.
  change (Z.of_nat 0) with 0 in S. change (Z.of_nat 5) with 5 in S.
  rewrite S; [reflexivity | nia | apply repeat_length].
Qed.

(** X10: [Vector.Scan] of a binary vector whose type byte is that of
    the receiver, and which is long enough for the dimension it
    announces, never panics: it gives a valid vector of that dimension
    whose elements are the 4- or 8-byte groups after the header, in
    order. Bytes after the last element are ignored. *)
Theorem Vector_Scan_binary_same_type (T : ElementType) (v : Vector.t T) (data : slice) :
  let dimension := binary.combine binary.LittleEndian (window (elems data) 1 5) in
  5 <= len data -> nth 0 (elems data) x00 = tag_of T ->
  5 + dimension * Z.of_nat (size_of T) <= len data ->
  Vector.Scan ParseFloat ParseInt narrow v (VBytes data)
  = Return (Vector.mk (elements_at T (elems data) (Z.to_nat dimension)) dimension true,
            None) /\
  length (elements_at T (elems data) (Z.to_nat dimension)) = Z.to_nat dimension.
Proof.
  intros dimension H5 Htag Hlen. split.
  - cbn [Vector.Scan]. destruct data as [d sp]. unfold len in *. cbn [elems] in *.
    apply Vector_scan_bytes_same_type; [lia | exact Htag | exact Hlen].
  - unfold elements_at. now rewrite length_map, length_seq.
Qed.

(** X11: decoding and then encoding gives the bytes back. A binary
    vector of the type of the receiver, of dimension at least 1 and of
    exactly the length its dimension asks for, is decoded by [Scan] to a
    vector that [Value] encodes to the same bytes. *)
Theorem Vector_Scan_then_Value (T : ElementType) (v : Vector.t T) (data : slice) :
  let dimension := binary.combine binary.LittleEndian (window (elems data) 1 5) in
  nth 0 (elems data) x00 = tag_of T -> 1 <= dimension ->
  len data = 5 + dimension * Z.of_nat (size_of T) ->
  exists v',
    Vector.Scan ParseFloat ParseInt narrow v (VBytes data) = Return (v', None) /\
    Vector.Value v' = Return (VBytes (freeze (elems data)), None).
Proof.
  intros dimension Htag Hd Hlen.
  pose proof (combine_range binary.LittleEndian (window (elems data) 1 5)) as R.
  fold dimension in R.
  destruct data as [d sp]. unfold len in Hlen. cbn [elems] in *.
  assert (W : length (window d 1 5) = 4%nat) by (rewrite window_length; lia).
  rewrite W in R.
  eexists. split.
  - cbn [Vector.Scan]. apply Vector_scan_bytes_same_type; [lia | exact Htag | lia].
  - fold dimension.
    assert (L : length (elements_at T d (Z.to_nat dimension)) = Z.to_nat dimension)
      by (unfold elements_at; now rewrite length_map, length_seq).
    rewrite Vector_Value_wire.
    + cbn [Vector.Data]. do 3 f_equal. unfold vector_wire. rewrite L.
      assert (E3 : flat_map (enc T) (elements_at T d (Z.to_nat dimension))
                   = window d 5 (length d)).
      { unfold elements_at.
        rewrite (flat_map_enc_elements T d (Z.to_nat dimension) 0) by lia.
        f_equal; lia. }
      pose proof (split_combine binary.LittleEndian (window d 1 5)) as E2.
      rewrite W in E2. fold dimension in E2.
      replace (uint32_wrap (Z.of_nat (Z.to_nat dimension))) with dimension
        by (unfold uint32_wrap; rewrite Z2Nat.id, Z.mod_small; lia).
      rewrite E2, E3, <- Htag. clear - Hlen Hd R.
      destruct d as [| b d']; [cbn [length] in Hlen; lia |].
      unfold window.
      rewrite (firstn_all2 (skipn 5 (b :: d'))) by (rewrite length_skipn; lia).
      change (skipn 5 (b :: d')) with (skipn 4 d').
      change (skipn 1 (b :: d')) with d'. change (5 - 1)%nat with 4%nat.
      cbn [nth]. now rewrite firstn_skipn.
    + reflexivity.
    + cbn [Vector.Data]. intros E. rewrite E in L. cbn [length] in L. lia.
Qed.
End VectorBinary.

(** ** Vector: what the binary decoder refuses, and when it panics *)

Section VectorRefusals.
Variable ParseFloat : list byte -> Z -> float64 * option strconv.NumError.
Variable ParseInt : list byte -> Z -> Z -> int64 * option strconv.NumError.
Variable narrow : float64 -> float32.

(** X12: [Vector.Scan] refuses three kinds of [[]byte] with an error
    and leaves the receiver alone, whatever the element type of the
    receiver: a buffer of fewer than 5 bytes; a type byte that is not 1,
    2, 3 or 4, which is reported before the length is compared with the
    dimension; and a buffer shorter than [5 + dimension * size], with
    the dimension, the length and the length expected in the error. *)
Theorem Vector_Scan_refuses_short_buffers (T : ElementType) (v : Vector.t T)
  (data : slice) :
  let tag := nth 0 (elems data) x00 in
  let dimension := binary.combine binary.LittleEndian (window (elems data) 1 5) in
  (len data < 5 ->
   Vector.Scan ParseFloat ParseInt narrow v (VBytes data)
   = Return (v, Some (VectorTooShort (len data)))) /\
  (5 <= len data -> Vector.element_size tag = None ->
   Vector.Scan ParseFloat ParseInt narrow v (VBytes data)
   = Return (v, Some (UnknownVectorElementType tag))) /\
  (forall size,
     5 <= len data -> Vector.element_size tag = Some size ->
     len data < 5 + dimension * size ->
     Vector.Scan ParseFloat ParseInt narrow v (VBytes data)
     = Return (v, Some (VectorTooShortForDimension dimension (len data)
                          (5 + dimension * size)))).
Proof.
  intros tag dimension. cbn [Vector.Scan]. split; [| split].
  - intros H. unfold Vector.scan_bytes.
    now replace (len data <? 5) with true by (symmetry; apply Z.ltb_lt; lia).
  - intros H Hs. destruct data as [d sp]. unfold len in H. cbn [elems] in *.
    rewrite Vector_scan_bytes_header by lia. cbv zeta. fold tag. now rewrite Hs.
  - intros size H Hs Hshort. destruct data as [d sp]. unfold len in *. cbn [elems] in *.
    rewrite Vector_scan_bytes_header by lia. cbv zeta. fold tag dimension. rewrite Hs.
    now replace (Z.of_nat (length d) <? 5 + dimension * size) with true
      by (symmetry; apply Z.ltb_lt; lia).
Qed.

(** X13: [Vector.Scan] compares the type byte with the element type of
    the receiver only when it reads an element. A buffer of another
    known element type that is long enough for its dimension makes it
    panic in the type assertion when the dimension is at least 1, and
    gives the empty valid vector when the dimension is 0. *)
Theorem Vector_Scan_other_element_type (T : ElementType) (v : Vector.t T)
  (data : slice) (size : Z) :
  let tag := nth 0 (elems data) x00 in
  let dimension := binary.combine binary.LittleEndian (window (elems data) 1 5) in
  5 <= len data -> Vector.element_size tag = Some size -> tag <> tag_of T ->
  (1 <= dimension -> 5 + dimension * size <= len data ->
   Vector.Scan ParseFloat ParseInt narrow v (VBytes data)
   = Panicked InterfaceConversion) /\
  (dimension = 0 ->
   Vector.Scan ParseFloat ParseInt narrow v (VBytes data)
   = Return (Vector.mk [] 0 true, None)).
Proof.
  intros tag dimension H5 Hs Hmis. cbn [Vector.Scan]. split.
  - intros Hd Hlen. now apply (Vector_scan_type_mismatch T v data size).
  - intros Hd. destruct data as [d sp]. unfold len in *. cbn [elems] in *.
    rewrite Vector_scan_bytes_header by lia. cbv zeta. fold tag dimension.
    rewrite Hs, Hd.
    replace (Z.of_nat (length d) <? 5 + 0 * size) with false
      by (symmetry; apply Z.ltb_ge; lia).
    reflexivity.
Qed.
End VectorRefusals.

Lemma Vector_Scan_binary_same_type_witness :
  Vector.Scan no_parse_float no_parse_int no_narrow (Vector.NewVector (T := TInt64) [])
    (VBytes (freeze (int64_vector_wire ++ [xff])))
  = Return (one_two, None).
Proof.
  pose proof (Vector_Scan_binary_same_type no_parse_float no_parse_int no_narrow TInt64
                (Vector.NewVector (T := TInt64) [])
                (freeze (int64_vector_wire ++ [xff]))
                ltac:(vm_compute; discriminate) eq_refl
                ltac:(vm_compute; discriminate)) as [H _].
  rewrite H. vm_compute. reflexivity.
Defined.

Lemma Vector_Scan_then_Value_witness :
  exists v',
    Vector.Scan no_parse_float no_parse_int no_narrow
      (Vector.NewVector (T := TInt64) []) (VBytes (freeze int64_vector_wire))
    = Return (v', None) /\
    Vector.Value v' = Return (VBytes (freeze int64_vector_wire), None).
Proof.
  apply (Vector_Scan_then_Value no_parse_float no_parse_int no_narrow TInt64
           (Vector.NewVector (T := TInt64) []) (freeze int64_vector_wire)).
  - reflexivity.
  - vm_compute. discriminate.
  - vm_compute. reflexivity.
Defined.

Lemma Vector_Scan_refuses_short_buffers_witness :
  Vector.Scan no_parse_float no_parse_int no_narrow small_vector
    (VBytes (freeze [x01; x00; x00; x00]))
  = Return (small_vector, Some (VectorTooShort 4)) /\
  Vector.Scan no_parse_float no_parse_int no_narrow small_vector
    (VBytes (freeze [x09; xff; xff; xff; xff]))
  = Return (small_vector, Some (UnknownVectorElementType x09)) /\
  Vector.Scan no_parse_float no_parse_int no_narrow small_vector
    (VBytes (freeze short_float64_wire))
  = Return (small_vector, Some (VectorTooShortForDimension 3 13 29)).
Proof.
  split; [| split].
  - apply (proj1 (Vector_Scan_refuses_short_buffers no_parse_float no_parse_int no_narrow
                    TInt32 small_vector (freeze [x01; x00; x00; x00]))).
    vm_compute. reflexivity.
  - apply (proj1 (proj2 (Vector_Scan_refuses_short_buffers no_parse_float no_parse_int
                           no_narrow TInt32 small_vector
                           (freeze [x09; xff; xff; xff; xff])))).
    + vm_compute. discriminate.
    + reflexivity.
  - apply (proj2 (proj2 (Vector_Scan_refuses_short_buffers no_parse_float no_parse_int
                           no_narrow TInt32 small_vector (freeze short_float64_wire)))
             8).
    + vm_compute. discriminate.
    + reflexivity.
    + vm_compute. reflexivity.
Defined.

Lemma Vector_Scan_other_element_type_witness :
  Vector.Scan no_parse_float no_parse_int no_narrow small_vector
    (VBytes (freeze int64_vector_wire))
  = Panicked InterfaceConversion /\
  Vector.Scan no_parse_float no_parse_int no_narrow small_vector
    (VBytes (freeze empty_float64_wire))
  = Return (Vector.mk [] 0 true, None).
Proof.
  split.
  - apply (proj1 (Vector_Scan_other_element_type no_parse_float no_parse_int no_narrow
                    TInt32 small_vector (freeze int64_vector_wire) 8
                    ltac:(vm_compute; discriminate) eq_refl
                    ltac:(vm_compute; discriminate))).
    + vm_compute. discriminate.
    + vm_compute. discriminate.
  - apply (proj2 (Vector_Scan_other_element_type no_parse_float no_parse_int no_narrow
                    TInt32 small_vector (freeze empty_float64_wire) 8
                    ltac:(vm_compute; discriminate) eq_refl
                    ltac:(vm_compute; discriminate))).
    vm_compute. reflexivity.
Defined.

(** ** Vector: the text decoder *)

Lemma HasPrefix_byte (s : list byte) (c : byte) :
  strings.HasPrefix s [c] = true -> exists s', s = c :: s'.
Proof.
  destruct s as [| b s']; cbn [strings.HasPrefix]; [discriminate |].
  unfold strings.byte_eqb. intros H. apply andb_true_iff in H. destruct H as [H _].
  apply Z.eqb_eq, byte.unsigned_inj in H. subst b. now exists s'.
Qed.

Lemma HasSuffix_byte (s : list byte) (c : byte) :
  strings.HasSuffix s [c] = true -> exists s', s = s' ++ [c].
Proof.
  unfold strings.HasSuffix. cbn [rev app]. intros H.
  apply HasPrefix_byte in H. destruct H as [r H].
  exists (rev r). rewrite <- (rev_involutive s), H. reflexivity.
Qed.

(** A text that begins with [[] and ends with [[]] has the two brackets
    and a middle: [s[1 : len(s)-1]] does not panic. *)
Lemma bracketed (s : list byte) :
  strings.HasPrefix s [x5b] = true -> strings.HasSuffix s [x5d] = true ->
  exists mid, s = [x5b] ++ mid ++ [x5d].
Proof.
  intros Hp Hs. apply HasPrefix_byte in Hp. destruct Hp as [t ->].
  apply HasSuffix_byte in Hs. destruct Hs as [r Hr].
  destruct r as [| b r].
  - cbn [app] in Hr. inversion Hr.
  - cbn [app] in Hr. inversion Hr. subst. now exists r.
Qed.

Lemma substr_bracketed (mid : list byte) :
  strings.substr ([x5b] ++ mid ++ [x5d]) 1
    (Z.of_nat (length ([x5b] ++ mid ++ [x5d])) - 1)
  = Return mid.
Proof.
  unfold strings.substr. cbn [app length]. rewrite length_app. cbn [length].
  replace ((0 <=? 1) && (1 <=? Z.of_nat (S (length mid + 1)) - 1)
           && (Z.of_nat (S (length mid + 1)) - 1 <=? Z.of_nat (S (length mid + 1))))
    with true
    by (symmetry; rewrite !andb_true_iff; repeat split; apply Z.leb_le; lia).
  change (Z.to_nat 1) with 1%nat. cbn [skipn].
  replace (Z.to_nat (Z.of_nat (S (length mid + 1)) - 1 - 1)) with (length mid) by lia.
  now rewrite firstn_app_exact.
Qed.

Lemma HasPrefix_nil (s : list byte) : strings.HasPrefix s [] = true.
Proof. now destruct s. Qed.

Lemma bracketed_checks (mid : list byte) :
  strings.HasPrefix ([x5b] ++ mid ++ [x5d]) [x5b] = true /\
  strings.HasSuffix ([x5b] ++ mid ++ [x5d]) [x5d] = true.
Proof.
  split.
  - cbn [app strings.HasPrefix]. now rewrite HasPrefix_nil.
  - unfold strings.HasSuffix. cbn [app rev]. rewrite rev_app_distr.
    cbn [app rev strings.HasPrefix]. now rewrite HasPrefix_nil.
Qed.

Lemma Split1_not_nil (s : list byte) (sep : byte) :
  forall cur, strings.Split1 s sep cur <> [].
Proof.
  induction s as [| c s IH]; intros cur; cbn [strings.Split1]; [discriminate |].
  destruct (strings.byte_eqb c sep); [discriminate | apply IH].
Qed.

Section VectorText.
Variable ParseFloat : list byte -> Z -> float64 * option strconv.NumError.
Variable ParseInt : list byte -> Z -> Z -> int64 * option strconv.NumError.
Variable narrow : float64 -> float32.

Lemma parse_part_typed (T : ElementType) (e0 : elem T) (part : list byte) :
  Vector.parse_part ParseFloat ParseInt narrow (to_any T e0) part
  = Some (to_any T (fst (parse_elem ParseFloat ParseInt narrow T part)),
          snd (parse_elem ParseFloat ParseInt narrow T part)).
Proof.
  destruct T; cbn [to_any Vector.parse_part parse_elem].
  - now destruct (ParseFloat part 32).
  - now destruct (ParseFloat part 64).
  - now destruct (ParseInt part 10 32).
  - now destruct (ParseInt part 10 64).
Qed.

(** One round of the loop of [scanFromString] on a part that parses. *)
Lemma parse_parts_step (T : ElementType) (part : list byte) (rest : list (list byte))
  (i : nat) (elements : list (elem T)) :
  (i < length elements)%nat ->
  Vector.parse_parts ParseFloat ParseInt narrow (part :: rest) (Z.of_nat i) elements
  = match part_error ParseFloat ParseInt narrow T part with
    | Some err =>
      Return (inr (VectorElementParseFailure (strings.TrimSpace part) err))
    | None =>
      Vector.parse_parts ParseFloat ParseInt narrow rest (Z.of_nat (S i))
        (firstn i elements ++ part_value ParseFloat ParseInt narrow T part
           :: skipn (S i) elements)
    end.
Proof.
  intros Hi. cbn [Vector.parse_parts].
  destruct elements as [| e0 elements']; [cbn [length] in Hi; lia |].
  cbn [bind]. rewrite parse_part_typed. unfold part_error, part_value.
  destruct (snd (parse_elem ParseFloat ParseInt narrow T (strings.TrimSpace part)));
    [reflexivity |].
  rewrite assert_to_any. cbn [bind]. unfold Vector.set_elem.
  replace ((0 <=? Z.of_nat i) && (Z.of_nat i <? Z.of_nat (length (e0 :: elements'))))
    with true
    by (symmetry; apply andb_true_iff; split; [apply Z.leb_le | apply Z.ltb_lt]; lia).
  cbn [bind]. rewrite Nat2Z.id.
  now replace (Z.of_nat i + 1) with (Z.of_nat (S i)) by lia.
Qed.

Lemma parse_parts_all (T : ElementType) (parts : list (list byte)) :
  forall (i : nat) (elements : list (elem T)),
    length elements = (i + length parts)%nat ->
    Forall (fun part => part_error ParseFloat ParseInt narrow T part = None) parts ->
    Vector.parse_parts ParseFloat ParseInt narrow parts (Z.of_nat i) elements
    = Return (inl (firstn i elements
                     ++ map (fun part => part_value ParseFloat ParseInt narrow T part) parts)).
Proof.
  induction parts as [| part rest IH]; intros i elements Hlen Hok.
  - cbn [Vector.parse_parts map length] in *.
    rewrite app_nil_r, firstn_all2 by lia. reflexivity.
  - cbn [length] in Hlen. inversion Hok as [| ? ? Hpart Hrest]; subst.
    rewrite parse_parts_step by lia. rewrite Hpart.
    rewrite IH.
    + cbn [map].
      assert (Hf : length (firstn i elements) = i) by (rewrite length_firstn; lia).
      replace (S i) with (length (firstn i elements) + 1)%nat at 1 by lia.
      rewrite firstn_app_2. cbn [firstn]. rewrite <- app_assoc. reflexivity.
    + rewrite length_app, length_firstn. cbn [length]. rewrite length_skipn. lia.
    + exact Hrest.
Qed.

Lemma parse_parts_first_failure (T : ElementType) (good : list (list byte)) :
  forall (bad : list byte) (rest : list (list byte)) (err : strconv.NumError)
         (i : nat) (elements : list (elem T)),
    length elements = (i + length (good ++ bad :: rest))%nat ->
    Forall (fun part => part_error ParseFloat ParseInt narrow T part = None) good ->
    part_error ParseFloat ParseInt narrow T bad = Some err ->
    Vector.parse_parts ParseFloat ParseInt narrow (good ++ bad :: rest) (Z.of_nat i)
      elements
    = Return (inr (VectorElementParseFailure (strings.TrimSpace bad) err)).
Proof.
  induction good as [| part good IH]; intros bad rest err i elements Hlen Hok Hbad.
  - cbn [app] in *. cbn [length] in Hlen. rewrite parse_parts_step by lia.
    now rewrite Hbad.
  - cbn [app] in *. cbn [length] in Hlen. inversion Hok as [| ? ? Hpart Hgood]; subst.
    rewrite parse_parts_step by lia. rewrite Hpart.
    apply IH; [| exact Hgood | exact Hbad].
    rewrite length_app, length_firstn. cbn [length]. rewrite length_skipn. lia.
Qed.

(** The loop of [scanFromString] never panics: it gives as many
    elements as it was given, or an error. *)
Lemma parse_parts_returns (T : ElementType) (parts : list (list byte)) :
  forall (i : nat) (elements : list (elem T)),
    length elements = (i + length parts)%nat ->
    (exists l, Vector.parse_parts ParseFloat ParseInt narrow parts (Z.of_nat i) elements
               = Return (inl l) /\ length l = length elements) \/
    (exists e, Vector.parse_parts ParseFloat ParseInt narrow parts (Z.of_nat i) elements
               = Return (inr e)).
Proof.
  induction parts as [| part rest IH]; intros i elements Hlen.
  - left. exists elements. split; reflexivity.
  - cbn [length] in Hlen. rewrite parse_parts_step by lia.
    destruct (part_error ParseFloat ParseInt narrow T part) as [err |].
    + right. eexists. reflexivity.
    + destruct (IH (S i) (firstn i elements ++ part_value ParseFloat ParseInt narrow T part
                            :: skipn (S i) elements)) as [[l [H L]] | [e H]].
      * rewrite length_app, length_firstn. cbn [length]. rewrite length_skipn. lia.
      * left. exists l. split; [exact H |]. rewrite L.
        rewrite length_app, length_firstn. cbn [length]. rewrite length_skipn. lia.
      * right. exists e. exact H.
Qed.

(** The two outcomes of the text decoder: an error with the receiver
    untouched, or a valid vector whose dimension is the length of its
    data. *)
Lemma Vector_scanFromString_cases (T : ElementType) (v : Vector.t T) (s : list byte) :
  (exists e, Vector.scanFromString ParseFloat ParseInt narrow v s = Return (v, Some e)) \/
  (exists l, Vector.scanFromString ParseFloat ParseInt narrow v s
             = Return (Vector.mk l (Z.of_nat (length l)) true, None)).
Proof.
  unfold Vector.scanFromString.
  destruct (strings.HasPrefix (strings.TrimSpace s) [x5b]) eqn:Hp;
    [| left; eexists; reflexivity].
  destruct (strings.HasSuffix (strings.TrimSpace s) [x5d]) eqn:Hs;
    [| left; eexists; reflexivity].
  cbn [negb orb].
  destruct (bracketed _ Hp Hs) as [mid ->].
  rewrite substr_bracketed. cbn [bind].
  destruct (strings.TrimSpace mid) as [| c inner] eqn:Ei.
  - right. exists []. reflexivity.
  - set (parts := strings.Split1 (c :: inner) x2c []).
    destruct (parse_parts_returns T parts 0 (repeat (zero T) (length parts)))
      as [[l [H L]] | [e H]].
    + now rewrite repeat_length.
    + right. exists l. change (Z.of_nat 0) with 0 in H. rewrite H. reflexivity.
    + left. exists e. change (Z.of_nat 0) with 0 in H. rewrite H. reflexivity.
Qed.

(** [scanFromString] on a text in brackets with something between
    them: the loop over the parts decides. *)
Lemma Vector_scanFromString_bracketed (T : ElementType) (v : Vector.t T)
  (s mid : list byte) :
  strings.TrimSpace s = [x5b] ++ mid ++ [x5d] -> strings.TrimSpace mid <> [] ->
  Vector.scanFromString ParseFloat ParseInt narrow v s
  = let parts := strings.Split1 (strings.TrimSpace mid) x2c [] in
    r <- Vector.parse_parts ParseFloat ParseInt narrow parts 0
           (repeat (zero T) (length parts)) ;;
    match r with
    | inr err => Return (v, Some err)
    | inl elements =>
      Return (Vector.mk elements (Z.of_nat (length elements)) true, None)
    end.
Proof.
  intros Hs Hmid. unfold Vector.scanFromString. rewrite Hs.
  destruct (bracketed_checks mid) as [-> ->]. cbn [negb orb].
  rewrite substr_bracketed. cbn [bind].
  destruct (strings.TrimSpace mid); [contradiction | reflexivity].
Qed.

(** X14: [Vector.Scan] of a text [[p1, p2, ...]] (blanks around the
    text, inside the brackets and around the parts are dropped) parses
    the parts in order with [strconv.ParseFloat] or [strconv.ParseInt],
    by the element type. When every part parses, the vector has one
    element per part; otherwise the error names the first part that
    does not parse and the receiver is left as it was. *)
Theorem Vector_Scan_text (T : ElementType) (v : Vector.t T) (s mid : list byte) :
  strings.TrimSpace s = [x5b] ++ mid ++ [x5d] -> strings.TrimSpace mid <> [] ->
  let parts := strings.Split1 (strings.TrimSpace mid) x2c [] in
  (Forall (fun part => part_error ParseFloat ParseInt narrow T part = None) parts ->
   Vector.Scan ParseFloat ParseInt narrow v (VString s)
   = Return (Vector.mk (map (fun part => part_value ParseFloat ParseInt narrow T part) parts)
               (Z.of_nat (length parts)) true, None)) /\
  (forall good bad rest err,
     parts = good ++ bad :: rest ->
     Forall (fun part => part_error ParseFloat ParseInt narrow T part = None) good ->
     part_error ParseFloat ParseInt narrow T bad = Some err ->
     Vector.Scan ParseFloat ParseInt narrow v (VString s)
     = Return (v, Some (VectorElementParseFailure (strings.TrimSpace bad) err))).
Proof.
  intros Hs Hmid parts.
  cbn [Vector.Scan]. rewrite (Vector_scanFromString_bracketed T v s mid Hs Hmid).
  cbv zeta. subst parts.
  set (parts := strings.Split1 (strings.TrimSpace mid) x2c []). split.
  - intros Hok.
    pose proof (parse_parts_all T parts 0 (repeat (zero T) (length parts))
                  ltac:(now rewrite repeat_length) Hok) as P.
    change (Z.of_nat 0) with 0 in P. rewrite P. cbn [bind firstn app].
    now rewrite length_map.
  - intros good bad rest err Hparts Hok Hbad.
    pose proof (parse_parts_first_failure T good bad rest err 0
                  (repeat (zero T) (length parts))) as P.
    rewrite <- Hparts in P. change (Z.of_nat 0) with 0 in P.
    rewrite P; [reflexivity | now rewrite repeat_length | exact Hok | exact Hbad].
Qed.

(** X15: [Vector.Scan] of a string never panics, whatever the text and
    whatever the parsers of [strconv] answer. *)
Theorem Vector_Scan_text_never_panics (T : ElementType) (v : Vector.t T) (s : list byte) :
  exists v' err, Vector.Scan ParseFloat ParseInt narrow v (VString s) = Return (v', err).
Proof.
  cbn [Vector.Scan].
  destruct (Vector_scanFromString_cases T v s) as [[e H] | [l H]];
    rewrite H; eexists; eexists; reflexivity.
Qed.

(** X16: when [Vector.Scan] returns an error, whatever value it was
    given, the receiver is as it was before the call. *)
Theorem Vector_Scan_error_keeps_receiver (T : ElementType) (v v' : Vector.t T)
  (x : value) (e : error) :
  Vector.Scan ParseFloat ParseInt narrow v x = Return (v', Some e) -> v' = v.
Proof.
  destruct x as [| s | b | ty]; cbn [Vector.Scan]; intros H.
  - congruence.
  - destruct (Vector_scanFromString_cases T v s) as [[e' E] | [l E]];
      rewrite E in H; congruence.
  - destruct (Vector_scan_bytes_cases T v b) as [[e' E] | [[pn E] | [l E]]];
      rewrite E in H; congruence.
  - congruence.
Qed.

(** X17: when [Vector.Scan] of a string or of a [[]byte] returns
    without an error, the vector is valid and its dimension is the
    length of its data. *)
Theorem Vector_Scan_success_is_well_formed (T : ElementType) (v v' : Vector.t T)
  (x : value) (data : list byte) :
  carries x data ->
  Vector.Scan ParseFloat ParseInt narrow v x = Return (v', None) ->
  Vector.Valid v' = true /\
  Vector.Dimension v' = Z.of_nat (length (Vector.Data v')).
Proof.
  intros [-> | [sp ->]]; cbn [Vector.Scan]; intros H.
  - destruct (Vector_scanFromString_cases T v data) as [[e' E] | [l E]];
      rewrite E in H; inversion H; subst; split; reflexivity.
  - destruct (Vector_scan_bytes_cases T v {| elems := data; spare := sp |})
      as [[e' E] | [[pn E] | [l E]]];
      rewrite E in H; inversion H; subst; split; reflexivity.
Qed.
End VectorText.

Lemma Vector_Scan_text_witness :
  Vector.Scan no_parse_float one_digit_int no_narrow (Vector.NewVector (T := TInt64) [])
    (VString text_1_2)
  = Return (one_two, None) /\
  Vector.Scan no_parse_float one_digit_int no_narrow small_vector (VString text_1_x)
  = Return (small_vector, Some (VectorElementParseFailure [x78] strconv.ErrSyntax)).
Proof.
  assert (T2 : strings.TrimSpace text_1_2 = [x5b] ++ [x31; x2c; x20; x32] ++ [x5d])
    by (vm_compute; reflexivity).
  assert (M2 : strings.TrimSpace [x31; x2c; x20; x32] <> [])
    by (vm_compute; discriminate).
  assert (P2 : strings.Split1 (strings.TrimSpace [x31; x2c; x20; x32]) x2c []
               = [[x31]; [x20; x32]])
    by (vm_compute; reflexivity).
  assert (Tx : strings.TrimSpace text_1_x = [x5b] ++ [x31; x2c; x20; x78] ++ [x5d])
    by (vm_compute; reflexivity).
  assert (Mx : strings.TrimSpace [x31; x2c; x20; x78] <> [])
    by (vm_compute; discriminate).
  assert (Px : strings.Split1 (strings.TrimSpace [x31; x2c; x20; x78]) x2c []
               = [[x31]] ++ [x20; x78] :: [])
    by (vm_compute; reflexivity).
  split.
  - pose proof (proj1 (Vector_Scan_text no_parse_float one_digit_int no_narrow TInt64
                         (Vector.NewVector (T := TInt64) []) text_1_2
                         [x31; x2c; x20; x32] T2 M2)) as H.
    rewrite P2 in H. rewrite H.
    + vm_compute. reflexivity.
    + apply Forall_cons; [vm_compute; reflexivity |].
      apply Forall_cons; [vm_compute; reflexivity | apply Forall_nil].
  - pose proof (proj2 (Vector_Scan_text no_parse_float one_digit_int no_narrow TInt32
                         small_vector text_1_x [x31; x2c; x20; x78] Tx Mx)
                  [[x31]] [x20; x78] [] strconv.ErrSyntax Px) as H.
    rewrite H.
    + vm_compute. reflexivity.
    + apply Forall_cons; [vm_compute; reflexivity | apply Forall_nil].
    + vm_compute. reflexivity.
Defined.

Lemma Vector_Scan_error_keeps_receiver_witness :
  Vector.Scan no_parse_float one_digit_int no_narrow small_vector (VString text_1_x)
  = Return (small_vector, Some (VectorElementParseFailure [x78] strconv.ErrSyntax)) /\
  small_vector = small_vector.
Proof.
  split; [vm_compute; reflexivity |].
  apply (Vector_Scan_error_keeps_receiver no_parse_float one_digit_int no_narrow TInt32
           small_vector small_vector (VString text_1_x)
           (VectorElementParseFailure [x78] strconv.ErrSyntax)).
  vm_compute. reflexivity.
Defined.

Lemma Vector_Scan_success_is_well_formed_witness :
  Vector.Scan no_parse_float one_digit_int no_narrow (Vector.NewVector (T := TInt64) [])
    (VString text_1_2)
  = Return (one_two, None) /\
  Vector.Valid one_two = true /\
  Vector.Dimension one_two = Z.of_nat (length (Vector.Data one_two)).
Proof.
  split; [vm_compute; reflexivity |].
  apply (Vector_Scan_success_is_well_formed no_parse_float one_digit_int no_narrow TInt64
           (Vector.NewVector (T := TInt64) []) one_two (VString text_1_2) text_1_2).
  - left. reflexivity.
  - vm_compute. reflexivity.
Defined.

(** ** Vector: the text [String] writes *)

Lemma DecodeRune_ascii (c : byte) (s : list byte) :
  byte.unsigned c < 0x80 -> utf8.DecodeRune (c :: s) = (byte.unsigned c, 1%nat).
Proof.
  intros H. unfold utf8.DecodeRune, utf8.RuneSelf.
  now replace (byte.unsigned c <? 0x80) with true by (symmetry; apply Z.ltb_lt; lia).
Qed.

Lemma DecodeLastRune_ascii (s : list byte) (c : byte) :
  byte.unsigned c < 0x80 -> utf8.DecodeLastRune (s ++ [c]) = (byte.unsigned c, 1%nat).
Proof.
  intros H. unfold utf8.DecodeLastRune, utf8.RuneSelf.
  rewrite length_app. cbn [length].
  replace (Z.of_nat (length s + 1) =? 0) with false by (symmetry; apply Z.eqb_neq; lia).
  replace (Z.to_nat (Z.of_nat (length s + 1) - 1)) with (length s) by lia.
  rewrite app_nth2, Nat.sub_diag by lia. cbn [nth].
  now replace (byte.unsigned c <? 0x80) with true by (symmetry; apply Z.ltb_lt; lia).
Qed.

Lemma TrimLeft_stops (fuel : nat) (c : byte) (s : list byte) :
  byte.unsigned c < 0x80 -> unicode.IsSpace (byte.unsigned c) = false ->
  strings.TrimLeft fuel (c :: s) = c :: s.
Proof.
  intros H1 H2. destruct fuel as [| fuel]; [reflexivity |].
  cbn [strings.TrimLeft]. rewrite DecodeRune_ascii by exact H1. now rewrite H2.
Qed.

Lemma TrimRight_stops (fuel : nat) (s : list byte) (c : byte) :
  byte.unsigned c < 0x80 -> unicode.IsSpace (byte.unsigned c) = false ->
  strings.TrimRight fuel (s ++ [c]) = s ++ [c].
Proof.
  intros H1 H2. destruct fuel as [| fuel]; [reflexivity |].
  cbn [strings.TrimRight]. rewrite DecodeLastRune_ascii by exact H1. now rewrite H2.
Qed.

(** [strings.TrimSpace] leaves a text alone that begins and ends with
    an ASCII byte that is not a blank. *)
Lemma TrimSpace_stops (c c' : byte) (s s' : list byte) :
  c :: s = s' ++ [c'] ->
  byte.unsigned c < 0x80 -> unicode.IsSpace (byte.unsigned c) = false ->
  byte.unsigned c' < 0x80 -> unicode.IsSpace (byte.unsigned c') = false ->
  strings.TrimSpace (c :: s) = c :: s.
Proof.
  intros E H1 H2 H3 H4. unfold strings.TrimSpace.
  rewrite TrimLeft_stops by assumption. rewrite E. now apply TrimRight_stops.
Qed.

Lemma TrimLeft_blank (fuel : nat) (t : list byte) :
  strings.TrimLeft (S fuel) (x20 :: t) = strings.TrimLeft fuel t.
Proof.
  cbn [strings.TrimLeft].
  rewrite (DecodeRune_ascii x20) by (vm_compute; reflexivity).
  change (unicode.IsSpace (byte.unsigned x20)) with true. reflexivity.
Qed.

(** One blank before such a text is dropped. *)
Lemma TrimSpace_after_blank (c c' : byte) (s s' : list byte) :
  c :: s = s' ++ [c'] ->
  byte.unsigned c < 0x80 -> unicode.IsSpace (byte.unsigned c) = false ->
  byte.unsigned c' < 0x80 -> unicode.IsSpace (byte.unsigned c') = false ->
  strings.TrimSpace (x20 :: c :: s) = c :: s.
Proof.
  intros E H1 H2 H3 H4. unfold strings.TrimSpace.
  change (length (x20 :: c :: s)) with (S (length (c :: s))).
  rewrite TrimLeft_blank, TrimLeft_stops by assumption.
  rewrite E. now apply TrimRight_stops.
Qed.

Lemma plain_byte_spec (b : byte) :
  plain_byte b = true ->
  byte.unsigned b < 0x80 /\ unicode.IsSpace (byte.unsigned b) = false /\
  strings.byte_eqb b x2c = false.
Proof.
  unfold plain_byte. rewrite !andb_true_iff, !negb_true_iff.
  intros [[H1 H2] H3]. apply Z.ltb_lt in H1. repeat split; assumption.
Qed.

(** A plain text has a plain first byte and a plain last byte. *)
Lemma plain_text_ends (t : list byte) :
  plain_text t = true ->
  exists c s s' c', t = c :: s /\ t = s' ++ [c'] /\
                    plain_byte c = true /\ plain_byte c' = true /\
                    forallb plain_byte t = true.
Proof.
  destruct t as [| c s]; [discriminate |]. intros H. unfold plain_text in H.
  destruct (exists_last (l := c :: s) ltac:(discriminate)) as [s' [c' E]].
  exists c, s, s', c'. repeat split; try assumption.
  - cbn [forallb] in H. now apply andb_true_iff in H.
  - rewrite E, forallb_app in H. apply andb_true_iff in H. destruct H as [_ H].
    cbn [forallb] in H. now rewrite andb_true_r in H.
Qed.

Lemma TrimSpace_plain (t : list byte) :
  plain_text t = true ->
  strings.TrimSpace t = t /\ strings.TrimSpace (x20 :: t) = t.
Proof.
  intros H. destruct (plain_text_ends t H) as [c [s [s' [c' [E1 [E2 [P1 [P2 _]]]]]]]].
  apply plain_byte_spec in P1, P2. destruct P1 as [A1 [A2 _]], P2 as [B1 [B2 _]].
  subst t. split.
  - now apply (TrimSpace_stops c c' s s').
  - now apply (TrimSpace_after_blank c c' s s').
Qed.

(** [strings.Split] on a text without the separator, and on one that
    goes on after a separator. *)
Lemma Split1_plain (t : list byte) :
  forall cur rest,
    forallb plain_byte t = true ->
    strings.Split1 (t ++ rest) x2c cur
    = match rest with
      | [] => [rev cur ++ t]
      | _ :: _ => strings.Split1 rest x2c (rev t ++ cur)
      end.
Proof.
  induction t as [| b t IH]; intros cur rest H.
  - cbn [app rev]. destruct rest; [| reflexivity]. cbn [strings.Split1].
    now rewrite app_nil_r.
  - cbn [forallb] in H. apply andb_true_iff in H. destruct H as [Hb Ht].
    apply plain_byte_spec in Hb. destruct Hb as [_ [_ Hb]].
    cbn [app strings.Split1]. rewrite Hb. rewrite IH by exact Ht.
    destruct rest.
    + cbn [rev]. now rewrite <- app_assoc.
    + cbn [rev]. now rewrite <- app_assoc.
Qed.

Lemma Split1_Join (texts : list (list byte)) :
  forall t cur,
    forallb plain_byte t = true ->
    Forall (fun t => plain_text t = true) texts ->
    strings.Split1 (strings.Join (t :: texts) [x2c; x20]) x2c cur
    = (rev cur ++ t) :: map (fun t => x20 :: t) texts.
Proof.
  induction texts as [| u texts IH]; intros t cur Ht Hall.
  - cbn [strings.Join map]. rewrite <- (app_nil_r t) at 1.
    now rewrite Split1_plain by exact Ht.
  - inversion Hall as [| ? ? Hu Hrest]; subst.
    change (strings.Join (t :: u :: texts) [x2c; x20])
      with (t ++ [x2c; x20] ++ strings.Join (u :: texts) [x2c; x20]).
    rewrite Split1_plain by exact Ht. cbn [app strings.Split1].
    change (strings.byte_eqb x2c x2c) with true. cbv iota.
    change (strings.byte_eqb x20 x2c) with false. cbv iota.
    rewrite rev_app_distr, rev_involutive. cbn [map]. f_equal.
    destruct (plain_text_ends u Hu) as [c [s [_ [_ [E [_ [_ [_ F]]]]]]]].
    pose proof (IH u [x20] F Hrest) as H. cbn [rev app] in H. exact H.
Qed.

Lemma Join_plain_ends (texts : list (list byte)) :
  forall t,
    plain_text t = true -> Forall (fun t => plain_text t = true) texts ->
    exists c s s' c',
      strings.Join (t :: texts) [x2c; x20] = c :: s /\
      strings.Join (t :: texts) [x2c; x20] = s' ++ [c'] /\
      plain_byte c = true /\ plain_byte c' = true.
Proof.
  induction texts as [| u texts IH]; intros t Ht Hall.
  - destruct (plain_text_ends t Ht) as [c [s [s' [c' [E1 [E2 [P1 [P2 _]]]]]]]].
    exists c, s, s', c'. cbn [strings.Join]. repeat split; assumption.
  - inversion Hall as [| ? ? Hu Hrest]; subst.
    destruct (IH u Hu Hrest) as [_ [_ [r' [c' [_ [E2 [_ P2]]]]]]].
    destruct (plain_text_ends t Ht) as [c [s [_ [_ [E1 [_ [P1 _]]]]]]].
    change (strings.Join (t :: u :: texts) [x2c; x20])
      with (t ++ [x2c; x20] ++ strings.Join (u :: texts) [x2c; x20]).
    rewrite E2. subst t.
    exists c, (s ++ [x2c; x20] ++ r' ++ [c']), ((c :: s) ++ [x2c; x20] ++ r'), c'.
    repeat split; try assumption.
    now rewrite <- !app_assoc.
Qed.

Section VectorString.
Variable ParseFloat : list byte -> Z -> float64 * option strconv.NumError.
Variable ParseInt : list byte -> Z -> Z -> int64 * option strconv.NumError.
Variable narrow : float64 -> float32.

(** X18: what [Scan] makes of the text [String] writes. The [NULL] of
    a vector that is not valid is refused as an invalid vector string;
    the [[]] of a valid vector without data gives the empty valid
    vector; and the text of a valid vector with data gives its data
    back, with the dimension of the data, provided [%v] prints every
    element as a plain text (ASCII, no blank, no comma) that the parser
    of [strconv] reads back as that element. *)
Theorem Vector_String_then_Scan (T : ElementType) (format : elem T -> list byte)
  (v v0 : Vector.t T) :
  (Vector.Valid v = false ->
   Vector.Scan ParseFloat ParseInt narrow v0 (VString (Vector.String format v))
   = Return (v0, Some (InvalidVectorString null_text))) /\
  (Vector.Valid v = true -> Vector.Data v = [] ->
   Vector.Scan ParseFloat ParseInt narrow v0 (VString (Vector.String format v))
   = Return (Vector.mk [] 0 true, None)) /\
  (Vector.Valid v = true -> Vector.Data v <> [] ->
   (forall e, In e (Vector.Data v) ->
      plain_text (format e) = true /\
      parse_elem ParseFloat ParseInt narrow T (format e) = (e, None)) ->
   Vector.Scan ParseFloat ParseInt narrow v0 (VString (Vector.String format v))
   = Return (Vector.mk (Vector.Data v) (Z.of_nat (length (Vector.Data v))) true, None)).
Proof.
  split; [| split].
  - intros Hv. unfold Vector.String. rewrite Hv. reflexivity.
  - intros Hv Hd. unfold Vector.String. rewrite Hv, Hd. reflexivity.
  - intros Hv Hd Hfmt. unfold Vector.String. rewrite Hv. cbn [negb].
    destruct (Vector.Data v) as [| e l] eqn:E; [contradiction |].
    replace (Z.of_nat (length (e :: l)) =? 0) with false
      by (symmetry; apply Z.eqb_neq; cbn [length]; lia).
    cbv zeta. cbn [map].
    assert (He : plain_text (format e) = true) by (apply Hfmt; now left).
    assert (Hl : Forall (fun t => plain_text t = true) (map format l)).
    { apply Forall_forall. intros t Ht. apply in_map_iff in Ht.
      destruct Ht as [x [<- Hx]]. apply Hfmt. now right. }
    set (inner := strings.Join (format e :: map format l) [x2c; x20]).
    destruct (Join_plain_ends (map format l) (format e) He Hl)
      as [c [s [s' [c' [J1 [J2 [P1 P2]]]]]]].
    fold inner in J1, J2.
    apply plain_byte_spec in P1, P2. destruct P1 as [A1 [A2 _]], P2 as [B1 [B2 _]].
    assert (Tin : strings.TrimSpace inner = inner).
    { rewrite J1. apply (TrimSpace_stops c c' s s'); try assumption. now rewrite <- J1. }
    assert (Tall : strings.TrimSpace ([x5b] ++ inner ++ [x5d]) = [x5b] ++ inner ++ [x5d]).
    { cbn [app]. apply (TrimSpace_stops x5b x5d _ (x5b :: inner));
        reflexivity || (vm_compute; reflexivity). }
    cbn [Vector.Scan].
    rewrite (Vector_scanFromString_bracketed ParseFloat ParseInt narrow T v0 _ inner Tall)
      by (rewrite Tin, J1; discriminate).
    cbv zeta. rewrite Tin. unfold inner.
    destruct (plain_text_ends (format e) He) as [_ [_ [_ [_ [_ [_ [_ [_ Fe]]]]]]]].
    rewrite Split1_Join by assumption. cbn [rev app].
    pose proof (parse_parts_all ParseFloat ParseInt narrow T
                  (format e :: map (fun t => x20 :: t) (map format l)) 0
                  (repeat (zero T) (length (format e :: map (fun t => x20 :: t)
                                                         (map format l))))) as P.
    change (Z.of_nat 0) with 0 in P. rewrite P.
    + cbn [bind firstn app]. do 2 f_equal.
      assert (M : map (fun part => part_value ParseFloat ParseInt narrow T part)
                    (format e :: map (fun t => x20 :: t) (map format l))
                  = e :: l).
      { cbn [map]. f_equal.
        - unfold part_value. rewrite (proj1 (TrimSpace_plain _ He)).
          now rewrite (proj2 (Hfmt e (or_introl eq_refl))).
        - rewrite !map_map. rewrite <- (map_id l) at 2. apply map_ext_in.
          intros x Hx. unfold part_value.
          destruct (Hfmt x (or_intror Hx)) as [Hp Hparse].
          rewrite (proj2 (TrimSpace_plain _ Hp)). now rewrite Hparse. }
      rewrite M. reflexivity.
    + now rewrite repeat_length.
    + apply Forall_cons.
      * unfold part_error. rewrite (proj1 (TrimSpace_plain _ He)).
        now rewrite (proj2 (Hfmt e (or_introl eq_refl))).
      * apply Forall_forall. intros t Ht. rewrite map_map in Ht.
        apply in_map_iff in Ht. destruct Ht as [x [<- Hx]].
        destruct (Hfmt x (or_intror Hx)) as [Hp Hparse].
        unfold part_error. rewrite (proj2 (TrimSpace_plain _ Hp)). now rewrite Hparse.
Qed.
End VectorString.

Lemma Vector_String_then_Scan_witness :
  Vector.Scan no_parse_float one_digit_int no_narrow one_two
    (VString (Vector.String one_digit_format (Vector.mk (Vector.Data one_two) 2 false)))
  = Return (one_two, Some (InvalidVectorString null_text)) /\
  Vector.Scan no_parse_float one_digit_int no_narrow one_two
    (VString (Vector.String one_digit_format (Vector.NewVector (T := TInt64) [])))
  = Return (Vector.mk [] 0 true, None) /\
  Vector.Scan no_parse_float one_digit_int no_narrow (Vector.NewVector (T := TInt64) [])
    (VString (Vector.String one_digit_format one_two))
  = Return (one_two, None).
Proof.
  split; [| split].
  - apply (proj1 (Vector_String_then_Scan no_parse_float one_digit_int no_narrow TInt64
                    one_digit_format (Vector.mk (Vector.Data one_two) 2 false) one_two)).
    reflexivity.
  - apply (proj1 (proj2 (Vector_String_then_Scan no_parse_float one_digit_int no_narrow
                           TInt64 one_digit_format (Vector.NewVector (T := TInt64) [])
                           one_two))); reflexivity.
  - apply (proj2 (proj2 (Vector_String_then_Scan no_parse_float one_digit_int no_narrow
                           TInt64 one_digit_format one_two
                           (Vector.NewVector (T := TInt64) [])))).
    + reflexivity.
    + discriminate.
    + intros e [<- | [<- | []]]; split; vm_compute; reflexivity.
Defined.

(** ** JSON: the round trip *)

Section JSONRoundTrip.
Variable T : Type.
Variable Marshal : T -> list byte + json.error.
Variable Unmarshal : list byte -> T -> T * option json.error.

End JSONRoundTrip.


(** ** Point: the text decoder on decimal numbers *)

Lemma accept_hit (ok : list Z) (b : byte) (t buf : list byte) (n : Z) :
  (fmt.hugeWid <=? n) = false -> (byte.unsigned b <? utf8.RuneSelf) = true ->
  existsb (Z.eqb (byte.unsigned b)) ok = true ->
  fmt.accept ok ({| fmt.input := b :: t; fmt.count := n |}, buf)
  = (true, ({| fmt.input := t; fmt.count := n + 1 |}, buf ++ [b])).
Proof.
  intros Hn Hb Hok. unfold fmt.accept. rewrite getRune_ascii by assumption.
  rewrite Hok. now rewrite byte.of_Z_unsigned.
Qed.

Lemma accept_miss (ok : list Z) (b : byte) (t buf : list byte) (n : Z) :
  (fmt.hugeWid <=? n) = false -> (byte.unsigned b <? utf8.RuneSelf) = true ->
  existsb (Z.eqb (byte.unsigned b)) ok = false ->
  fmt.accept ok ({| fmt.input := b :: t; fmt.count := n |}, buf)
  = (false, ({| fmt.input := b :: t; fmt.count := n |}, buf)).
Proof.
  intros Hn Hb Hok. unfold fmt.accept. rewrite getRune_ascii by assumption.
  now rewrite Hok.
Qed.

Lemma digit_ascii (b : byte) :
  is_digit b = true -> (byte.unsigned b <? utf8.RuneSelf) = true.
Proof.
  unfold is_digit, utf8.RuneSelf. rewrite andb_true_iff, Z.leb_le, Z.leb_le.
  intros H. apply Z.ltb_lt. lia.
Qed.

Lemma digit_misses (b : byte) (ok : list Z) :
  is_digit b = true ->
  forallb (fun r => (r <? 0x30) || (0x39 <? r)) ok = true ->
  existsb (Z.eqb (byte.unsigned b)) ok = false.
Proof.
  unfold is_digit. rewrite andb_true_iff, Z.leb_le, Z.leb_le. intros H.
  induction ok as [| r ok IH]; cbn [forallb existsb]; [reflexivity |].
  rewrite andb_true_iff, orb_true_iff, !Z.ltb_lt. intros [Hr Hok].
  rewrite IH by exact Hok.
  replace (byte.unsigned b =? r) with false by (symmetry; apply Z.eqb_neq; lia).
  reflexivity.
Qed.

Lemma digit_hits (b : byte) :
  is_digit b = true ->
  existsb (Z.eqb (byte.unsigned b)) (fmt.decimalDigits ++ fmt.underscore) = true.
Proof.
  intros H. destruct b; vm_compute in H; try discriminate H; reflexivity.
Qed.

(** [accept] fails before digits and a byte that are all outside
    [ok]. *)
Lemma accept_miss_digits (ok : list Z) (ds : list byte) (c : byte) (t buf : list byte)
  (n : Z) :
  (fmt.hugeWid <=? n) = false -> forallb is_digit ds = true ->
  forallb (fun r => (r <? 0x30) || (0x39 <? r)) ok = true ->
  (byte.unsigned c <? utf8.RuneSelf) = true ->
  existsb (Z.eqb (byte.unsigned c)) ok = false ->
  fmt.accept ok ({| fmt.input := ds ++ c :: t; fmt.count := n |}, buf)
  = (false, ({| fmt.input := ds ++ c :: t; fmt.count := n |}, buf)).
Proof.
  intros Hn Hds Hok Hc Hmiss. destruct ds as [| b ds]; cbn [app].
  - now apply accept_miss.
  - cbn [forallb] in Hds. apply andb_true_iff in Hds. destruct Hds as [Hb _].
    apply accept_miss; [assumption | now apply digit_ascii | now apply digit_misses].
Qed.

(** [accept_many] takes the digits up to a byte that is none. *)
Lemma accept_many_digits (ds : list byte) :
  forall (fuel : nat) (c : byte) (t buf : list byte) (n : Z),
    forallb is_digit ds = true -> (length ds < fuel)%nat ->
    n + Z.of_nat (length ds) < fmt.hugeWid ->
    (byte.unsigned c <? utf8.RuneSelf) = true ->
    existsb (Z.eqb (byte.unsigned c)) (fmt.decimalDigits ++ fmt.underscore) = false ->
    fmt.accept_many fuel (fmt.decimalDigits ++ fmt.underscore)
      ({| fmt.input := ds ++ c :: t; fmt.count := n |}, buf)
    = ({| fmt.input := c :: t; fmt.count := n + Z.of_nat (length ds) |}, buf ++ ds).
Proof.
  induction ds as [| b ds IH]; intros fuel c t buf n Hds Hfuel Hn Hc Hmiss.
  - destruct fuel as [| fuel]; [cbn [length] in Hfuel; lia |].
    cbn [app fmt.accept_many length] in *.
    rewrite accept_miss by (try assumption; apply Z.leb_gt; lia).
    rewrite app_nil_r. f_equal. f_equal. lia.
  - destruct fuel as [| fuel]; [cbn [length] in Hfuel; lia |].
    cbn [forallb] in Hds. apply andb_true_iff in Hds. destruct Hds as [Hb Hds].
    cbn [app fmt.accept_many length] in *.
    rewrite accept_hit
      by (first [apply Z.leb_gt; lia | now apply digit_ascii | now apply digit_hits]).
    rewrite IH by (try assumption; lia).
    rewrite <- app_assoc. cbn [app]. f_equal. f_equal. lia.
Qed.

Ltac side :=
  first [ assumption | reflexivity
        | apply Z.leb_gt; lia
        | apply digit_ascii; assumption
        | apply digit_hits; assumption
        | apply digit_misses; [assumption | reflexivity]
        | match goal with
          | H : forall ok, _ -> existsb _ ok = false |- _ => apply H; reflexivity
          end
        | match goal with
          | H : (byte.unsigned _ =? byte.unsigned x30) = false |- _ =>
            cbn [existsb fmt.runes map]; rewrite H; reflexivity
          end
        | cbn [forallb]; rewrite ?andb_true_iff; repeat split; assumption
        | cbn [length] in *; lia ].

Lemma accept_many_digits_cons (b : byte) (ds : list byte) (fuel : nat) (c : byte)
  (t buf : list byte) (n : Z) :
  is_digit b = true -> forallb is_digit ds = true -> (S (length ds) < fuel)%nat ->
  n + Z.of_nat (S (length ds)) < fmt.hugeWid ->
  (byte.unsigned c <? utf8.RuneSelf) = true ->
  existsb (Z.eqb (byte.unsigned c)) (fmt.decimalDigits ++ fmt.underscore) = false ->
  fmt.accept_many fuel (fmt.decimalDigits ++ fmt.underscore)
    ({| fmt.input := b :: ds ++ c :: t; fmt.count := n |}, buf)
  = ({| fmt.input := c :: t; fmt.count := n + Z.of_nat (S (length ds)) |},
     buf ++ b :: ds).
Proof.
  intros Hb Hds Hfuel Hn Hc Hmiss.
  apply (accept_many_digits (b :: ds)); try assumption.
  cbn [forallb]. now rewrite Hb, Hds.
Qed.

Ltac step :=
  first [ rewrite accept_hit by side
        | rewrite accept_miss by side
        | rewrite accept_miss_digits by side
        | rewrite accept_many_digits by side
        | rewrite accept_many_digits_cons by side ];
  cbv beta iota.

Lemma floatToken_decimal (sx ix fx : list byte) (d : byte) (rest : list byte) (n : Z) :
  decimal sx ix fx = true -> d = x20 \/ d = x29 ->
  n + Z.of_nat (length (sx ++ ix ++ fx)) < fmt.hugeWid ->
  fmt.floatToken {| fmt.input := (sx ++ ix ++ fx) ++ d :: rest; fmt.count := n |}
  = (sx ++ ix ++ fx,
     {| fmt.input := d :: rest; fmt.count := n + Z.of_nat (length (sx ++ ix ++ fx)) |}).
Proof.
  intros Hdec Hd Hn. unfold decimal in Hdec.
  apply andb_true_iff in Hdec. destruct Hdec as [Hdec Hf].
  apply andb_true_iff in Hdec. destruct Hdec as [Hs Hi].
  destruct ix as [| b0 ip]; [discriminate Hi |].
  cbn [integer_part forallb] in Hi. apply andb_true_iff in Hi. destruct Hi as [Hb0 Hip].
  assert (Dd : (byte.unsigned d <? utf8.RuneSelf) = true /\
               forall ok, forallb (fun r => negb (r =? 0x20) && negb (r =? 0x29)) ok = true ->
                          existsb (Z.eqb (byte.unsigned d)) ok = false).
  { split; [destruct Hd; subst d; reflexivity |].
    intros ok. induction ok as [| r ok IH]; cbn [forallb existsb]; [reflexivity |].
    rewrite !andb_true_iff, !negb_true_iff, !Z.eqb_neq. intros [[H1 H2] Hok].
    rewrite IH by exact Hok.
    replace (byte.unsigned d =? r) with false; [reflexivity |].
    symmetry. apply Z.eqb_neq. destruct Hd; subst d; cbn; lia. }
  destruct Dd as [Dd1 Dd2].
  unfold fmt.floatToken. rewrite !length_app in Hn. cbn [length] in Hn.
  cbn [fmt.input].
  set (fuel := S (length ((sx ++ (b0 :: ip) ++ fx) ++ d :: rest))).
  assert (Hfuel : (S (length ip) < fuel /\ length fx < fuel)%nat).
  { unfold fuel. rewrite !length_app. cbn [length]. rewrite ?length_app. lia. }
  destruct Hfuel as [Hfuel1 Hfuel2].
  assert (Hsx : sx = [] \/ sx = [x2b] \/ sx = [x2d]).
  { destruct sx as [| s [| s2 sx']]; [now left | | discriminate Hs].
    cbn [sign_part] in Hs. apply orb_true_iff in Hs. right.
    destruct Hs as [E | E]; apply Z.eqb_eq in E;
      [left; f_equal; apply byte.unsigned_inj; exact E
      | right; f_equal; apply byte.unsigned_inj; exact E]. }
  assert (Hfx : fx = [] \/ exists ds, fx = x2e :: ds /\ forallb is_digit ds = true).
  { destruct fx as [| c ds]; [now left |]. right. exists ds.
    cbn [fraction_part] in Hf. apply andb_true_iff in Hf. destruct Hf as [E Hds].
    apply Z.eqb_eq in E. split; [| exact Hds]. f_equal. apply byte.unsigned_inj. exact E. }
  clear Hs Hf.
  destruct (byte.unsigned b0 =? byte.unsigned x30) eqn:E0;
    [apply Z.eqb_eq in E0; apply (byte.unsigned_inj b0 x30) in E0; subst b0 |];
    destruct Hsx as [-> | [-> | ->]];
    destruct Hfx as [-> | [ds [-> Hds]]];
    rewrite <- ?app_assoc; cbn [app length] in *.
  all: repeat step.
  all: cbn [fst snd app]; f_equal;
    try (rewrite <- ?app_assoc; cbn [app]; rewrite ?app_nil_r; reflexivity);
    try (f_equal; rewrite ?length_app; cbn [length]; lia).
Qed.

Lemma literal_ascii (lit : list byte) :
  forall (rest : list byte) (n : Z),
    forallb (fun b => byte.unsigned b <? utf8.RuneSelf) lit = true ->
    n + Z.of_nat (length lit) <= fmt.hugeWid ->
    fmt.literal lit {| fmt.input := lit ++ rest; fmt.count := n |}
    = fmt.SOk tt {| fmt.input := rest; fmt.count := n + Z.of_nat (length lit) |}.
Proof.
  induction lit as [| c lit IH]; intros rest n Hlit Hn.
  - cbn [fmt.literal app length]. do 2 f_equal. lia.
  - cbn [forallb length] in *. apply andb_true_iff in Hlit. destruct Hlit as [Hc Hlit].
    cbn [fmt.literal app].
    rewrite getRune_ascii by (first [apply Z.leb_gt; lia | exact Hc]).
    rewrite Z.eqb_refl. rewrite IH by (try assumption; lia).
    do 2 f_equal. lia.
Qed.

Lemma not_space_not_newline (r : Z) :
  unicode.IsSpace r = false -> (r =? 13) = false /\ (r =? 10) = false.
Proof.
  intros H. split; apply Z.eqb_neq; intros ->; discriminate H.
Qed.

Lemma SkipSpace_stops (b : byte) (t : list byte) (n : Z) :
  (fmt.hugeWid <=? n) = false -> (byte.unsigned b <? utf8.RuneSelf) = true ->
  unicode.IsSpace (byte.unsigned b) = false ->
  fmt.SkipSpace {| fmt.input := b :: t; fmt.count := n |}
  = fmt.SOk tt {| fmt.input := b :: t; fmt.count := n |}.
Proof.
  intros Hn Hb Hs. unfold fmt.SkipSpace. cbn [fmt.SkipSpace_loop].
  rewrite getRune_ascii by assumption.
  destruct (not_space_not_newline _ Hs) as [-> ->]. now rewrite Hs.
Qed.

Lemma notEOF_ascii (b : byte) (t : list byte) (n : Z) :
  (fmt.hugeWid <=? n) = false -> (byte.unsigned b <? utf8.RuneSelf) = true ->
  fmt.notEOF {| fmt.input := b :: t; fmt.count := n |}
  = fmt.SOk tt {| fmt.input := b :: t; fmt.count := n |}.
Proof.
  intros Hn Hb. unfold fmt.notEOF. now rewrite getRune_ascii by assumption.
Qed.

Lemma digit_no_space (b : byte) :
  is_digit b = true -> unicode.IsSpace (byte.unsigned b) = false.
Proof.
  intros H. destruct b; vm_compute in H; try discriminate H; reflexivity.
Qed.

(** A decimal number begins with an ASCII byte that is no blank. *)
Lemma decimal_head (sx ix fx tail : list byte) :
  decimal sx ix fx = true ->
  exists b t,
    (sx ++ ix ++ fx) ++ tail = b :: t /\
    (byte.unsigned b <? utf8.RuneSelf) = true /\
    unicode.IsSpace (byte.unsigned b) = false.
Proof.
  unfold decimal. rewrite !andb_true_iff. intros [[Hs Hi] _].
  destruct ix as [| b0 ip]; [discriminate Hi |].
  cbn [integer_part forallb] in Hi. apply andb_true_iff in Hi. destruct Hi as [Hb0 _].
  destruct sx as [| s [| s2 sx']]; [| | discriminate Hs].
  - eexists. eexists. split; [reflexivity |].
    split; [now apply digit_ascii | now apply digit_no_space].
  - eexists. eexists. split; [reflexivity |].
    cbn [sign_part] in Hs. apply orb_true_iff in Hs.
    destruct Hs as [E | E]; apply Z.eqb_eq in E; rewrite E; split; reflexivity.
Qed.

Section PointText.
Variable convertFloat : list byte -> option float64.
Variable spare_cap : nat -> nat.

(** The verb [%f] on a decimal number that a blank or a closing
    parenthesis follows. *)
Lemma scan_f_decimal (sx ix fx : list byte) (d : byte) (rest : list byte) (n : Z) :
  decimal sx ix fx = true -> d = x20 \/ d = x29 ->
  n + Z.of_nat (length (sx ++ ix ++ fx)) < fmt.hugeWid ->
  fmt.scan_f convertFloat {| fmt.input := (sx ++ ix ++ fx) ++ d :: rest; fmt.count := n |}
  = match convertFloat (sx ++ ix ++ fx) with
    | Some f =>
      fmt.SOk f {| fmt.input := d :: rest;
                   fmt.count := n + Z.of_nat (length (sx ++ ix ++ fx)) |}
    | None => fmt.SErr (fmt.ErrSyntax (sx ++ ix ++ fx))
    end.
Proof.
  intros Hdec Hd Hn. unfold fmt.scan_f, fmt.sbind.
  pose proof (floatToken_decimal sx ix fx d rest n Hdec Hd Hn) as F.
  destruct (decimal_head sx ix fx (d :: rest) Hdec) as [b [t [E [Hb Hs]]]].
  rewrite E in *.
  assert (Hn0 : (fmt.hugeWid <=? n) = false) by (apply Z.leb_gt; lia).
  rewrite !SkipSpace_stops by assumption.
  rewrite notEOF_ascii by assumption.
  rewrite F. reflexivity.
Qed.

(** One blank of the format on one blank of the input, before a byte
    that is none. *)
Lemma blank_one (b : byte) (t : list byte) (n : Z) :
  (fmt.hugeWid <=? n + 1) = false -> (byte.unsigned b <? utf8.RuneSelf) = true ->
  unicode.IsSpace (byte.unsigned b) = false ->
  fmt.blank {| fmt.input := x20 :: b :: t; fmt.count := n |}
  = fmt.SOk tt {| fmt.input := b :: t; fmt.count := n + 1 |}.
Proof.
  intros Hn Hb Hs.
  assert (Hn0 : (fmt.hugeWid <=? n) = false)
    by (apply Z.leb_gt; apply Z.leb_gt in Hn; lia).
  unfold fmt.blank. rewrite getRune_ascii by (assumption || reflexivity).
  change (unicode.IsSpace (byte.unsigned x20)) with true.
  change (byte.unsigned x20 =? 10) with false. cbv iota. cbn [negb].
  cbn [fmt.input length fmt.blanks_loop].
  rewrite getRune_ascii by (assumption || reflexivity).
  change (unicode.IsSpace (byte.unsigned x20)) with true.
  change (byte.unsigned x20 =? 10) with false. cbn [negb andb].
  rewrite getRune_ascii by assumption. now rewrite Hs.
Qed.

Lemma Sscanf_POINT_decimal (sx ix fx sy iy fy rest : list byte) :
  decimal sx ix fx = true -> decimal sy iy fy = true ->
  Z.of_nat (length (point_text (sx ++ ix ++ fx) (sy ++ iy ++ fy))) < 2 ^ 30 ->
  fmt.Sscanf_POINT convertFloat (point_text (sx ++ ix ++ fx) (sy ++ iy ++ fy) ++ rest)
  = match convertFloat (sx ++ ix ++ fx), convertFloat (sy ++ iy ++ fy) with
    | Some x, Some y => inl (x, y)
    | Some _, None => inr (fmt.ErrSyntax (sy ++ iy ++ fy))
    | None, _ => inr (fmt.ErrSyntax (sx ++ ix ++ fx))
    end.
Proof.
  intros Hx Hy Hlen. unfold point_text in *.
  set (tx := sx ++ ix ++ fx) in *. set (ty := sy ++ iy ++ fy) in *.
  rewrite !length_app in Hlen. cbn [length] in Hlen.
  change (2 ^ 30) with fmt.hugeWid in Hlen.
  unfold fmt.Sscanf_POINT, fmt.sbind, fmt.start.
  rewrite <- !app_assoc.
  rewrite literal_ascii by (first [reflexivity | cbn [length]; lia]).
  cbn [length]. cbn [app].
  change (tx ++ x20 :: ty ++ x29 :: rest) with (tx ++ x20 :: (ty ++ x29 :: rest)).
  unfold tx at 1.
  rewrite scan_f_decimal by (first [assumption | now left | fold tx; lia]).
  fold tx. destruct (convertFloat tx) as [x |]; [| reflexivity].
  destruct (decimal_head sy iy fy (x29 :: rest) Hy) as [b [t [E [Hb Hs]]]].
  fold ty in E.
  rewrite E. rewrite blank_one by (first [assumption | apply Z.leb_gt; lia]).
  rewrite <- E. unfold ty at 1.
  rewrite scan_f_decimal by (first [assumption | now right | fold ty; lia]).
  fold ty. destruct (convertFloat ty) as [y |]; [| reflexivity].
  cbn [fmt.literal].
  rewrite getRune_ascii by (first [reflexivity | apply Z.leb_gt; lia]).
  reflexivity.
Qed.
(** X20: [Point.Scan] of the text [POINT(x y)], where [x] and [y] are
    decimal numbers (an optional sign, digits, an optional fraction)
    with one blank between them, gives the two numbers as [fmt] converts
    their tokens; what follows the closing parenthesis is not read. When
    the conversion refuses one of the two tokens, [Scan] returns a parse
    error that carries the whole text and leaves the receiver alone. The
    text may be a string or a [[]byte]; [fmt] reads at most [2^30]
    runes. *)
Theorem Point_Scan_text_decimal (p : Point) (v : value)
  (sx ix fx sy iy fy rest : list byte) :
  let tx := sx ++ ix ++ fx in
  let ty := sy ++ iy ++ fy in
  decimal sx ix fx = true -> decimal sy iy fy = true ->
  carries v (point_text tx ty ++ rest) ->
  Z.of_nat (length (point_text tx ty)) < 2 ^ 30 ->
  (forall x y,
     convertFloat tx = Some x -> convertFloat ty = Some y ->
     Point.Scan convertFloat spare_cap p v = Return ({| X := x; Y := y |}, None)) /\
  (convertFloat tx = None \/ convertFloat ty = None ->
   exists e,
     Point.Scan convertFloat spare_cap p v
     = Return (p, Some (PointParseFailure (point_text tx ty ++ rest) e))).
Proof.
  intros tx ty Hx Hy Hv Hlen.
  pose proof (Sscanf_POINT_decimal sx ix fx sy iy fy rest Hx Hy Hlen) as S.
  fold tx ty in S.
  assert (H5 : (5 < length (point_text tx ty ++ rest))%nat).
  { unfold point_text. rewrite !length_app. cbn [length]. lia. }
  assert (E : exists sp,
            Point.Scan convertFloat spare_cap p v
            = Point.scan_bytes convertFloat p
                {| elems := point_text tx ty ++ rest; spare := sp |}).
  { destruct Hv as [-> | [sp ->]]; eexists; reflexivity. }
  destruct E as [sp ->]. split.
  - intros x y Ex Ey. rewrite Ex, Ey in S.
    unfold Point.scan_bytes, len. cbn [elems].
    replace (5 <? Z.of_nat (length (point_text tx ty ++ rest))) with true
      by (symmetry; apply Z.ltb_lt; lia).
    change (index {| elems := point_text tx ty ++ rest; spare := sp |} 0)
      with (index {| elems := point_text tx ty ++ rest; spare := sp |} (Z.of_nat 0)).
    rewrite index_within by (cbn [elems]; lia). cbn [bind elems].
    change (nth 0 (point_text tx ty ++ rest) x00) with x50.
    change ((byte.unsigned x50 =? 80) || (byte.unsigned x50 =? 112)) with true.
    cbv iota. now rewrite S.
  - intros Hnone.
    assert (F : exists e0, fmt.Sscanf_POINT convertFloat (point_text tx ty ++ rest)
                           = inr e0).
    { rewrite S. destruct Hnone as [-> | ->]; [eexists; reflexivity |].
      destruct (convertFloat tx); eexists; reflexivity. }
    destruct F as [e0 F].
    destruct (Point_scan_bytes_text convertFloat p
                {| elems := point_text tx ty ++ rest; spare := sp |}) with (e0 := e0)
      as [e [_ R]].
    + unfold len. cbn [elems]. lia.
    + reflexivity.
    + exact F.
    + exists e. exact R.
Qed.
End PointText.

Lemma Point_Scan_text_decimal_witness :
  Point.Scan one_digit_float exact_cap nan_point (VString (point_text [x31] [x32]))
  = Return ({| X := word.of_Z 0x3FF0000000000000; Y := word.of_Z 0x4000000000000000 |},
            None) /\
  exists e,
    Point.Scan one_digit_float exact_cap nan_point
      (VString (point_text [x31; x2e; x35] [x32]))
    = Return (nan_point, Some (PointParseFailure (point_text [x31; x2e; x35] [x32]) e)).
Proof.
  split.
  - apply (proj1 (Point_Scan_text_decimal one_digit_float exact_cap nan_point
                    (VString (point_text [x31] [x32])) [] [x31] [] [] [x32] [] []
                    eq_refl eq_refl (or_introl eq_refl)
                    ltac:(vm_compute; reflexivity))
             (word.of_Z 0x3FF0000000000000) (word.of_Z 0x4000000000000000));
      reflexivity.
  - destruct (proj2 (Point_Scan_text_decimal one_digit_float exact_cap nan_point
                       (VString (point_text [x31; x2e; x35] [x32]))
                       [] [x31] [x2e; x35] [] [x32] [] []
                       eq_refl eq_refl (or_introl eq_refl)
                       ltac:(vm_compute; reflexivity))
                (or_introl eq_refl)) as [e H].
    exists e. exact H.
Defined.

(** ** Point: binary data that begins with the letter P *)

Lemma lor_small (a b k : Z) :
  0 <= a -> 0 <= b -> 0 <= k -> Z.lor a b < 2 ^ k -> a < 2 ^ k.
Proof.
  intros Ha Hb Hk H.
  assert (P : 0 < 2 ^ k) by (apply Z.pow_pos_nonneg; lia).
  assert (S : Z.shiftr (Z.lor a b) k = 0).
  { rewrite Z.shiftr_div_pow2 by lia. apply Z.div_small. split; [| exact H].
    apply Z.lor_nonneg. now split. }
  rewrite Z.shiftr_lor in S. apply Z.lor_eq_0_iff in S. destruct S as [S _].
  rewrite Z.shiftr_div_pow2 in S by lia.
  apply Z.div_small_iff in S; lia.
Qed.

Lemma low6_nonneg (b : byte) : 0 <= utf8.low6 b.
Proof. unfold utf8.low6. apply Z.land_nonneg. right. lia. Qed.

Lemma lead_nonneg (b : byte) (m k : Z) :
  0 <= m -> 0 <= Z.shiftl (Z.land (byte.unsigned b) m) k.
Proof. intros H. apply Z.shiftl_nonneg, Z.land_nonneg. now right. Qed.

Ltac rune_of H Hr :=
  apply (f_equal fst) in H; cbn [fst] in H; rewrite <- H in Hr; clear H.

Lemma DecodeRune_ascii_inv (p : list byte) (r : Z) (size : nat) :
  utf8.DecodeRune p = (r, size) -> r < 0x80 -> size <> 0%nat ->
  exists b t, p = b :: t /\ r = byte.unsigned b /\ size = 1%nat.
Proof.
  destruct p as [| b0 t]; [cbn; intros H; inversion H; contradiction |].
  unfold utf8.DecodeRune, utf8.RuneSelf, utf8.RuneError.
  destruct (byte.unsigned b0 <? 128) eqn:A.
  { intros H _ _. inversion H. now exists b0, t. }
  intros H Hr _. exfalso.
  destruct (utf8.between 194 223 b0) eqn:B2.
  { destruct t as [| b1 t]; [rune_of H Hr; lia |].
    destruct (utf8.continuation b1); [| rune_of H Hr; lia].
    rune_of H Hr. apply (lor_small _ _ 7) in Hr;
      [| apply lead_nonneg; lia | apply low6_nonneg | lia].
    clear - B2 Hr. destruct b0; vm_compute in B2; try discriminate B2;
      vm_compute in Hr; discriminate Hr. }
  destruct (utf8.between 224 239 b0) eqn:B3.
  { destruct t as [| b1 [| b2 t]]; try (rune_of H Hr; lia).
    destruct (utf8.between _ _ b1 && utf8.continuation b2) eqn:C;
      [| rune_of H Hr; lia].
    apply andb_true_iff in C. destruct C as [C _].
    rune_of H Hr.
    apply (lor_small _ _ 7) in Hr;
      [| apply Z.lor_nonneg; split;
         [apply lead_nonneg; lia | apply Z.shiftl_nonneg, low6_nonneg]
       | apply low6_nonneg | lia].
    pose proof Hr as Hr2. rewrite Z.lor_comm in Hr2.
    apply (lor_small _ _ 7) in Hr;
      [| apply lead_nonneg; lia | apply Z.shiftl_nonneg, low6_nonneg | lia].
    apply (lor_small _ _ 7) in Hr2;
      [| apply Z.shiftl_nonneg, low6_nonneg | apply lead_nonneg; lia | lia].
    clear - B3 C Hr Hr2. destruct b0; vm_compute in B3; try discriminate B3;
      try (vm_compute in Hr; discriminate Hr).
    destruct b1; vm_compute in C; try discriminate C;
      vm_compute in Hr2; discriminate Hr2. }
  destruct (utf8.between 240 244 b0) eqn:B4.
  { destruct t as [| b1 [| b2 [| b3 t]]]; try (rune_of H Hr; lia).
    destruct (utf8.between _ _ b1 && utf8.continuation b2 && utf8.continuation b3) eqn:C;
      [| rune_of H Hr; lia].
    apply andb_true_iff in C. destruct C as [C _].
    apply andb_true_iff in C. destruct C as [C _].
    rune_of H Hr.
    apply (lor_small _ _ 7) in Hr;
      [| apply Z.lor_nonneg; split;
         [apply Z.lor_nonneg; split;
          [apply lead_nonneg; lia | apply Z.shiftl_nonneg, low6_nonneg]
         | apply Z.shiftl_nonneg, low6_nonneg]
       | apply low6_nonneg | lia].
    apply (lor_small _ _ 7) in Hr;
      [| apply Z.lor_nonneg; split;
         [apply lead_nonneg; lia | apply Z.shiftl_nonneg, low6_nonneg]
       | apply Z.shiftl_nonneg, low6_nonneg | lia].
    pose proof Hr as Hr2. rewrite Z.lor_comm in Hr2.
    apply (lor_small _ _ 7) in Hr;
      [| apply lead_nonneg; lia | apply Z.shiftl_nonneg, low6_nonneg | lia].
    apply (lor_small _ _ 7) in Hr2;
      [| apply Z.shiftl_nonneg, low6_nonneg | apply lead_nonneg; lia | lia].
    clear - B4 C Hr Hr2. destruct b0; vm_compute in B4; try discriminate B4;
      try (vm_compute in Hr; discriminate Hr).
    destruct b1; vm_compute in C; try discriminate C;
      vm_compute in Hr2; discriminate Hr2. }
  rune_of H Hr. lia.
Qed.

Lemma getRune_ascii_inv (s s' : fmt.ss) (r : Z) :
  fmt.getRune s = Some (r, s') -> r < 0x80 ->
  exists b, fmt.input s = b :: fmt.input s' /\ r = byte.unsigned b.
Proof.
  unfold fmt.getRune. destruct (fmt.hugeWid <=? fmt.count s); [discriminate |].
  destruct (utf8.DecodeRune (fmt.input s)) as [r0 size] eqn:D.
  destruct size as [| k]; [discriminate |].
  intros H Hr. injection H as -> <-.
  destruct (DecodeRune_ascii_inv _ _ _ D Hr ltac:(discriminate)) as [b [t [E [-> K]]]].
  exists b. injection K as ->. rewrite E. cbn [fmt.input skipn]. now split.
Qed.

(** The literal characters of a format, all ASCII, are read only from
    an input that begins with them. *)
Lemma literal_prefix (lit : list byte) :
  forall s s',
    forallb (fun b => byte.unsigned b <? utf8.RuneSelf) lit = true ->
    fmt.literal lit s = fmt.SOk tt s' ->
    strings.HasPrefix (fmt.input s) lit = true.
Proof.
  induction lit as [| c lit IH]; intros s s' Hlit H.
  - apply HasPrefix_nil.
  - cbn [forallb] in Hlit. apply andb_true_iff in Hlit. destruct Hlit as [Hc Hlit].
    cbn [fmt.literal] in H.
    destruct (fmt.getRune s) as [[r s1] |] eqn:G; [| discriminate H].
    destruct (r =? byte.unsigned c) eqn:E; [| discriminate H].
    apply Z.eqb_eq in E. apply Z.ltb_lt in Hc. unfold utf8.RuneSelf in Hc.
    destruct (getRune_ascii_inv s s1 r G ltac:(lia)) as [b [Ei Er]].
    rewrite Ei. cbn [strings.HasPrefix]. unfold strings.byte_eqb.
    replace (byte.unsigned c =? byte.unsigned b) with true
      by (symmetry; apply Z.eqb_eq; lia).
    cbn [andb]. now apply (IH s1 s').
Qed.

Section PointLetterP.
Variable convertFloat : list byte -> option float64.
Variable spare_cap : nat -> nat.

Lemma Sscanf_POINT_wants_prefix (str : list byte) :
  strings.HasPrefix str POINT_paren = false ->
  exists e, fmt.Sscanf_POINT convertFloat str = inr e.
Proof.
  intros H. unfold fmt.Sscanf_POINT, fmt.sbind.
  destruct (fmt.literal [x50; x4f; x49; x4e; x54; x28] (fmt.start str))
    as [[] s1 | e] eqn:L.
  - apply literal_prefix in L; [| reflexivity].
    cbn [fmt.start fmt.input] in L. unfold POINT_paren in H. congruence.
  - exists e. reflexivity.
Qed.

(** X23: [Point.Scan] takes every input of more than 5 bytes whose
    first byte is the letter [P] or [p] for a text. Unless the input
    begins with [POINT(], it returns a parse error and leaves the
    receiver alone; so it does for binary data whose SRID has the low
    byte [0x50] or [0x70]. *)
Theorem Point_Scan_letter_P (p : Point) (v : value) (data : list byte) :
  carries v data -> (5 < length data)%nat -> is_P (nth 0 data x00) = true ->
  strings.HasPrefix data POINT_paren = false ->
  exists e,
    Point.Scan convertFloat spare_cap p v
    = Return (p, Some (PointParseFailure data e)).
Proof.
  intros Hv Hlen HP Hpre.
  destruct (Sscanf_POINT_wants_prefix data Hpre) as [e0 F].
  assert (E : exists sp,
            Point.Scan convertFloat spare_cap p v
            = Point.scan_bytes convertFloat p {| elems := data; spare := sp |}).
  { destruct Hv as [-> | [sp ->]]; eexists; reflexivity. }
  destruct E as [sp ->].
  destruct (Point_scan_bytes_text convertFloat p {| elems := data; spare := sp |})
    with (e0 := e0) as [e [_ R]].
  - unfold len. cbn [elems]. lia.
  - exact HP.
  - exact F.
  - exists e. exact R.
Qed.
End PointLetterP.

Lemma Point_Scan_letter_P_witness :
  length srid_80_point = 25%nat /\
  exists e,
    Point.Scan one_digit_float exact_cap nan_point (VBytes (freeze srid_80_point))
    = Return (nan_point, Some (PointParseFailure srid_80_point e)).
Proof.
  split; [reflexivity |].
  apply (Point_Scan_letter_P one_digit_float exact_cap nan_point
           (VBytes (freeze srid_80_point)) srid_80_point).
  - right. exists []. reflexivity.
  - vm_compute. lia.
  - reflexivity.
  - reflexivity.
Defined.

(** ** What [Value] never does: fail, or write two values alike *)

Lemma app_inj_length {A : Type} (a a' b b' : list A) :
  a ++ b = a' ++ b' -> length a = length a' -> a = a' /\ b = b'.
Proof.
  revert a'. induction a as [| x a IH]; intros [| x' a'] H L; try discriminate L.
  - now split.
  - cbn [app] in H. injection H as -> H. cbn [length] in L.
    destruct (IH a' H ltac:(lia)) as [-> ->]. now split.
Qed.

Lemma split_inj (o : binary.ByteOrder) (n : nat) (x y : Z) :
  0 <= x < 2 ^ (Z.of_nat n * 8) -> 0 <= y < 2 ^ (Z.of_nat n * 8) ->
  binary.split o n x = binary.split o n y -> x = y.
Proof.
  intros Hx Hy H. apply (f_equal (binary.combine o)) in H.
  rewrite !combine_split in H. now rewrite !Z.mod_small in H by assumption.
Qed.

Lemma point_bytes_inj (p q : Point) : point_bytes p = point_bytes q -> p = q.
Proof.
  unfold point_bytes. intros H.
  apply app_inj_length in H; [| now rewrite !split_length].
  destruct H as [Hx Hy].
  apply split_inj in Hx; [| apply word.unsigned_range ..].
  apply split_inj in Hy; [| apply word.unsigned_range ..].
  unfold math.Float64bits in *. apply word.unsigned_inj in Hx, Hy.
  destruct p, q. cbn [X Y] in *. now subst.
Qed.

Lemma flat_map_point_bytes_inj (l : list Point) :
  forall l', flat_map point_bytes l = flat_map point_bytes l' -> l = l'.
Proof.
  induction l as [| p l IH]; intros [| q l'] H.
  - reflexivity.
  - apply (f_equal (@length byte)) in H. cbn [flat_map] in H.
    rewrite length_app, point_bytes_length in H. cbn [length] in H. lia.
  - apply (f_equal (@length byte)) in H. cbn [flat_map] in H.
    rewrite length_app, point_bytes_length in H. cbn [length] in H. lia.
  - cbn [flat_map] in H.
    apply app_inj_length in H; [| now rewrite !point_bytes_length].
    destruct H as [Hp Hl]. apply point_bytes_inj in Hp. apply IH in Hl. now subst.
Qed.

(** X21: [LineString.Value] never fails and never writes two paths
    alike: paths with the same bytes have the same points, whatever
    their number. *)
Theorem LineString_Value_injective (p q : LineString) :
  (exists b, LineString.Value p = Return (VBytes b, None)) /\
  (LineString.Value p = LineString.Value q -> p = q).
Proof.
  split; [eexists; apply LineString_Value_wkb |].
  rewrite !LineString_Value_wkb. intros H0.
  assert (H : path_wkb (Points p) = path_wkb (Points q))
    by (unfold freeze in H0; congruence). clear H0.
  assert (L : length (Points p) = length (Points q)).
  { apply (f_equal (@length byte)) in H. rewrite !path_wkb_length in H. lia. }
  unfold path_wkb in H. rewrite L in H. apply app_inv_head in H.
  apply flat_map_point_bytes_inj in H. destruct p, q. cbn [Points] in H. now subst.
Qed.

Lemma enc_inj (T : ElementType) (e e' : elem T) : enc T e = enc T e' -> e = e'.
Proof.
  destruct T; cbn [enc elem]; unfold math.Float32bits, math.Float64bits; intros H;
    (apply split_inj in H; [| apply word.unsigned_range ..]);
    now apply word.unsigned_inj in H.
Qed.

Lemma flat_map_enc_inj (T : ElementType) (l : list (elem T)) :
  forall l', flat_map (enc T) l = flat_map (enc T) l' -> l = l'.
Proof.
  induction l as [| e l IH]; intros [| e' l'] H.
  - reflexivity.
  - apply (f_equal (@length byte)) in H. cbn [flat_map] in H.
    rewrite length_app, enc_length in H. cbn [length] in H. destruct T; cbn in H; lia.
  - apply (f_equal (@length byte)) in H. cbn [flat_map] in H.
    rewrite length_app, enc_length in H. cbn [length] in H. destruct T; cbn in H; lia.
  - cbn [flat_map] in H.
    apply app_inj_length in H; [| now rewrite !enc_length].
    destruct H as [He Hl]. apply enc_inj in He. apply IH in Hl. now subst.
Qed.

(** The outcome of [Vector.Value] on every vector: nothing for a
    vector that is not valid or has no data, the wire form of the data
    otherwise. The field [Dimension] is not read. *)
Lemma Vector_Value_cases (T : ElementType) (v : Vector.t T) :
  Vector.Value v
  = Return (if Vector.Valid v
            then match Vector.Data v with
                 | [] => VNil
                 | _ :: _ => VBytes (freeze (vector_wire T (Vector.Data v)))
                 end
            else VNil, None).
Proof.
  destruct (Vector.Valid v) eqn:Hv.
  - destruct (Vector.Data v) as [| e l] eqn:Hd.
    + unfold Vector.Value. rewrite Hv, Hd. reflexivity.
    + rewrite Vector_Value_wire; [now rewrite Hd | exact Hv | now rewrite Hd].
  - unfold Vector.Value. now rewrite Hv.
Qed.

(** X22: [Vector.Value] never fails, for none of the four element
    types: it returns no error and does not panic. It writes nothing
    for a vector that is not valid or has no data, and otherwise
    [5 + size * n] bytes for the [n] elements of [Data], whatever
    [Dimension] says; and it never writes two vectors with data alike:
    vectors with the same bytes have the same data. *)
Theorem Vector_Value_never_fails (T : ElementType) (v v' : Vector.t T) :
  (exists val,
     Vector.Value v = Return (val, None) /\
     (val = VNil <-> Vector.Valid v = false \/ Vector.Data v = []) /\
     (forall b, val = VBytes b ->
        len b = 5 + Z.of_nat (size_of T) * Z.of_nat (length (Vector.Data v)) /\
        nth 0 (elems b) x00 = tag_of T)) /\
  (Vector.Valid v = true -> Vector.Data v <> [] ->
   Vector.Value v = Vector.Value v' ->
   Vector.Valid v' = true /\ Vector.Data v' = Vector.Data v).
Proof.
  split.
  - rewrite Vector_Value_cases. eexists. split; [reflexivity |].
    destruct (Vector.Valid v); [| split; [split; [now left | reflexivity] | discriminate]].
    destruct (Vector.Data v) as [| e l] eqn:Hd.
    + split; [split; [now right | reflexivity] | discriminate].
    + split.
      * split; [discriminate | intros [H | H]; discriminate H].
      * intros b Hb. injection Hb as <-. unfold freeze, len. cbn [elems]. split.
        -- unfold vector_wire. cbn [length].
           rewrite length_app, split_length, flat_map_enc_length. cbn [length]. lia.
        -- reflexivity.
  - intros Hv Hd. rewrite !Vector_Value_cases, Hv.
    destruct (Vector.Data v) as [| e l] eqn:E; [contradiction |].
    destruct (Vector.Valid v'); [| discriminate].
    destruct (Vector.Data v') as [| e' l'] eqn:E'; [discriminate |].
    intros H0. split; [reflexivity |].
    assert (H : vector_wire T (e' :: l') = vector_wire T (e :: l))
      by (unfold freeze in H0; congruence).
    clear H0. unfold vector_wire in H. apply (f_equal (skipn 1)) in H.
    cbn [skipn] in H.
    apply app_inj_length in H; [| now rewrite !split_length].
    destruct H as [_ H]. now apply flat_map_enc_inj in H.
Qed.

Lemma Vector_Value_never_fails_witness :
  Vector.Valid one_two = true /\ Vector.Data one_two <> [] /\
  Vector.Value one_two
  = Vector.Value (Vector.mk (T := TInt64) [word.of_Z 1; word.of_Z 2] 7 true) /\
  Vector.Valid (Vector.mk (T := TInt64) [word.of_Z 1; word.of_Z 2] 7 true) = true /\
  Vector.Data (Vector.mk (T := TInt64) [word.of_Z 1; word.of_Z 2] 7 true)
  = Vector.Data one_two.
Proof.
  split; [reflexivity |]. split; [discriminate |]. split; [reflexivity |].
  apply (proj2 (Vector_Value_never_fails TInt64 one_two
                  (Vector.mk (T := TInt64) [word.of_Z 1; word.of_Z 2] 7 true))).
  - reflexivity.
  - discriminate.
  - reflexivity.
Defined.

Lemma LineString_Value_injective_witness :
  LineString.Value path3 = LineString.Value {| Points := Points path3 |} /\
  path3 = {| Points := Points path3 |}.
Proof.
  split; [reflexivity |].
  apply (proj2 (LineString_Value_injective path3 {| Points := Points path3 |})).
  reflexivity.
Defined.

(** ** Vector: the constructor *)

Section VectorConstructor.
Variable ParseFloat : list byte -> Z -> float64 * option strconv.NumError.
Variable ParseInt : list byte -> Z -> Z -> int64 * option strconv.NumError.
Variable narrow : float64 -> float32.

(** X24: [NewVector] makes a valid vector whose [Len] is the length of
    the data. With data (fewer than [2^32] elements) it goes through
    [Value] and [Scan] unchanged. Without data it is valid too, but
    [Value] writes it as NULL, and [Scan] of NULL gives a vector that
    [IsValid] denies: the empty vector of [NewVector] comes back as a
    NULL vector. *)
Theorem NewVector_roundtrip (T : ElementType) (data : list (elem T)) (v0 : Vector.t T) :
  Vector.IsValid (Vector.NewVector data) = true /\
  Vector.Len (Vector.NewVector data) = Z.of_nat (length data) /\
  (data <> [] -> Z.of_nat (length data) < 2 ^ 32 ->
   exists b,
     Vector.Value (Vector.NewVector data) = Return (VBytes b, None) /\
     Vector.Scan ParseFloat ParseInt narrow v0 (VBytes b)
     = Return (Vector.NewVector data, None)) /\
  (data = [] ->
   exists v',
     Vector.Value (Vector.NewVector data) = Return (VNil, None) /\
     Vector.Scan ParseFloat ParseInt narrow v0 VNil = Return (v', None) /\
     Vector.IsValid v' = false).
Proof.
  split; [reflexivity |]. split; [reflexivity |]. split.
  - intros Hd Hlen. exists (freeze (vector_wire T data)). split.
    + now apply (Vector_Value_wire T (Vector.NewVector data)).
    + cbn [Vector.Scan]. rewrite Vector_scan_wire. cbv zeta.
      replace (uint32_wrap (Z.of_nat (length data))) with (Z.of_nat (length data))
        by (unfold uint32_wrap; rewrite Z.mod_small; lia).
      rewrite Nat2Z.id, firstn_all. reflexivity.
  - intros ->. eexists. split; [reflexivity |]. split; reflexivity.
Qed.
End VectorConstructor.

Lemma NewVector_roundtrip_witness :
  (exists b,
     Vector.Value (Vector.NewVector (T := TInt64) [word.of_Z 1; word.of_Z 2])
     = Return (VBytes b, None) /\
     Vector.Scan no_parse_float no_parse_int no_narrow
       (Vector.NewVector (T := TInt64) []) (VBytes b)
     = Return (Vector.NewVector (T := TInt64) [word.of_Z 1; word.of_Z 2], None)) /\
  (exists v',
     Vector.Value (Vector.NewVector (T := TInt64) []) = Return (VNil, None) /\
     Vector.Scan no_parse_float no_parse_int no_narrow one_two VNil = Return (v', None) /\
     Vector.IsValid v' = false).
Proof.
  split.
  - apply (proj1 (proj2 (proj2 (NewVector_roundtrip no_parse_float no_parse_int no_narrow
                                  TInt64 [word.of_Z 1; word.of_Z 2]
                                  (Vector.NewVector (T := TInt64) []))))).
    + discriminate.
    + cbn [length]. lia.
  - apply (proj2 (proj2 (proj2 (NewVector_roundtrip no_parse_float no_parse_int no_narrow
                                  TInt64 [] one_two)))).
    reflexivity.
Defined.
